(** * Gator (PietPadda/aggregator): the feed poller

    A shallow embedding of the RSS aggregator's polling core and of the
    configuration writer, with the properties its specification states.

    - [Sql], [Store]: the tables and the queries of [sql/queries].
    - [rssfeed]: [FetchFeed] of [internal/rssfeed/rssfeed.go].
    - [handlers]: [scrapeFeeds] and [HandlerAgg] of
      [internal/handlers/handlers.go].
    - [config]: [Read], [write] and [SetUser] of [internal/config/config.go].
    - [GoTime]: the duration parser and the ticker of Go's [time] package.
    - [Ingestor]: the post ingestor, over [CreatePost] of [sql/queries].
    - [Sample]: a small database, a feed document and a machine to run the
      definitions on.

    Part II has the properties, module by module: [SqlFacts], [StoreFacts],
    [rssfeedFacts], [handlersFacts], [configFacts], [IngestorFacts].

    Timestamps are integers (microseconds), SQL NULL is [None], a Go pointer
    that may be nil is an [option], a Go [(value, error)] pair is a sum with
    the error on the left. *)

From Stdlib Require Import ZArith List String Ascii Bool Lia.
From Stdlib Require Import Sorting.Permutation Sorting.Sorted.
From Stdlib Require Import Floats.SpecFloat.
Import ListNotations.

Open Scope string_scope.
Open Scope list_scope.
Open Scope Z_scope.

(* ================================================================== *)
(** * Part I: definitions *)
(* ================================================================== *)

(** ** Go errors *)

(** An [error] value: a sentinel of [database/sql], an error made by a
    library or by the operating system, or one built by [fmt.Errorf]. The
    constructors of [fmt.Errorf] follow the verbs of the format strings the
    program uses: none, one [%s], one [%w], or [%s] then [%w]. *)
Inductive error : Type :=
| sql_ErrNoRows
| LibError (text : string)
| Errorf0 (format : string)
| ErrorfS (format : string) (s : string)
| ErrorfW (format : string) (cause : error)
| ErrorfSW (format : string) (s : string) (cause : error).

(** [errors.Is(err, sql.ErrNoRows)]: follows the chain of [%w] causes. *)
Fixpoint errors_Is_ErrNoRows (err : error) : bool :=
  match err with
  | sql_ErrNoRows => true
  | LibError _ | Errorf0 _ | ErrorfS _ _ => false
  | ErrorfW _ cause | ErrorfSW _ _ cause => errors_Is_ErrNoRows cause
  end.

(** ** What the process does to the outside world *)

Definition UUID := N.

(** An argument of a [fmt.Printf] call. *)
Variant Arg : Type :=
| AStr (s : string)
| AErr (e : error)
| ADuration (nanoseconds : Z).

Variant Event : Type :=
| DbGetNextFeedToFetch
| DbMarkFeedFetched (id : UUID)
| HttpDo (url : string)
| Stdout (format : string) (args : list Arg)
| TickerWait.

Definition is_TickerWait (ev : Event) : bool :=
  match ev with TickerWait => true | _ => false end.

Definition is_Stdout (ev : Event) : Prop :=
  match ev with Stdout _ _ => True | _ => False end.

(** The line feed that ends the format strings. *)
Definition nl : string := String (ascii_of_nat 10) EmptyString.

(** ** The relational layer *)

Module Sql.

Section OrderBy.
Context {Row : Type}.
Variable leb : Row -> Row -> bool.

(** [ORDER BY] fixes the order of the rows up to the sort key only, and
    leaves the order of rows with equal keys to the database. [order_by] is
    the order of one executor, which keeps rows with equal keys in the order
    of the list that holds the table; [ordered] below is what every executor
    gives. *)
Fixpoint insert_row (r : Row) (sorted : list Row) : list Row :=
  match sorted with
  | [] => [r]
  | x :: rest => if leb r x then r :: sorted else x :: insert_row r rest
  end.

Definition order_by (rows : list Row) : list Row :=
  fold_right insert_row [] rows.

(** What [ORDER BY] promises of its result: the rows, each as often as in
    the table, in an order that the sort key does not contradict. *)
Definition ordered (rows sorted : list Row) : Prop :=
  Permutation rows sorted /\ Sorted (fun a b => leb a b = true) sorted.

End OrderBy.

(** [LIMIT n] *)
Definition limit {Row : Type} (n : nat) (rows : list Row) : list Row :=
  firstn n rows.

(** [ASC NULLS FIRST] on a nullable timestamp. *)
Definition asc_nulls_first (a b : option Z) : bool :=
  match a, b with
  | None, _ => true
  | Some _, None => false
  | Some x, Some y => x <=? y
  end.

End Sql.

(** ** The tables *)

(** A row of [feeds], with the columns the queries name. *)
Record Feed : Type := mkFeed {
  feed_id : UUID;
  feed_created_at : Z;
  feed_updated_at : Z;
  feed_name : string;
  feed_url : string;
  feed_user_id : UUID;
  feed_last_fetched_at : option Z
}.

(** A row of [posts] ([sql/schema/005_posts.sql]). *)
Record Post : Type := mkPost {
  post_id : UUID;
  post_created_at : Z;
  post_updated_at : Z;
  post_title : string;
  post_url : string;
  post_description : option string;
  post_published_at : option Z;
  post_feed_id : UUID
}.

Record Database : Type := mkDatabase {
  feeds : list Feed;
  posts : list Post
}.

Module Store.

Definition by_last_fetched_at (f g : Feed) : bool :=
  Sql.asc_nulls_first (feed_last_fetched_at f) (feed_last_fetched_at g).

(** [-- name: GetNextFeedToFetch :one]
    [SELECT * FROM feeds ORDER BY last_fetched_at ASC NULLS FIRST LIMIT 1;]
    A [:one] query with no row gives [sql.ErrNoRows]. *)
Definition GetNextFeedToFetch (rows : list Feed) : error + Feed :=
  match Sql.limit 1 (Sql.order_by by_last_fetched_at rows) with
  | [] => inl sql_ErrNoRows
  | f :: _ => inr f
  end.

(** The answers that the text of the query allows: the first row of any
    order that [ORDER BY last_fetched_at ASC NULLS FIRST] admits.
    [GetNextFeedToFetch] is one of them. *)
Definition GetNextFeedToFetch_admits (rows : list Feed) (r : error + Feed) : Prop :=
  exists sorted,
    Sql.ordered by_last_fetched_at rows sorted /\
    r = match Sql.limit 1 sorted with
        | [] => inl sql_ErrNoRows
        | f :: _ => inr f
        end.

(** [-- name: MarkFeedFetched :exec]
    [UPDATE feeds SET updated_at = NOW(), last_fetched_at = NOW() WHERE id = $1;] *)
Definition MarkFeedFetched (now : Z) (id : UUID) (rows : list Feed) : list Feed :=
  map (fun f =>
         if N.eqb (feed_id f) id
         then mkFeed (feed_id f) (feed_created_at f) now (feed_name f)
                     (feed_url f) (feed_user_id f) (Some now)
         else f)
      rows.

(** The constraints of [posts] that an insert can break. *)
Variant ConstraintViolation : Type :=
| UniqueViolation (constraint : string)
| ForeignKeyViolation (constraint : string).

(** [-- name: CreatePost :one]
    [INSERT INTO posts (...) VALUES ($1, ..., $8) RETURNING *;]
    on the table of [005_posts.sql]: [id] is the primary key, [url] is
    [UNIQUE], [feed_id] references [feeds(id)]. *)
Definition CreatePost (p : Post) (db : Database) : ConstraintViolation + Database :=
  if existsb (fun r => N.eqb (post_id r) (post_id p)) (posts db) then
    inl (UniqueViolation "posts_pkey")
  else if existsb (fun r => String.eqb (post_url r) (post_url p)) (posts db) then
    inl (UniqueViolation "posts_url_key")
  else if negb (existsb (fun f => N.eqb (feed_id f) (post_feed_id p)) (feeds db)) then
    inl (ForeignKeyViolation "posts_feed_id_fkey")
  else inr {| feeds := feeds db; posts := posts db ++ [p] |}.

(** The feeds whose [last_fetched_at] no other feed precedes. *)
Definition earliest (rows : list Feed) (f : Feed) : Prop :=
  In f rows /\ forall g, In g rows -> by_last_fetched_at f g = true.

(** [f] is the only feed of [rows] with the earliest [last_fetched_at]. *)
Definition sole_earliest (rows : list Feed) (f : Feed) : Prop :=
  In f rows /\ forall g, In g rows -> g <> f -> by_last_fetched_at g f = false.

End Store.

(** ** Go's [strings] and [time] packages *)

Module GoStrings.

(** [strings.Contains(s, substr)] *)
Fixpoint Contains (s substr : string) : bool :=
  if String.prefix substr s then true
  else match s with
       | EmptyString => false
       | String _ rest => Contains rest substr
       end.

End GoStrings.

Module GoTime.

(** Binary64 arithmetic, as Go's [float64]. *)
Definition float64_of_Z (m : Z) : spec_float := binary_normalize 53 1024 m 0 false.
Definition float64_mul : spec_float -> spec_float -> spec_float := SFmul 53 1024.
Definition float64_div : spec_float -> spec_float -> spec_float := SFdiv 53 1024.

(** [uint64(x)] on a finite non-negative [x]: the integer part. *)
Definition uint64_of_float64 (x : spec_float) : Z :=
  match x with
  | S754_finite false m e => Z.shiftl (Z.pos m) e
  | _ => 0
  end.

Definition is_digit (c : ascii) : bool :=
  (48 <=? Z.of_nat (nat_of_ascii c)) && (Z.of_nat (nat_of_ascii c) <=? 57).

Definition digit (c : ascii) : Z := Z.of_nat (nat_of_ascii c) - 48.

Definition byte (n : nat) : string := String (ascii_of_nat n) EmptyString.

(** [lowerhex]: the hexadecimal digits. *)
Definition lowerhex (n : Z) : ascii :=
  nth (Z.to_nat n) (list_ascii_of_string "0123456789abcdef") "0"%char.

(** One byte as [quote] writes it: a byte of a character that is not ASCII,
    and a byte below the space, as [\x] and its two hexadecimal digits; a
    double quote and a backslash behind a backslash; every other byte as it
    is. *)
Definition quote_byte (c : ascii) : string :=
  let n := Z.of_nat (nat_of_ascii c) in
  if (128 <=? n) || (n <? 32) then
    String (ascii_of_nat 92)
      (String "x" (String (lowerhex (n / 16)) (String (lowerhex (n mod 16)) EmptyString)))
  else if (n =? 34) || (n =? 92) then String (ascii_of_nat 92) (String c EmptyString)
  else String c EmptyString.

Fixpoint quote_bytes (s : string) : string :=
  match s with
  | EmptyString => EmptyString
  | String c rest => (quote_byte c ++ quote_bytes rest)%string
  end.

(** [quote], of the package [time]: the input between double quotes, with
    the escapes of [quote_byte]. *)
Definition quote (s : string) : string :=
  (byte 34 ++ quote_bytes s ++ byte 34)%string.

(** [leadingInt]: the digits at the front of [s] as a [uint64], [None] when
    they overflow; [x] is the value read so far. *)
Fixpoint leadingInt (s : string) (x : Z) : option (Z * string) :=
  match s with
  | String c rest =>
      if is_digit c then
        if x >? 2 ^ 63 / 10 then None
        else
          let x' := x * 10 + digit c in
          if x' >? 2 ^ 63 then None else leadingInt rest x'
      else Some (x, s)
  | EmptyString => Some (x, s)
  end.

(** [leadingFraction]: the digits at the front of [s] as the numerator [x]
    of a fraction of denominator [scale], a [float64] that is multiplied by
    ten at every digit kept; digits past the overflow of [x] are read and
    dropped. *)
Fixpoint leadingFraction (s : string) (x : Z) (scale : spec_float) (overflow : bool)
  : Z * spec_float * string :=
  match s with
  | String c rest =>
      if is_digit c then
        if overflow then leadingFraction rest x scale true
        else if x >? (2 ^ 63 - 1) / 10 then leadingFraction rest x scale true
        else
          let y := x * 10 + digit c in
          if y >? 2 ^ 63 then leadingFraction rest x scale true
          else leadingFraction rest y (float64_mul scale (float64_of_Z 10)) false
      else (x, scale, s)
  | EmptyString => (x, scale, s)
  end.

(** The unit: the bytes up to the next ['.'] or digit. *)
Fixpoint span_unit (s : string) : string * string :=
  match s with
  | String c rest =>
      if Ascii.eqb c "." || is_digit c then (EmptyString, s)
      else let '(u, r) := span_unit rest in (String c u, r)
  | EmptyString => (EmptyString, EmptyString)
  end.

(** [unitMap], in nanoseconds; the micro sign and the Greek mu are given by
    their UTF-8 bytes. *)
Definition unitMap (u : string) : option Z :=
  if String.eqb u "ns" then Some 1
  else if String.eqb u "us" then Some 1000
  else if String.eqb u (byte 194 ++ byte 181 ++ "s") then Some 1000
  else if String.eqb u (byte 206 ++ byte 188 ++ "s") then Some 1000
  else if String.eqb u "ms" then Some 1000000
  else if String.eqb u "s" then Some 1000000000
  else if String.eqb u "m" then Some 60000000000
  else if String.eqb u "h" then Some 3600000000000
  else None.

Definition invalid (orig : string) : error :=
  LibError ("time: invalid duration " ++ quote orig).

(** The loop over the rest [s] of the input in [ParseDuration]: one number
    and its unit per round, [d] the sum so far, a [uint64] that wraps. Every
    round takes at least one byte off [s], so [fuel] above the length of [s]
    is never used up. *)
Fixpoint parse_groups (fuel : nat) (orig s : string) (d : Z) : error + Z :=
  match fuel with
  | O => inl (invalid orig)
  | S fuel' =>
      match s with
      | EmptyString => inr d
      | String c0 _ =>
          if negb (Ascii.eqb c0 "." || is_digit c0) then inl (invalid orig)
          else
            match leadingInt s 0 with
            | None => inl (invalid orig)
            | Some (v, s1) =>
                let pre := negb (Nat.eqb (String.length s) (String.length s1)) in
                let '(f, scale, s2, post) :=
                  match s1 with
                  | String "." rest =>
                      let '(f, scale, s2) :=
                        leadingFraction rest 0 (float64_of_Z 1) false in
                      (f, scale, s2,
                       negb (Nat.eqb (String.length rest) (String.length s2)))
                  | _ => (0, float64_of_Z 1, s1, false)
                  end in
                if negb pre && negb post then inl (invalid orig)
                else
                  let '(u, s3) := span_unit s2 in
                  if String.eqb u "" then
                    inl (LibError ("time: missing unit in duration " ++ quote orig))
                  else
                    match unitMap u with
                    | None =>
                        inl (LibError ("time: unknown unit " ++ quote u
                                       ++ " in duration " ++ quote orig))
                    | Some unit =>
                        if v >? 2 ^ 63 / unit then inl (invalid orig)
                        else
                          let v1 := v * unit in
                          let v2 :=
                            if f >? 0 then
                              v1 + uint64_of_float64
                                     (float64_mul (float64_of_Z f)
                                        (float64_div (float64_of_Z unit) scale))
                            else v1 in
                          if (f >? 0) && (v2 >? 2 ^ 63) then inl (invalid orig)
                          else
                            let d' := (d + v2) mod 2 ^ 64 in
                            if d' >? 2 ^ 63 then inl (invalid orig)
                            else parse_groups fuel' orig s3 d'
                    end
            end
      end
  end.

(** [time.ParseDuration]: a signed sequence of decimal numbers, each with
    an optional fraction and a unit; the result in nanoseconds. *)
Definition ParseDuration (orig : string) : error + Z :=
  let '(neg, s) :=
    match orig with
    | String "-" rest => (true, rest)
    | String "+" rest => (false, rest)
    | _ => (false, orig)
    end in
  if String.eqb s "0" then inr 0
  else if String.eqb s "" then inl (invalid orig)
  else
    match parse_groups (S (String.length s)) orig s 0 with
    | inl err => inl err
    | inr d =>
        if neg then inr (- d)
        else if d >? 2 ^ 63 - 1 then inl (invalid orig)
        else inr d
    end.

(** [time.NewTicker(d)] panics unless [d] is positive. *)
Definition NewTicker (d : Z) : string + Z :=
  if d <=? 0 then inl "non-positive interval for NewTicker" else inr d.

End GoTime.

(** ** Effects: the database, the network and the terminal *)

(** A computation reads and updates the database and appends to the trace
    of what the process did. *)
Definition IO (A : Type) : Type := Database -> A * Database * list Event.

Definition ret {A : Type} (a : A) : IO A := fun db => (a, db, []).

Definition bind {A B : Type} (m : IO A) (k : A -> IO B) : IO B :=
  fun db =>
    let '(a, db1, ev1) := m db in
    let '(b, db2, ev2) := k a db1 in
    (b, db2, ev1 ++ ev2).

Definition emit (ev : Event) : IO unit := fun db => (tt, db, [ev]).

Declare Scope io_scope.
Delimit Scope io_scope with io.
Notation "x <- m ;; k" := (bind m (fun x => k))
  (at level 61, m at next level, right associativity) : io_scope.
Notation "m ;; k" := (bind m (fun _ => k))
  (at level 61, right associativity) : io_scope.
Open Scope io_scope.

Definition result_of {A : Type} (r : A * Database * list Event) : A := fst (fst r).
Definition database_of {A : Type} (r : A * Database * list Event) : Database :=
  snd (fst r).
Definition trace_of {A : Type} (r : A * Database * list Event) : list Event := snd r.

Definition fmt_Printf (format : string) (args : list Arg) : IO unit :=
  emit (Stdout format args).

Definition fmt_Println (line : string) : IO unit :=
  emit (Stdout (line ++ nl) []).

(** [if cond { body }] *)
Definition when (cond : bool) (body : IO unit) : IO unit :=
  if cond then body else ret tt.

(** [for _, x := range xs { body }] *)
Fixpoint for_range {A : Type} (xs : list A) (body : A -> IO unit) : IO unit :=
  match xs with
  | [] => ret tt
  | x :: rest => body x ;; for_range rest body
  end.

(** What the outside world answers during one cycle of the poller: the
    value of [NOW()], the failures of the two queries (a lost connection,
    say), and the answer of the network to a GET of a URL. *)
Record Response : Type := mkResponse {
  Header_Content_Type : string;
  StatusCode : Z;
  Status : string;
  Body : error + string
}.

Record CycleEnv : Type := mkCycleEnv {
  env_now : Z;
  env_GetNextFeedToFetch_fails : option error;
  env_MarkFeedFetched_fails : option error;
  env_client_Do : string -> error + Response
}.

(** ** [internal/rssfeed] *)

Module rssfeed.

Record AtomLink : Type := mkAtomLink {
  AtomLink_Href : string;
  AtomLink_Rel : string;
  AtomLink_Type : string
}.

Record RSSItem : Type := mkRSSItem {
  RSSItem_Title : string;
  RSSItem_Link : string;
  RSSItem_PubDate : string;
  RSSItem_GUID : string;
  RSSItem_Description : string
}.

Record Channel : Type := mkChannel {
  Channel_Title : string;
  Channel_Link : string;
  Channel_Description : string;
  Channel_Generator : string;
  Channel_Language : string;
  Channel_LastBuildDate : string;
  Channel_Atom : AtomLink;
  Channel_Items : list RSSItem
}.

Record RSSFeed : Type := mkRSSFeed {
  RSSFeed_Channel : Channel
}.

Section FetchFeed.

(** The library functions [FetchFeed] calls: [html.UnescapeString],
    [xml.Unmarshal] into an [RSSFeed], and the error, if any, with which
    [http.NewRequestWithContext] refuses a URL. *)
Variable html_UnescapeString : string -> string.
Variable xml_Unmarshal : string -> error + RSSFeed.
Variable http_NewRequest : string -> option error.

(** The body of the loop over [feed.Channel.Items]. *)
Definition unescape_item (item : RSSItem) : RSSItem :=
  {| RSSItem_Title := html_UnescapeString (RSSItem_Title item);
     RSSItem_Link := html_UnescapeString (RSSItem_Link item);
     RSSItem_PubDate := html_UnescapeString (RSSItem_PubDate item);
     RSSItem_GUID := html_UnescapeString (RSSItem_GUID item);
     RSSItem_Description := html_UnescapeString (RSSItem_Description item) |}.

(** The assignments after [// Unescape the HTML entitites]: the source
    assigns [Title], [Description], [Generator], [Language],
    [LastBuildDate] and the three fields of [Atom], then every item; it has
    no assignment to [feed.Channel.Link]. *)
Definition unescape_feed (feed : RSSFeed) : RSSFeed :=
  let ch := RSSFeed_Channel feed in
  {| RSSFeed_Channel :=
       {| Channel_Title := html_UnescapeString (Channel_Title ch);
          Channel_Link := Channel_Link ch;
          Channel_Description := html_UnescapeString (Channel_Description ch);
          Channel_Generator := html_UnescapeString (Channel_Generator ch);
          Channel_Language := html_UnescapeString (Channel_Language ch);
          Channel_LastBuildDate := html_UnescapeString (Channel_LastBuildDate ch);
          Channel_Atom :=
            {| AtomLink_Href := html_UnescapeString (AtomLink_Href (Channel_Atom ch));
               AtomLink_Rel := html_UnescapeString (AtomLink_Rel (Channel_Atom ch));
               AtomLink_Type := html_UnescapeString (AtomLink_Type (Channel_Atom ch)) |};
          Channel_Items := map unescape_item (Channel_Items ch) |} |}.

(** The four warnings of [// RSSFEED VALIDATION]. *)
Definition warn_feed (feed : RSSFeed) : IO unit :=
  let ch := RSSFeed_Channel feed in
  when (String.eqb (Channel_Title ch) "") (fmt_Println "Warning: feed has no title") ;;
  when (String.eqb (Channel_Link ch) "") (fmt_Println "Warning: feed has no link") ;;
  when (String.eqb (Channel_Description ch) "")
       (fmt_Println "Warning: feed has no description") ;;
  when (Nat.eqb (List.length (Channel_Items ch)) 0)
       (fmt_Println "Warning: feed has no items").

(** [FetchFeed(ctx, feedURL)], which returns the feed or an error.
    The context's deadline is part of what [client.Do] answers. *)
Definition FetchFeed (client_Do : string -> error + Response) (feedURL : string)
  : IO (error + RSSFeed) :=
  if String.eqb feedURL "" then ret (inl (Errorf0 "feed URL is empty"))
  else
    match http_NewRequest feedURL with
    | Some err => ret (inl (ErrorfW "error creating HTTP request: %w" err))
    | None =>
        emit (HttpDo feedURL) ;;
        match client_Do feedURL with
        | inl err => ret (inl (ErrorfW "error fetching feed: %w" err))
        | inr res =>
            let resType := Header_Content_Type res in
            if negb (GoStrings.Contains resType "xml") then
              ret (inl (ErrorfS "invalid content type: %s" resType))
            else if StatusCode res >? 299 then
              ret (inl (ErrorfS "error fetching feed: %s" (Status res)))
            else
              match Body res with
              | inl err => ret (inl (ErrorfW "error reading response body: %w" err))
              | inr data =>
                  match xml_Unmarshal data with
                  | inl err => ret (inl (ErrorfW "error unmarshalling XML: %w" err))
                  | inr feed =>
                      warn_feed feed ;;
                      ret (inr (unescape_feed feed))
                  end
              end
        end
    end.

(** The failures of one fetch that the specification names: the network
    fails, the content type has no "xml", the status is 300 or above, the
    body is not a feed. [FetchError client_Do url err]: the answer of the
    network to [url] is a failure of one of these kinds, and [err] is the
    error the source builds for it. *)
Inductive FetchError (client_Do : string -> error + Response) (url : string)
  : error -> Prop :=
| Network (e : error) :
    client_Do url = inl e ->
    FetchError client_Do url (ErrorfW "error fetching feed: %w" e)
| BadContentType (res : Response) :
    client_Do url = inr res ->
    GoStrings.Contains (Header_Content_Type res) "xml" = false ->
    FetchError client_Do url
               (ErrorfS "invalid content type: %s" (Header_Content_Type res))
| HTTPStatus (res : Response) :
    client_Do url = inr res ->
    GoStrings.Contains (Header_Content_Type res) "xml" = true ->
    300 <= StatusCode res ->
    FetchError client_Do url (ErrorfS "error fetching feed: %s" (Status res))
| ParseError (res : Response) (data : string) (e : error) :
    client_Do url = inr res ->
    GoStrings.Contains (Header_Content_Type res) "xml" = true ->
    StatusCode res < 300 ->
    Body res = inr data ->
    xml_Unmarshal data = inl e ->
    FetchError client_Do url (ErrorfW "error unmarshalling XML: %w" e).

End FetchFeed.

End rssfeed.

(** ** [internal/config] *)

Module config.

Definition configFileName : string := ".gatorconfig.json".

(** [URL] and [Name] are pointers to strings: nil is [None]. *)
Record Config : Type := mkConfig {
  Config_URL : option string;
  Config_Name : option string
}.

(** [Config{}] *)
Definition Config_zero : Config := mkConfig None None.

(** What [os.Open] finds at a path. *)
Variant FileState : Type :=
| NoSuchFile
| CannotOpen (err : error)
| FileBytes (data : string).

(** The operating system as the package sees it: the home directory, the
    files, and, when the next [os.WriteFile] is to fail, its error and the
    state in which it leaves the file. *)
Record OS : Type := mkOS {
  os_UserHomeDir : error + string;
  os_files : string -> FileState;
  os_WriteFile_fails : option (error * FileState)
}.

Definition set_file (os : OS) (path : string) (st : FileState) : OS :=
  {| os_UserHomeDir := os_UserHomeDir os;
     os_files := fun p => if String.eqb p path then st else os_files os p;
     os_WriteFile_fails := os_WriteFile_fails os |}.

Section Config.

(** The library functions of the package: [filepath.Join],
    [json.NewDecoder(file).Decode(&cfg)] on the bytes of the file (the
    [Config] it filled and its error), and [json.MarshalIndent]. *)
Variable filepath_Join : string -> string -> string.
Variable json_Decode : string -> Config * option error.
Variable json_MarshalIndent : Config -> error + string.

Definition getConfigPath (os : OS) : error + string :=
  match os_UserHomeDir os with
  | inl err => inl (ErrorfW "error getting home dir: %w" err)
  | inr homePath => inr (filepath_Join homePath configFileName)
  end.

Definition Read (os : OS) : Config * option error :=
  match getConfigPath os with
  | inl err =>
      (Config_zero, Some (ErrorfW "error getting filepath from helper: %w" err))
  | inr configPath =>
      match os_files os configPath with
      | NoSuchFile => (Config_zero, None)
      | CannotOpen err =>
          (Config_zero, Some (ErrorfW "error reading config file: %w" err))
      | FileBytes data =>
          match json_Decode data with
          | (cfg, Some err) =>
              (cfg, Some (ErrorfW "error decoding config file: %w" err))
          | (cfg, None) => (cfg, None)
          end
      end
  end.

Definition write (cfg : Config) (os : OS) : option error * OS :=
  match getConfigPath os with
  | inl err => (Some (ErrorfW "error getting filepath from helper: %w" err), os)
  | inr configPath =>
      match json_MarshalIndent cfg with
      | inl err =>
          (Some (ErrorfW "error marshalling cfg back to json: %w" err), os)
      | inr jsonData =>
          match os_WriteFile_fails os with
          | Some (err, residue) =>
              (Some (ErrorfW "error writing updated json: %w" err),
               set_file os configPath residue)
          | None => (None, set_file os configPath (FileBytes jsonData))
          end
      end
  end.

Definition SetUser (userName : string) (os : OS) : Config * option error * OS :=
  match Read os with
  | (_, Some err) =>
      (Config_zero, Some (ErrorfW "error reading config file: %w" err), os)
  | (cfg, None) =>
      let cfg := {| Config_URL := Config_URL cfg; Config_Name := Some userName |} in
      match write cfg os with
      | (Some err, os') =>
          (cfg, Some (ErrorfW "error writing updated config file: %w" err), os')
      | (None, os') => (cfg, None, os')
      end
  end.

End Config.

End config.

(** ** [internal/app] and [internal/database] *)

(** A [*database.Queries]: the handle [database.New(db)] returns. *)
Variant Queries : Type := database_New.

Record State : Type := mkState {
  State_Config : option config.Config;
  State_DB : option Queries
}.

Record Command : Type := mkCommand {
  Command_Name : string;
  Command_Args : list string
}.

(** The two queries as methods of [Queries]: each is one round trip to the
    database, which the cycle's environment may fail. *)
Definition Queries_GetNextFeedToFetch (env : CycleEnv) (q : Queries)
  : IO (error + Feed) :=
  fun db =>
    (match env_GetNextFeedToFetch_fails env with
     | Some err => inl err
     | None => Store.GetNextFeedToFetch (feeds db)
     end,
     db, [DbGetNextFeedToFetch]).

(** The database after [MarkFeedFetched] has run in the cycle of [env]. *)
Definition marked (env : CycleEnv) (id : UUID) (db : Database) : Database :=
  {| feeds := Store.MarkFeedFetched (env_now env) id (feeds db); posts := posts db |}.

Definition Queries_MarkFeedFetched (env : CycleEnv) (q : Queries) (id : UUID)
  : IO (option error) :=
  fun db =>
    match env_MarkFeedFetched_fails env with
    | Some err => (Some err, db, [DbMarkFeedFetched id])
    | None => (None, marked env id db, [DbMarkFeedFetched id])
    end.

(** ** [internal/handlers] *)

Module handlers.
Import rssfeed.

(** How a statement leaves the body of a loop, and how a handler that may
    loop for ever stands after a number of rounds. *)
Variant Control : Type :=
| Continue
| Return (err : option error)
| Panic (msg : string).

Variant Outcome : Type :=
| Returned (err : option error)
| Panicked (msg : string)
| Looping.

(** [for { body }], watched for [rounds] rounds; [k] numbers the round. *)
Fixpoint for_ever (body : nat -> IO Control) (k rounds : nat) : IO Outcome :=
  match rounds with
  | O => ret Looping
  | S rounds' =>
      c <- body k ;;
      match c with
      | Continue => for_ever body (S k) rounds'
      | Return err => ret (Returned err)
      | Panic msg => ret (Panicked msg)
      end
  end.

Section Handlers.

Variable html_UnescapeString : string -> string.
Variable xml_Unmarshal : string -> error + RSSFeed.
Variable http_NewRequest : string -> option error.
(** [time.ParseDuration], in nanoseconds. *)
Variable time_ParseDuration : string -> error + Z.

Definition scrapeFeeds (env : CycleEnv) (queries : option Queries)
  : IO (option error) :=
  match queries with
  | None => ret (Some (Errorf0 "error: database queries is nil"))
  | Some q =>
      r <- Queries_GetNextFeedToFetch env q ;;
      match r with
      | inl err =>
          if errors_Is_ErrNoRows err then
            fmt_Println
              "No feeds found in database. Add some using the 'addfeed' command." ;;
            ret None
          else ret (Some (ErrorfW "error getting next feed to fetch: %w" err))
      | inr nextFeed =>
          let feedID := feed_id nextFeed in
          let feedName := feed_name nextFeed in
          let feedURL := feed_url nextFeed in
          merr <- Queries_MarkFeedFetched env q feedID ;;
          match merr with
          | Some err => ret (Some (ErrorfW "error marking feed as fetched: %w" err))
          | None =>
              fmt_Printf ("Fetching feed: %s (%s)" ++ nl) [AStr feedName; AStr feedURL] ;;
              fr <- FetchFeed html_UnescapeString xml_Unmarshal http_NewRequest
                              (env_client_Do env) feedURL ;;
              match fr with
              | inl err =>
                  ret (Some (ErrorfSW "error fetching the marked feed %s: %w"
                                      feedName err))
              | inr feed =>
                  fmt_Printf ("Feed: %s" ++ nl) [AStr feedName] ;;
                  for_range (Channel_Items (RSSFeed_Channel feed))
                            (fun item =>
                               fmt_Printf (" - %s" ++ nl) [AStr (RSSItem_Title item)]) ;;
                  fmt_Println "" ;;
                  ret None
              end
          end
      end
  end.

(** The body of the loop of [HandlerAgg]: scrape, print the error if there
    is one, wait for the ticker. It has no [return] and no [break]. *)
Definition agg_round (db : option Queries) (env : CycleEnv) : IO Control :=
  err <- scrapeFeeds env db ;;
  match err with
  | Some e => fmt_Printf ("error scraping the feeds: %s" ++ nl) [AErr e]
  | None => ret tt
  end ;;
  emit TickerWait ;;
  ret Continue.

(** What [scrapeFeeds] prints after the fetch: nothing when the fetch
    failed, else the feed's name, the title of each item and an empty
    line. *)
Definition printed_feed (feedName : string) (r : error + RSSFeed) : list Event :=
  match r with
  | inl _ => []
  | inr feed =>
      Stdout ("Feed: %s" ++ nl) [AStr feedName]
        :: map (fun item => Stdout (" - %s" ++ nl) [AStr (RSSItem_Title item)])
               (Channel_Items (RSSFeed_Channel feed))
        ++ [Stdout ("" ++ nl) []]
  end.

(** What a round prints about the error of its scrape. *)
Definition scrape_log (err : option error) : list Event :=
  match err with
  | Some e => [Stdout ("error scraping the feeds: %s" ++ nl) [AErr e]]
  | None => []
  end.

(** The number of times the process has waited on the ticker. *)
Definition waits (t : list Event) : nat := List.length (filter is_TickerWait t).

(** [HandlerAgg(s, cmd)], watched for [rounds] rounds of its loop; [envs k]
    is what the outside world answers in round [k]. *)
Definition HandlerAgg (s : option State) (cmd : Command)
           (envs : nat -> CycleEnv) (rounds : nat) : IO Outcome :=
  match s with
  | None => ret (Returned (Some (Errorf0 "error: State is nil")))
  | Some s =>
      match Command_Args cmd with
      | [] => ret (Returned (Some (Errorf0 "error: time between requests required")))
      | timeInput :: _ =>
          match time_ParseDuration timeInput with
          | inl err =>
              ret (Returned (Some (ErrorfW "error: invalid duration format: %w" err)))
          | inr timeBetweenRequests =>
              match GoTime.NewTicker timeBetweenRequests with
              | inl msg => ret (Panicked msg)
              | inr _ =>
                  fmt_Printf ("Collecting feeds every %v" ++ nl)
                             [ADuration timeBetweenRequests] ;;
                  for_ever (fun k => agg_round (State_DB s) (envs k)) 0 rounds
              end
          end
      end
  end.

End Handlers.

End handlers.

(** ** The post ingestor *)

Module Ingestor.
Import rssfeed.

(** Modelled from the spec: the identifier of a new post, "an opaque
    unique identifier"; the source of identifiers is missing from the
    sources at hand. It is one more than every identifier of the table. *)
Definition new_id (rows : list Post) : UUID :=
  N.succ (fold_right (fun r m => N.max (post_id r) m) 0%N rows).

(** Modelled from the spec: [insert_post(post) -> ok | duplicate | error],
    "duplicate distinguished from generic error"; the function that calls
    [CreatePost] is missing from the sources at hand. A uniqueness
    violation is the duplicate. *)
Variant Inserted : Type :=
| InsertOk (db : Database)
| InsertDuplicate
| InsertError (violation : Store.ConstraintViolation).

Definition insert_post (p : Post) (db : Database) : Inserted :=
  match Store.CreatePost p db with
  | inr db' => InsertOk db'
  | inl (Store.UniqueViolation _) => InsertDuplicate
  | inl violation => InsertError violation
  end.

(** Modelled from the spec: what became of one item, with "a recorded
    reason" for an item that is skipped. *)
Variant ItemOutcome : Type :=
| Stored (p : Post)
| SkippedMissingTitle
| SkippedMissingURL
| SkippedAlreadyPresent
| SkippedInsertError (violation : Store.ConstraintViolation).

Definition is_Stored (o : ItemOutcome) : bool :=
  match o with Stored _ => true | _ => false end.

(** Modelled from the spec: "a count of inserted vs. skipped items". *)
Record IngestReport : Type := mkIngestReport {
  report_inserted : nat;
  report_skipped : nat;
  report_outcomes : list ItemOutcome
}.

Section Ingest.

(** Modelled from the spec: the "small set of known date formats (e.g.,
    RFC-1123-with-zone, RFC-1123, ISO-8601)", each as the parser of its
    format; the parsers are missing from the sources at hand. *)
Variable date_formats : list (string -> option Z).

(** Modelled from the spec: "attempt to parse the item's publication-date
    string using a small set of known date formats"; the first format that
    parses gives the timestamp, and [None] is the failure. *)
Fixpoint parse_publication_date (formats : list (string -> option Z)) (s : string)
  : option Z :=
  match formats with
  | [] => None
  | format :: rest =>
      match format s with
      | Some t => Some t
      | None => parse_publication_date rest s
      end
  end.

(** Modelled from the spec: "for each ParsedItem, derive a candidate Post
    keyed by its url"; "on failure, store [published_at] as null rather than
    rejecting the item". *)
Definition candidate (now : Z) (feed : Feed) (item : RSSItem) (rows : list Post) : Post :=
  {| post_id := new_id rows;
     post_created_at := now;
     post_updated_at := now;
     post_title := RSSItem_Title item;
     post_url := RSSItem_Link item;
     post_description :=
       if String.eqb (RSSItem_Description item) "" then None
       else Some (RSSItem_Description item);
     post_published_at := parse_publication_date date_formats (RSSItem_PubDate item);
     post_feed_id := feed_id feed |}.

(** Modelled from the spec: the ingestion of one item. "Per-item failures
    other than duplication (e.g., missing title/url) cause that single item
    to be skipped with a recorded reason"; "the ingestor treats a uniqueness
    violation on insert as already present, not an error". *)
Definition ingest_item (now : Z) (feed : Feed) (item : RSSItem) (db : Database)
  : ItemOutcome * Database :=
  if String.eqb (RSSItem_Title item) "" then (SkippedMissingTitle, db)
  else if String.eqb (RSSItem_Link item) "" then (SkippedMissingURL, db)
  else
    let p := candidate now feed item (posts db) in
    match insert_post p db with
    | InsertOk db' => (Stored p, db')
    | InsertDuplicate => (SkippedAlreadyPresent, db)
    | InsertError violation => (SkippedInsertError violation, db)
    end.

(** Modelled from the spec: the items in their order, none aborting the
    rest. *)
Fixpoint ingest_items (now : Z) (feed : Feed) (items : list RSSItem) (db : Database)
  : list ItemOutcome * Database :=
  match items with
  | [] => ([], db)
  | item :: rest =>
      let '(o, db1) := ingest_item now feed item db in
      let '(os, db2) := ingest_items now feed rest db1 in
      (o :: os, db2)
  end.

(** Modelled from the spec: [ingest(feed, parsed_feed) -> IngestReport]. *)
Definition ingest (now : Z) (feed : Feed) (parsed : RSSFeed) (db : Database)
  : IngestReport * Database :=
  let '(os, db') := ingest_items now feed (Channel_Items (RSSFeed_Channel parsed)) db in
  ({| report_inserted := List.length (filter is_Stored os);
      report_skipped := List.length (filter (fun o => negb (is_Stored o)) os);
      report_outcomes := os |},
   db').

End Ingest.

(** The URL is the URL of a stored post. *)
Definition has_url (url : string) (rows : list Post) : bool :=
  existsb (fun r => String.eqb (post_url r) url) rows.

(** The feed is a row of [feeds]. *)
Definition has_feed (id : UUID) (rows : list Feed) : bool :=
  existsb (fun f => N.eqb (feed_id f) id) rows.

(** An item that an ingestion for [feed] skips: it lacks its title or its
    URL, its URL is stored, or the feed is no row of [feeds]. *)
Definition settled (feed : Feed) (db : Database) (item : RSSItem) : bool :=
  String.eqb (RSSItem_Title item) "" || String.eqb (RSSItem_Link item) ""
  || has_url (RSSItem_Link item) (posts db)
  || negb (has_feed (feed_id feed) (feeds db)).

End Ingestor.

(** ** Sample data *)

Module Sample.

(** Three feeds: one fetched late, one never fetched, one fetched early. *)
Definition feed_a : Feed := mkFeed 1%N 10 50 "a" "https://a.example/rss" 7%N (Some 50).
Definition feed_b : Feed := mkFeed 2%N 20 20 "b" "https://b.example/rss" 7%N None.
Definition feed_c : Feed := mkFeed 3%N 30 40 "c" "https://c.example/rss" 7%N (Some 40).
(** A second never-fetched feed. *)
Definition feed_d : Feed := mkFeed 4%N 60 60 "d" "https://d.example/rss" 7%N None.

(** A stand-in for [html.UnescapeString] that decodes the entity [&amp;]
    and no other; the two agree on the strings of this section. *)
Fixpoint unescape_amp (s : string) : string :=
  match s with
  | String "&" (String "a" (String "m" (String "p" (String ";" rest)))) =>
      String "&" (unescape_amp rest)
  | String c rest => String c (unescape_amp rest)
  | EmptyString => EmptyString
  end.

(** A feed document, and the [RSSFeed] that [xml.Unmarshal] makes of it:
    the XML entities of the document are decoded once, which leaves the
    HTML entities of the texts. *)
Definition sample_body : string :=
  "<rss><channel><title>Q&amp;amp;A</title>" ++
  "<link>https://b.example/?a=1&amp;amp;b=2</link>" ++
  "<description>News &amp;amp; notes</description>" ++
  "<item><title>First &amp;amp; last</title>" ++
  "<link>https://b.example/1?x=1&amp;amp;y=2</link>" ++
  "<pubDate>Mon, 02 Jan 2006 15:04:05 MST</pubDate><guid>1</guid>" ++
  "<description>one</description></item>" ++
  "<item><title>Second</title><link>https://b.example/2</link>" ++
  "<pubDate>yesterday</pubDate><guid>2</guid>" ++
  "<description>two</description></item></channel></rss>".

Definition sample_item_1 : rssfeed.RSSItem :=
  rssfeed.mkRSSItem "First &amp; last" "https://b.example/1?x=1&amp;y=2"
                    "Mon, 02 Jan 2006 15:04:05 MST" "1" "one".

Definition sample_item_2 : rssfeed.RSSItem :=
  rssfeed.mkRSSItem "Second" "https://b.example/2" "yesterday" "2" "two".

Definition sample_raw : rssfeed.RSSFeed :=
  rssfeed.mkRSSFeed
    (rssfeed.mkChannel "Q&amp;A" "https://b.example/?a=1&amp;b=2" "News &amp; notes"
                       "" "" "" (rssfeed.mkAtomLink "" "" "")
                       [sample_item_1; sample_item_2]).

(** Stand-ins for [xml.Unmarshal], which knows the one document, and for
    [http.NewRequestWithContext], which takes every URL. *)
Definition sample_Unmarshal (data : string) : error + rssfeed.RSSFeed :=
  if String.eqb data sample_body then inr sample_raw
  else inl (LibError "XML syntax error").

Definition sample_NewRequest (url : string) : option error := None.

Definition response_ok : Response :=
  mkResponse "application/rss+xml; charset=utf-8" 200 "200 OK" (inr sample_body).

Definition response_500 : Response :=
  mkResponse "text/xml" 500 "500 Internal Server Error" (inr "<error/>").

(** A cycle at time 100 in which the feed of [feed_b] answers with the
    document, and one in which every server answers 500. *)
Definition env_ok : CycleEnv :=
  mkCycleEnv 100 None None
             (fun url => if String.eqb url (feed_url feed_b) then inr response_ok
                         else inl (LibError "no such host")).

Definition env_500 : CycleEnv :=
  mkCycleEnv 100 None None (fun _ => inr response_500).

(** Round [k] at time [100 + 60 k], every server answering 500. *)
Definition envs_500 (k : nat) : CycleEnv :=
  mkCycleEnv (100 + 60 * Z.of_nat k) None None (fun _ => inr response_500).

Definition sample_db : Database := mkDatabase [feed_a; feed_b; feed_c] [].

Definition sample_state : State :=
  mkState (Some (config.mkConfig (Some "postgres://localhost:5432/gator") (Some "lane")))
          (Some database_New).

Definition agg (interval : string) : Command := mkCommand "agg" [interval].

(** Stand-ins for [filepath.Join], [json.MarshalIndent] and the decoder:
    the encoder writes the two keys with no escapes, the decoder knows the
    one file [sample_config_json]. *)
Definition sample_Join (dir name : string) : string := dir ++ "/" ++ name.

Definition dq : string := String (ascii_of_nat 34) EmptyString.

Definition json_string (v : option string) : string :=
  match v with
  | None => "null"
  | Some s => dq ++ s ++ dq
  end.

Definition sample_MarshalIndent (cfg : config.Config) : error + string :=
  inr ("{" ++ nl ++ "  " ++ dq ++ "db_url" ++ dq ++ ": "
           ++ json_string (config.Config_URL cfg) ++ "," ++ nl
           ++ "  " ++ dq ++ "current_user_name" ++ dq ++ ": "
           ++ json_string (config.Config_Name cfg) ++ nl ++ "}")%string.

Definition sample_config : config.Config :=
  config.mkConfig (Some "postgres://localhost:5432/gator") (Some "kahya").

Definition sample_config_json : string :=
  match sample_MarshalIndent sample_config with
  | inr data => data
  | inl _ => ""
  end.

Definition sample_Decode (data : string) : config.Config * option error :=
  if String.eqb data sample_config_json then (sample_config, None)
  else (config.Config_zero, Some (LibError "invalid character")).

(** A machine with the one configuration file in the home directory. *)
Definition sample_os : config.OS :=
  config.mkOS (inr "/home/lane")
              (fun p => if String.eqb p "/home/lane/.gatorconfig.json"
                        then config.FileBytes sample_config_json
                        else config.NoSuchFile)
              None.

(** Stand-ins for the parsers of the date formats: each knows one date
    of its format, the reference time of Go's [time] package. *)
Definition sample_rfc1123z (s : string) : option Z :=
  if String.eqb s "Mon, 02 Jan 2006 15:04:05 -0700" then Some 1136239445000000
  else None.

Definition sample_rfc1123 (s : string) : option Z :=
  if String.eqb s "Mon, 02 Jan 2006 15:04:05 MST" then Some 1136239445000000
  else None.

Definition sample_iso8601 (s : string) : option Z :=
  if String.eqb s "2006-01-02T15:04:05-07:00" then Some 1136239445000000
  else None.

Definition sample_date_formats : list (string -> option Z) :=
  [sample_rfc1123z; sample_rfc1123; sample_iso8601].

(** The document as [FetchFeed] returns it with [unescape_amp]. *)
Definition sample_parsed : rssfeed.RSSFeed :=
  rssfeed.unescape_feed unescape_amp sample_raw.

End Sample.

(** ** What a trace holds *)

Module Trace.

(** The feeds marked as fetched, the URLs requested and the number of
    selections, in the order of the trace. *)
Definition marks (t : list Event) : list UUID :=
  flat_map (fun ev => match ev with DbMarkFeedFetched id => [id] | _ => [] end) t.

Definition requests (t : list Event) : list string :=
  flat_map (fun ev => match ev with HttpDo url => [url] | _ => [] end) t.

Definition selections (t : list Event) : nat :=
  List.length (filter (fun ev => match ev with DbGetNextFeedToFetch => true | _ => false end) t).

End Trace.

(** A feed last fetched before [t0], or never. *)
Definition stale (t0 : Z) (f : Feed) : Prop :=
  match feed_last_fetched_at f with
  | None => True
  | Some u => u < t0
  end.

(** ** The text of an error *)

Module GoFmt.

(** [fmt.Sprintf] for formats whose verbs print a string ([%s], [%w],
    [%v]): each verb takes the next argument, [%%] is a percent sign, and a
    verb with no argument left prints as Go marks it. *)
Fixpoint Sprintf (format : string) (args : list string) : string :=
  match format with
  | EmptyString => EmptyString
  | String "%" (String v rest) =>
      if Ascii.eqb v "%" then String "%" (Sprintf rest args)
      else
        match args with
        | a :: args' => (a ++ Sprintf rest args')%string
        | [] => ("%!" ++ String v "(MISSING)" ++ Sprintf rest [])%string
        end
  | String c rest => String c (Sprintf rest args)
  end.

(** [err.Error()] *)
Fixpoint Error (err : error) : string :=
  match err with
  | sql_ErrNoRows => "sql: no rows in result set"
  | LibError text => text
  | Errorf0 format => Sprintf format []
  | ErrorfS format s => Sprintf format [s]
  | ErrorfW format cause => Sprintf format [Error cause]
  | ErrorfSW format s cause => Sprintf format [s; Error cause]
  end.

End GoFmt.

(** ** The tables of the users and of the follows *)

(** A row of [users], with the fields of the [User] that the queries scan. *)
Record User : Type := mkUser {
  user_id : UUID;
  user_created_at : Z;
  user_updated_at : Z;
  user_name : string
}.

(** A row of [feed_follows] ([sql/schema/003_feed_follows.sql]). *)
Record FeedFollow : Type := mkFeedFollow {
  follow_id : UUID;
  follow_created_at : Z;
  follow_updated_at : Z;
  follow_user_id : UUID;
  follow_feed_id : UUID
}.

(** The whole database: the feeds and the posts, the users, the follows. *)
Record Tables : Type := mkTables {
  tables_db : Database;
  users : list User;
  feed_follows : list FeedFollow
}.

Module Follows.

(** The errors of the driver for a broken constraint; the database writes
    the names between double quotes. *)
Definition named (name : string) : string :=
  (GoTime.byte 34 ++ name ++ GoTime.byte 34)%string.

Definition pq_unique (constraint : string) : error :=
  LibError ("pq: duplicate key value violates unique constraint "
            ++ named constraint).

Definition pq_foreign_key (table constraint : string) : error :=
  LibError ("pq: insert or update on table " ++ named table
            ++ " violates foreign key constraint " ++ named constraint).

(** The row a follow is joined into: its columns, the user's name and the
    feed's name. *)
Record FollowRow : Type := mkFollowRow {
  row_follow : FeedFollow;
  row_userName : string;
  row_feedName : string
}.

(** [ff INNER JOIN users u ON u.id = ff.user_id
        INNER JOIN feeds f ON f.id = ff.feed_id] for one follow. *)
Definition joined (t : Tables) (ff : FeedFollow) : list FollowRow :=
  flat_map (fun u =>
    flat_map (fun f =>
      if N.eqb (user_id u) (follow_user_id ff) && N.eqb (feed_id f) (follow_feed_id ff)
      then [mkFollowRow ff (user_name u) (feed_name f)]
      else [])
      (feeds (tables_db t)))
    (users t).

Definition same_pair (a b : FeedFollow) : bool :=
  N.eqb (follow_user_id a) (follow_user_id b)
  && N.eqb (follow_feed_id a) (follow_feed_id b).

(** [-- name: CreateFeedFollows :one]: the insert into [feed_follows], then
    the inserted row joined with its user and its feed. The table has [id]
    as primary key, [UNIQUE (user_id, feed_id)], and the two foreign keys; a
    broken constraint leaves the tables as they were. *)
Definition CreateFeedFollows (ff : FeedFollow) (t : Tables) : (error + FollowRow) * Tables :=
  if existsb (fun r => N.eqb (follow_id r) (follow_id ff)) (feed_follows t) then
    (inl (pq_unique "feed_follows_pkey"), t)
  else if existsb (same_pair ff) (feed_follows t) then
    (inl (pq_unique "feed_follows_user_id_feed_id_key"), t)
  else if negb (existsb (fun u => N.eqb (user_id u) (follow_user_id ff)) (users t)) then
    (inl (pq_foreign_key "feed_follows" "feed_follows_user_id_fkey"), t)
  else if negb (existsb (fun f => N.eqb (feed_id f) (follow_feed_id ff))
                        (feeds (tables_db t))) then
    (inl (pq_foreign_key "feed_follows" "feed_follows_feed_id_fkey"), t)
  else
    (match joined t ff with
     | [] => inl sql_ErrNoRows
     | row :: _ => inr row
     end,
     {| tables_db := tables_db t; users := users t;
        feed_follows := feed_follows t ++ [ff] |}).

Definition newest_first (a b : FollowRow) : bool :=
  follow_created_at (row_follow b) <=? follow_created_at (row_follow a).

(** [-- name: GetFeedFollowsForUser :many]: the follows of the user, joined,
    [ORDER BY ff.created_at DESC]. *)
Definition GetFeedFollowsForUser (userID : UUID) (t : Tables) : list FollowRow :=
  Sql.order_by newest_first
    (flat_map (joined t)
       (filter (fun ff => N.eqb (follow_user_id ff) userID) (feed_follows t))).

(** The [WHERE] of the delete: the follow is the user's and its feed has
    the URL. *)
Definition follows_url (url : string) (userID : UUID) (t : Tables) (ff : FeedFollow) : bool :=
  N.eqb (follow_user_id ff) userID
  && existsb (fun f => String.eqb (feed_url f) url && N.eqb (follow_feed_id ff) (feed_id f))
             (feeds (tables_db t)).

(** [-- name: DeleteFeedFollowByUserAndFeed :one]
    [DELETE FROM feed_follows ff USING feeds f
     WHERE f.url = $1 AND ff.user_id = $2 AND ff.feed_id = f.id RETURNING ff.*;] *)
Definition DeleteFeedFollowByUserAndFeed (url : string) (userID : UUID) (t : Tables)
  : (error + FeedFollow) * Tables :=
  match filter (follows_url url userID t) (feed_follows t) with
  | [] => (inl sql_ErrNoRows, t)
  | ff :: _ =>
      (inr ff,
       {| tables_db := tables_db t; users := users t;
          feed_follows :=
            filter (fun ff => negb (follows_url url userID t ff)) (feed_follows t) |})
  end.

(** The six columns that [GetFeedByURL] selects. *)
Record FeedByURL : Type := mkFeedByURL {
  found_id : UUID;
  found_created_at : Z;
  found_updated_at : Z;
  found_name : string;
  found_url : string;
  found_user_id : UUID
}.

(** [-- name: GetFeedByURL :one]
    [SELECT id, created_at, updated_at, name, url, user_id FROM feeds
     WHERE url = $1 LIMIT 1;] *)
Definition GetFeedByURL (url : string) (t : Tables) : error + FeedByURL :=
  match Sql.limit 1 (filter (fun f => String.eqb (feed_url f) url) (feeds (tables_db t))) with
  | [] => inl sql_ErrNoRows
  | f :: _ =>
      inr (mkFeedByURL (feed_id f) (feed_created_at f) (feed_updated_at f)
                       (feed_name f) (feed_url f) (feed_user_id f))
  end.

Definition newest_post_first (a b : Post) : bool :=
  match post_published_at a, post_published_at b with
  | Some x, Some y => if Z.eqb x y then post_created_at b <=? post_created_at a
                      else y <? x
  | Some _, None => true
  | None, Some _ => false
  | None, None => post_created_at b <=? post_created_at a
  end.

(** [-- name: GetPostsForUser :many]: the posts of the feeds the user
    follows, [ORDER BY p.published_at DESC NULLS LAST, p.created_at DESC
    LIMIT $2]; a negative limit is an error of the database. *)
Definition GetPostsForUser (userID : UUID) (limit : Z) (t : Tables) : error + list Post :=
  if limit <? 0 then inl (LibError "pq: LIMIT must not be negative")
  else
    inr (Sql.limit (Z.to_nat limit)
           (Sql.order_by newest_post_first
              (flat_map (fun p =>
                 flat_map (fun ff =>
                   if N.eqb (post_feed_id p) (follow_feed_id ff)
                      && N.eqb (follow_user_id ff) userID
                   then [p] else [])
                   (feed_follows t))
                 (posts (tables_db t))))).

End Follows.

(** ** Commands: what a handler does and how it ends *)

(** A handler returns, or it stops the process: [os.Exit], or the panic of
    a nil pointer that is dereferenced. *)
Variant Stop : Type :=
| Exit (code : Z)
| NilPointerDereference.

(** A step of a handler reads and updates the tables and prints; it gives a
    value, or stops the process. *)
Definition Cmd (A : Type) : Type := Tables -> (Stop + A) * Tables * list Event.

Module CmdMonad.

Definition ret {A : Type} (a : A) : Cmd A := fun t => (inr a, t, []).

Definition bind {A B : Type} (m : Cmd A) (k : A -> Cmd B) : Cmd B :=
  fun t =>
    match m t with
    | (inl stop, t1, ev1) => (inl stop, t1, ev1)
    | (inr a, t1, ev1) =>
        let '(b, t2, ev2) := k a t1 in (b, t2, ev1 ++ ev2)
    end.

Definition Printf (format : string) (args : list Arg) : Cmd unit :=
  fun t => (inr tt, t, [Stdout format args]).

Definition Println (line : string) : Cmd unit :=
  fun t => (inr tt, t, [Stdout (line ++ nl) []]).

(** [os.Exit(code)] *)
Definition os_Exit {A : Type} (code : Z) : Cmd A := fun t => (inl (Exit code), t, []).

(** The use of a pointer: nil panics. *)
Definition deref {A : Type} (p : option A) : Cmd A :=
  fun t =>
    match p with
    | Some a => (inr a, t, [])
    | None => (inl NilPointerDereference, t, [])
    end.

Fixpoint for_range {A : Type} (xs : list A) (body : A -> Cmd unit) : Cmd unit :=
  match xs with
  | [] => ret tt
  | x :: rest => bind (body x) (fun _ => for_range rest body)
  end.

End CmdMonad.

Declare Scope cmd_scope.
Delimit Scope cmd_scope with cmd.
Notation "x <- m ;; k" := (CmdMonad.bind m (fun x => k))
  (at level 61, m at next level, right associativity) : cmd_scope.
Notation "m ;; k" := (CmdMonad.bind m (fun _ => k))
  (at level 61, right associativity) : cmd_scope.

(** The three parts of what a step leaves. *)
Definition result_part {A : Type} (r : (Stop + A) * Tables * list Event) : Stop + A :=
  fst (fst r).
Definition tables_part {A : Type} (r : (Stop + A) * Tables * list Event) : Tables :=
  snd (fst r).
Definition output_part {A : Type} (r : (Stop + A) * Tables * list Event) : list Event :=
  snd r.

(** What the outside world gives to one call of a handler: the value of
    [uuid.New()], the time of [time.Now()], and the error, if any, with
    which the database fails the query of a given name. *)
Record CallEnv : Type := mkCallEnv {
  call_uuid : UUID;
  call_now : Z;
  call_fails : string -> option error
}.

(** The queries as methods of [Queries]. *)
Module QueriesCli.
Import CmdMonad.

Definition GetFeedByURL (env : CallEnv) (q : Queries) (url : string)
  : Cmd (error + Follows.FeedByURL) :=
  fun t =>
    (inr match call_fails env "GetFeedByURL" with
         | Some err => inl err
         | None => Follows.GetFeedByURL url t
         end, t, []).

Definition CreateFeedFollows (env : CallEnv) (q : Queries) (ff : FeedFollow)
  : Cmd (error + Follows.FollowRow) :=
  fun t =>
    match call_fails env "CreateFeedFollows" with
    | Some err => (inr (inl err), t, [])
    | None => let '(r, t') := Follows.CreateFeedFollows ff t in (inr r, t', [])
    end.

Definition GetFeedFollowsForUser (env : CallEnv) (q : Queries) (userID : UUID)
  : Cmd (error + list Follows.FollowRow) :=
  fun t =>
    (inr match call_fails env "GetFeedFollowsForUser" with
         | Some err => inl err
         | None => inr (Follows.GetFeedFollowsForUser userID t)
         end, t, []).

Definition DeleteFeedFollowByUserAndFeed (env : CallEnv) (q : Queries)
           (url : string) (userID : UUID) : Cmd (error + FeedFollow) :=
  fun t =>
    match call_fails env "DeleteFeedFollowByUserAndFeed" with
    | Some err => (inr (inl err), t, [])
    | None =>
        let '(r, t') := Follows.DeleteFeedFollowByUserAndFeed url userID t in
        (inr r, t', [])
    end.

End QueriesCli.

(** ** [internal/app] *)

Module app.
Import CmdMonad.

(** [func(s *State, cmd Command) error] *)
Definition HandlerFunc : Type := option State -> Command -> Cmd (option error).

(** [Commands]: the map [Handler], which may be nil. *)
Record Commands : Type := mkCommands {
  Handler : option (string -> option HandlerFunc)
}.

(** [c.Handler[name] = f] *)
Definition map_set (m : string -> option HandlerFunc) (name : string) (f : HandlerFunc)
  : string -> option HandlerFunc :=
  fun key => if String.eqb key name then Some f else m key.

(** [func (c *Commands) Register(name, f) error]: the error and the
    commands after the call. *)
Definition Register (c : option Commands) (name : string) (f : HandlerFunc)
  : option error * option Commands :=
  match c with
  | None => (Some (Errorf0 "commands is nil"), c)
  | Some cs =>
      match Handler cs with
      | None => (Some (Errorf0 "Handler map is nil"), c)
      | Some m => (None, Some {| Handler := Some (map_set m name f) |})
      end
  end.

(** [func (c *Commands) Run(s *State, cmd Command) error] *)
Definition Run (c : option Commands) (s : option State) (cmd : Command)
  : Cmd (option error) :=
  match c with
  | None => ret (Some (Errorf0 "error: commands is nil"))
  | Some cs =>
      match s with
      | None => ret (Some (Errorf0 "error: State is nil"))
      | Some _ =>
          match Handler cs with
          | None => ret (Some (Errorf0 "error: Handler map is nil"))
          | Some m =>
              let commandName := Command_Name cmd in
              match m commandName with
              | None =>
                  ret (Some (ErrorfS "error: command is not registered: %s" commandName))
              | Some handler => handler s cmd
              end
          end
      end
  end.

End app.

(** ** [internal/handlers]: the middleware and the handlers of the follows *)

Module handlers_cli.
Import CmdMonad.
Local Open Scope cmd_scope.

(** [func(s *app.State, cmd app.Command, user database.User) error] *)
Definition UserHandlerFunc : Type :=
  option State -> Command -> User -> Cmd (option error).

Section Middleware.

(** [s.DB.GetUser(ctx, name)]: the query is in [users.sql], which is not
    among the sources at hand. *)
Variable Queries_GetUser : CallEnv -> Queries -> string -> Cmd (error + User).

Definition MiddlewareLoggedIn (env : CallEnv) (handler : UserHandlerFunc)
  : app.HandlerFunc :=
  fun s cmd =>
    match s with
    | None => ret (Some (Errorf0 "error: State is nil"))
    | Some st =>
        match State_Config st with
        | None => ret (Some (Errorf0 "error: Config is nil"))
        | Some cfg =>
            match config.Config_Name cfg with
            | None => ret (Some (Errorf0 "error: user is not logged in"))
            | Some name =>
                if String.eqb name "" then ret (Some (Errorf0 "error: username is empty"))
                else
                  q <- deref (State_DB st) ;;
                  r <- Queries_GetUser env q name ;;
                  match r with
                  | inl err => ret (Some (ErrorfW "error getting user from db: %w" err))
                  | inr user => handler s cmd user
                  end
            end
        end
    end.

End Middleware.

Definition HandlerFollow (env : CallEnv) : UserHandlerFunc :=
  fun s cmd user =>
    match s with
    | None => ret (Some (Errorf0 "error: State is nil"))
    | Some st =>
        match Command_Args cmd with
        | [] => ret (Some (Errorf0 "error: no command input"))
        | urlArg :: _ =>
            let id := call_uuid env in
            let currentTime := call_now env in
            cfg <- deref (State_Config st) ;;
            match config.Config_Name cfg with
            | None => ret (Some (Errorf0 "error: current user is nil/not logged in"))
            | Some _ =>
                q <- deref (State_DB st) ;;
                r <- QueriesCli.GetFeedByURL env q urlArg ;;
                match r with
                | inl err => ret (Some (ErrorfW "error getting feed from db: %w" err))
                | inr feed =>
                    r <- QueriesCli.CreateFeedFollows env q
                           {| follow_id := id;
                              follow_created_at := currentTime;
                              follow_updated_at := currentTime;
                              follow_user_id := user_id user;
                              follow_feed_id := Follows.found_id feed |} ;;
                    match r with
                    | inl err =>
                        if GoStrings.Contains (GoFmt.Error err) "unique constraint" then
                          ret (Some (Errorf0 "error: you are already following this feed"))
                        else ret (Some (ErrorfW "error creating feed follow: %w" err))
                    | inr feedFollow =>
                        Printf ("%s is now following: %s" ++ nl)
                               [AStr (Follows.row_userName feedFollow);
                                AStr (Follows.row_feedName feedFollow)] ;;
                        ret None
                    end
                end
            end
        end
    end.

Definition HandlerFollowing (env : CallEnv) : UserHandlerFunc :=
  fun s cmd user =>
    match s with
    | None => ret (Some (Errorf0 "error: State is nil"))
    | Some st =>
        cfg <- deref (State_Config st) ;;
        match config.Config_Name cfg with
        | None => ret (Some (Errorf0 "error: current user is nil/not logged in"))
        | Some _ =>
            let currentUser := user_name user in
            q <- deref (State_DB st) ;;
            r <- QueriesCli.GetFeedFollowsForUser env q (user_id user) ;;
            match r with
            | inl err =>
                Printf ("error returning feed follows from database: %s" ++ nl) [AErr err] ;;
                os_Exit 1
            | inr [] =>
                Printf ("No feed follows in database!" ++ nl) [] ;;
                os_Exit 0
            | inr feedFollows =>
                Printf ("Feeds followed by %s:" ++ nl) [AStr currentUser] ;;
                Println "" ;;
                for_range feedFollows
                  (fun feedFollow =>
                     Printf ("Feed name: %s" ++ nl) [AStr (Follows.row_feedName feedFollow)] ;;
                     Println "") ;;
                os_Exit 0
            end
        end
    end.

Definition HandlerUnfollow (env : CallEnv) : UserHandlerFunc :=
  fun s cmd user =>
    match s with
    | None => Printf "error: State is nil" [] ;; os_Exit 1
    | Some st =>
        cfg <- deref (State_Config st) ;;
        match config.Config_Name cfg with
        | None => ret (Some (Errorf0 "error: current user is nil/not logged in"))
        | Some _ =>
            match Command_Args cmd with
            | [] => ret (Some (Errorf0 "error: feed url required"))
            | feedURL :: _ =>
                let currentUserID := user_id user in
                let currentUser := user_name user in
                q <- deref (State_DB st) ;;
                r <- QueriesCli.DeleteFeedFollowByUserAndFeed env q feedURL currentUserID ;;
                match r with
                | inl err =>
                    if errors_Is_ErrNoRows err then
                      Printf ("%s is not following this feed!" ++ nl) [AStr currentUser] ;;
                      os_Exit 0
                    else
                      Printf ("error unfollowing feed: %s" ++ nl) [AErr err] ;;
                      os_Exit 1
                | inr _ =>
                    Printf ("Feed successfully unfollowed!" ++ nl) [] ;;
                    os_Exit 0
                end
            end
        end
    end.

(** The follow that [HandlerFollow] inserts for a user and a feed, and the
    tables with other follows. *)
Definition new_follow (env : CallEnv) (user : User) (feed : Follows.FeedByURL) : FeedFollow :=
  {| follow_id := call_uuid env;
     follow_created_at := call_now env;
     follow_updated_at := call_now env;
     follow_user_id := user_id user;
     follow_feed_id := Follows.found_id feed |}.

Definition with_follows (t : Tables) (rows : list FeedFollow) : Tables :=
  {| tables_db := tables_db t; users := users t; feed_follows := rows |}.

End handlers_cli.

(** ** The constraints of the schema *)

Module Schema.

(** [sql/schema/005_posts.sql]: [id] is the primary key, [url] is [UNIQUE],
    [feed_id] references [feeds(id)]. *)
Definition posts_ok (db : Database) : Prop :=
  NoDup (map post_id (posts db)) /\
  NoDup (map post_url (posts db)) /\
  forall p, In p (posts db) -> exists f, In f (feeds db) /\ feed_id f = post_feed_id p.

(** The columns of [UNIQUE (user_id, feed_id)]. *)
Definition follow_pair (ff : FeedFollow) : UUID * UUID :=
  (follow_user_id ff, follow_feed_id ff).

(** [sql/schema/003_feed_follows.sql]: [id] is the primary key, the pair
    [(user_id, feed_id)] is unique, [user_id] references [users(id)] and
    [feed_id] references [feeds(id)]. *)
Definition follows_ok (t : Tables) : Prop :=
  NoDup (map follow_id (feed_follows t)) /\
  NoDup (map follow_pair (feed_follows t)) /\
  (forall ff, In ff (feed_follows t) ->
              exists u, In u (users t) /\ user_id u = follow_user_id ff) /\
  (forall ff, In ff (feed_follows t) ->
              exists f, In f (feeds (tables_db t)) /\ feed_id f = follow_feed_id ff).

(** [ORDER BY p.published_at DESC NULLS LAST, p.created_at DESC]: [a] may
    come before [b]. *)
Definition published_before (a b : Post) : Prop :=
  match post_published_at a, post_published_at b with
  | Some x, Some y => y < x \/ (x = y /\ post_created_at b <= post_created_at a)
  | Some _, None => True
  | None, Some _ => False
  | None, None => post_created_at b <= post_created_at a
  end.

End Schema.

(** ** Examples for the commands *)

Module SampleCli.
Import Sample.

(** The configuration after a login of [lane], with and without a database
    URL in the file, and after a later login of [boots]. *)
Definition lane_config : config.Config :=
  config.mkConfig (Some "postgres://localhost:5432/gator") (Some "lane").

Definition boots_config : config.Config :=
  config.mkConfig (Some "postgres://localhost:5432/gator") (Some "boots").

Definition first_config : config.Config := config.mkConfig None (Some "lane").

(** A stand-in for the decoder that reads back what [sample_MarshalIndent]
    writes for the configurations of a list, and nothing else. *)
Fixpoint decode_known (known : list config.Config) (data : string)
  : config.Config * option error :=
  match known with
  | [] => (config.Config_zero, Some (LibError "invalid character"))
  | cfg :: rest =>
      match sample_MarshalIndent cfg with
      | inr text => if String.eqb data text then (cfg, None) else decode_known rest data
      | inl _ => decode_known rest data
      end
  end.

Definition table_Decode : string -> config.Config * option error :=
  decode_known [sample_config; lane_config; boots_config; first_config].

Definition encoded (cfg : config.Config) : string :=
  match sample_MarshalIndent cfg with
  | inr data => data
  | inl _ => EmptyString
  end.

(** A machine with a home directory and no file. *)
Definition fresh_os : config.OS :=
  config.mkOS (inr "/home/lane") (fun _ => config.NoSuchFile) None.

(** The machine of [sample_os] after the login of [lane], and after the
    login of [boots] that follows. *)
Definition os_after_lane : config.OS :=
  snd (config.SetUser sample_Join table_Decode sample_MarshalIndent "lane" sample_os).

Definition os_after_boots : config.OS :=
  snd (config.SetUser sample_Join table_Decode sample_MarshalIndent "boots" os_after_lane).

(** Two users; [kahya] follows the feed [b]. *)
Definition lane : User := mkUser 7%N 1 1 "lane".
Definition kahya : User := mkUser 8%N 2 2 "kahya".

Definition kahya_follows_b : FeedFollow := mkFeedFollow 100%N 5 5 8%N 2%N.

Definition sample_tables : Tables :=
  mkTables sample_db [lane; kahya] [kahya_follows_b].

Definition no_faults : string -> option error := fun _ => None.

Definition call_1 : CallEnv := mkCallEnv 101%N 200 no_faults.
Definition call_2 : CallEnv := mkCallEnv 102%N 300 no_faults.

Definition follow_b : Command := mkCommand "follow" ["https://b.example/rss"].
Definition following : Command := mkCommand "following" [].

(** The feed [b] as [GetFeedByURL] returns it, and the tables after [lane]
    has followed it. *)
Definition found_b : Follows.FeedByURL :=
  Follows.mkFeedByURL 2%N 20 20 "b" "https://b.example/rss" 7%N.

Definition tables_followed : Tables :=
  handlers_cli.with_follows sample_tables
    [kahya_follows_b; handlers_cli.new_follow call_1 lane found_b].

(** Commands with an empty map, and a handler that does nothing. *)
Definition no_commands : app.Commands := app.mkCommands (Some (fun _ => None)).

Definition idle : app.HandlerFunc := fun _ _ => CmdMonad.ret None.

(** Two posts of the feed [b] in a database, and a third to insert. *)
Definition post_1 : Post :=
  mkPost 11%N 100 100 "First" "https://b.example/1" (Some "one") (Some 90) 2%N.
Definition post_2 : Post :=
  mkPost 12%N 100 100 "Second" "https://b.example/2" None None 2%N.
Definition post_3 : Post :=
  mkPost 13%N 160 160 "Third" "https://b.example/3" (Some "three") (Some 150) 2%N.

Definition posts_db : Database := mkDatabase [feed_a; feed_b; feed_c] [post_1; post_2].

Definition posts_tables : Tables :=
  mkTables posts_db [lane; kahya] [kahya_follows_b].

End SampleCli.

(* ================================================================== *)
(** * Part II: properties *)
(* ================================================================== *)

Module SqlFacts.

Section OrderBy.
Context {Row : Type}.
Variable leb : Row -> Row -> bool.
Hypothesis leb_total : forall a b, leb a b = true \/ leb b a = true.
Hypothesis leb_trans : forall a b c, leb a b = true -> leb b c = true -> leb a c = true.

Lemma insert_row_perm (r : Row) (l : list Row) :
  Permutation (r :: l) (Sql.insert_row leb r l).
Proof.
  induction l as [|x l IH]; simpl; auto.
  destruct (leb r x); auto.
  rewrite perm_swap. now apply perm_skip.
Qed.

Lemma order_by_perm (rows : list Row) :
  Permutation rows (Sql.order_by leb rows).
Proof.
  induction rows as [|r rows IH]; simpl; auto.
  rewrite <- insert_row_perm. now apply perm_skip.
Qed.

(** The head of an insertion is below the inserted row and below the old
    head. *)
Lemma insert_row_head (r : Row) (l : list Row) :
  (forall x, In x l -> forall h, hd_error l = Some h -> leb h x = true) ->
  forall h, hd_error (Sql.insert_row leb r l) = Some h ->
  forall x, In x (r :: l) -> leb h x = true.
Proof.
  intros Hl h Hh x Hx.
  destruct l as [|y l]; simpl in *.
  - injection Hh as <-. destruct Hx as [<-|[]].
    destruct (leb_total r r); assumption.
  - destruct (leb r y) eqn:Hry; simpl in Hh; injection Hh as <-.
    + destruct Hx as [<-|Hx].
      * destruct (leb_total r r); assumption.
      * apply leb_trans with y; [assumption|]. now apply Hl.
    + assert (leb y r = true) by (destruct (leb_total r y); congruence).
      destruct Hx as [<-|Hx]; [assumption|]. now apply Hl.
Qed.

Lemma order_by_head (rows : list Row) :
  forall h, hd_error (Sql.order_by leb rows) = Some h ->
  forall x, In x rows -> leb h x = true.
Proof.
  induction rows as [|r rows IH]; intros h Hh x Hx; [destruct Hx|].
  simpl in Hh.
  apply (insert_row_head r (Sql.order_by leb rows)); [|assumption|].
  - intros y Hy h' Hh'. apply IH; [assumption|].
    eapply Permutation_in; [symmetry; apply order_by_perm|assumption].
  - destruct Hx as [<-|Hx]; [now left|right].
    eapply Permutation_in; [apply order_by_perm|assumption].
Qed.

Lemma insert_row_sorted (r : Row) (l : list Row) :
  Sorted (fun a b => leb a b = true) l ->
  Sorted (fun a b => leb a b = true) (Sql.insert_row leb r l).
Proof.
  induction 1 as [|x l Hl IH Hx]; simpl; [repeat constructor|].
  destruct (leb r x) eqn:Hrx; [repeat constructor; assumption|].
  constructor; [assumption|].
  assert (Hxr : leb x r = true) by (destruct (leb_total r x); congruence).
  destruct l as [|y l]; simpl; [now constructor|].
  destruct (leb r y); constructor; [assumption|now inversion Hx].
Qed.

(** [ORDER BY] returns the rows in ascending order. *)
Lemma order_by_sorted (rows : list Row) :
  Sorted (fun a b => leb a b = true) (Sql.order_by leb rows).
Proof.
  induction rows as [|r rows IH]; simpl; [constructor|].
  now apply insert_row_sorted.
Qed.

Lemma order_by_nonempty (rows : list Row) :
  rows <> [] -> exists h, hd_error (Sql.order_by leb rows) = Some h.
Proof.
  intros Hne. pose proof (order_by_perm rows) as HP.
  destruct (Sql.order_by leb rows) as [|h t]; [|now exists h].
  apply Permutation_sym, Permutation_nil in HP. contradiction.
Qed.

End OrderBy.

Lemma limit_1_hd {Row : Type} (rows : list Row) :
  hd_error (Sql.limit 1 rows) = hd_error rows.
Proof. destruct rows; reflexivity. Qed.

Lemma asc_nulls_first_total (a b : option Z) :
  Sql.asc_nulls_first a b = true \/ Sql.asc_nulls_first b a = true.
Proof.
  destruct a, b; simpl; auto.
  destruct (Z.leb_spec z z0); [left|right]; auto. apply Z.leb_le. lia.
Qed.

Lemma asc_nulls_first_trans (a b c : option Z) :
  Sql.asc_nulls_first a b = true -> Sql.asc_nulls_first b c = true ->
  Sql.asc_nulls_first a c = true.
Proof.
  destruct a, b, c; simpl; try congruence.
  rewrite !Z.leb_le. lia.
Qed.

End SqlFacts.

Module StoreFacts.
Import Store Sample.

Lemma Feed_eq_dec (f g : Feed) : {f = g} + {f <> g}.
Proof.
  repeat decide equality; try apply N.eq_dec; try apply Z.eq_dec.
Defined.

Lemma GetNextFeedToFetch_hd (rows : list Feed) :
  GetNextFeedToFetch rows =
  match hd_error (Sql.order_by by_last_fetched_at rows) with
  | None => inl sql_ErrNoRows
  | Some f => inr f
  end.
Proof.
  unfold GetNextFeedToFetch.
  rewrite <- (SqlFacts.limit_1_hd (Sql.order_by by_last_fetched_at rows)).
  destruct (Sql.limit 1 _); reflexivity.
Qed.

Lemma by_last_fetched_at_total (f g : Feed) :
  by_last_fetched_at f g = true \/ by_last_fetched_at g f = true.
Proof. apply SqlFacts.asc_nulls_first_total. Qed.

Lemma by_last_fetched_at_trans (f g h : Feed) :
  by_last_fetched_at f g = true -> by_last_fetched_at g h = true ->
  by_last_fetched_at f h = true.
Proof. apply SqlFacts.asc_nulls_first_trans. Qed.

(** On a table with a row the query returns a row, and it is an earliest one. *)
Lemma GetNextFeedToFetch_some (rows : list Feed) :
  rows <> [] -> exists f, GetNextFeedToFetch rows = inr f /\ earliest rows f.
Proof.
  intros Hne. rewrite GetNextFeedToFetch_hd.
  destruct (SqlFacts.order_by_nonempty by_last_fetched_at rows Hne) as [f Hf].
  rewrite Hf. exists f. split; [reflexivity|]. split.
  - apply (Permutation_in f
             (Permutation_sym (SqlFacts.order_by_perm by_last_fetched_at rows))).
    destruct (Sql.order_by by_last_fetched_at rows); [discriminate|].
    simpl in Hf. injection Hf as ->. apply in_eq.
  - intros g Hg.
    exact (SqlFacts.order_by_head by_last_fetched_at by_last_fetched_at_total
             by_last_fetched_at_trans rows f Hf g Hg).
Qed.

Lemma GetNextFeedToFetch_empty : GetNextFeedToFetch [] = inl sql_ErrNoRows.
Proof. reflexivity. Qed.

(** The executor of [Sql.order_by] returns, among the earliest rows, the one
    that comes first in the list: every row before it is strictly later. *)
Lemma GetNextFeedToFetch_first (rows : list Feed) (f : Feed) :
  GetNextFeedToFetch rows = inr f ->
  exists pre post, rows = pre ++ f :: post /\
                   forall g, In g pre -> by_last_fetched_at g f = false.
Proof.
  rewrite GetNextFeedToFetch_hd. revert f.
  induction rows as [|r rows IH]; intros f; simpl; [discriminate|].
  destruct (Sql.order_by by_last_fetched_at rows) as [|x sorted] eqn:Hs; simpl.
  - intros [= <-]. exists [], rows. split; [reflexivity|]. intros g [].
  - destruct (by_last_fetched_at r x) eqn:Hrx; simpl; intros [= <-].
    + exists [], rows. split; [reflexivity|]. intros g [].
    + destruct (IH x eq_refl) as (pre & post & -> & Hpre).
      exists (r :: pre), post. split; [reflexivity|].
      intros g [<-|Hg]; [assumption|now apply Hpre].
Qed.

Lemma earliest_sole (rows : list Feed) (f g : Feed) :
  earliest rows f -> sole_earliest rows g -> f = g.
Proof.
  intros [Hin Hmin] [Hgin Hsole].
  destruct (Feed_eq_dec f g) as [|Hne]; [assumption|].
  specialize (Hmin g Hgin). specialize (Hsole f Hin Hne). congruence.
Qed.

Lemma earliest_perm (rows rows' : list Feed) (f : Feed) :
  Permutation rows rows' -> earliest rows' f -> earliest rows f.
Proof.
  intros HP [Hin Hmin]. split.
  - eapply Permutation_in; [symmetry; eassumption|assumption].
  - intros g Hg. apply Hmin. eapply Permutation_in; eassumption.
Qed.

Example GetNextFeedToFetch_null_first :
  GetNextFeedToFetch [feed_a; feed_b; feed_c] = inr feed_b.
Proof. reflexivity. Qed.

Example GetNextFeedToFetch_oldest :
  GetNextFeedToFetch [feed_a; feed_c] = inr feed_c.
Proof. reflexivity. Qed.

(** C1: on every non-empty feed set [GetNextFeedToFetch] returns a feed of
    the set whose [last_fetched_at] is less than or equal to that of every
    feed of the set, a null [last_fetched_at] counting as earlier than every
    timestamp; so when the set holds a never-fetched feed, the feed returned
    is a never-fetched one. *)
Theorem GetNextFeedToFetch_least_recently_fetched (rows : list Feed) :
  rows <> [] ->
  exists f,
    GetNextFeedToFetch rows = inr f /\
    In f rows /\
    (forall g, In g rows ->
       match feed_last_fetched_at f, feed_last_fetched_at g with
       | None, _ => True
       | Some _, None => False
       | Some t, Some u => t <= u
       end) /\
    ((exists g, In g rows /\ feed_last_fetched_at g = None) ->
     feed_last_fetched_at f = None).
Proof.
  intros Hne.
  destruct (GetNextFeedToFetch_some rows Hne) as (f & Hf & Hin & Hmin).
  exists f. repeat split; try assumption.
  - intros g Hg. specialize (Hmin g Hg).
    unfold by_last_fetched_at, Sql.asc_nulls_first in Hmin.
    destruct (feed_last_fetched_at f), (feed_last_fetched_at g);
      try exact I; try discriminate.
    now apply Z.leb_le.
  - intros (g & Hg & Hnull). specialize (Hmin g Hg).
    unfold by_last_fetched_at, Sql.asc_nulls_first in Hmin.
    rewrite Hnull in Hmin.
    destruct (feed_last_fetched_at f); [discriminate|reflexivity].
Qed.

Lemma GetNextFeedToFetch_least_recently_fetched_witness :
  [feed_a; feed_b; feed_c] <> [] /\
  exists f,
    GetNextFeedToFetch [feed_a; feed_b; feed_c] = inr f /\
    In f [feed_a; feed_b; feed_c] /\
    (forall g, In g [feed_a; feed_b; feed_c] ->
       match feed_last_fetched_at f, feed_last_fetched_at g with
       | None, _ => True
       | Some _, None => False
       | Some t, Some u => t <= u
       end) /\
    ((exists g, In g [feed_a; feed_b; feed_c] /\ feed_last_fetched_at g = None) ->
     feed_last_fetched_at f = None).
Proof.
  split; [discriminate|].
  apply (GetNextFeedToFetch_least_recently_fetched [feed_a; feed_b; feed_c]).
  discriminate.
Defined.

(** The query of the executor of [Sql.order_by] is an answer that the text
    of the query allows. *)
Lemma GetNextFeedToFetch_admitted (rows : list Feed) :
  GetNextFeedToFetch_admits rows (GetNextFeedToFetch rows).
Proof.
  exists (Sql.order_by by_last_fetched_at rows). split; [|reflexivity]. split.
  - apply SqlFacts.order_by_perm.
  - apply SqlFacts.order_by_sorted. apply by_last_fetched_at_total.
Qed.

(** The head of a sorted list is before every row of the list. *)
Lemma ordered_head_least (f : Feed) (sorted : list Feed) :
  Sorted (fun a b => by_last_fetched_at a b = true) (f :: sorted) ->
  forall g, In g (f :: sorted) -> by_last_fetched_at f g = true.
Proof.
  revert f. induction sorted as [|x sorted IH]; intros f Hs g Hg.
  - destruct Hg as [<-|[]]. destruct (by_last_fetched_at_total f f); assumption.
  - inversion Hs as [|? ? Hrest Hhd]; subst. inversion Hhd as [|? ? Hfx]; subst.
    destruct Hg as [<-|Hg].
    + destruct (by_last_fetched_at_total f f); assumption.
    + apply by_last_fetched_at_trans with x; [exact Hfx|]. now apply IH.
Qed.

(** Every answer that the query allows on a table with a row is a row, and
    an earliest one. *)
Lemma GetNextFeedToFetch_admits_earliest (rows : list Feed) (r : error + Feed) :
  rows <> [] -> GetNextFeedToFetch_admits rows r ->
  exists f, r = inr f /\ earliest rows f.
Proof.
  intros Hne (sorted & (HP & Hs) & ->).
  destruct sorted as [|f sorted].
  { apply Permutation_sym, Permutation_nil in HP. contradiction. }
  exists f. split; [reflexivity|]. split.
  - apply (Permutation_in f (Permutation_sym HP)). apply in_eq.
  - intros g Hg. apply (ordered_head_least f sorted Hs).
    now apply (Permutation_in g HP).
Qed.

(** Every earliest row is an answer that the query allows. *)
Lemma earliest_admitted (rows : list Feed) (g : Feed) :
  earliest rows g -> GetNextFeedToFetch_admits rows (inr g).
Proof.
  intros [Hin Hmin].
  destruct (in_split g rows Hin) as (l1 & l2 & ->).
  exists (g :: Sql.order_by by_last_fetched_at (l1 ++ l2)). split; [|reflexivity].
  pose proof (SqlFacts.order_by_perm by_last_fetched_at (l1 ++ l2)) as HP.
  split.
  - apply Permutation_sym. apply Permutation_cons_app. now apply Permutation_sym.
  - constructor; [apply SqlFacts.order_by_sorted; apply by_last_fetched_at_total|].
    assert (Hall : forall h, In h (Sql.order_by by_last_fetched_at (l1 ++ l2)) ->
                             by_last_fetched_at g h = true).
    { intros h Hh. apply Hmin.
      apply (Permutation_in h (Permutation_sym HP)) in Hh.
      apply in_app_or in Hh. apply in_or_app.
      destruct Hh as [Hh|Hh]; [now left|right; now right]. }
    destruct (Sql.order_by by_last_fetched_at (l1 ++ l2)) as [|h sorted];
      constructor.
    apply Hall. apply in_eq.
Qed.

(** C6, as stated, fails: two never-fetched feeds are tied for earliest,
    and on the same table the query, which orders by [last_fetched_at] and
    by nothing else, allows the one as its answer and the other as well;
    the id plays no part. *)
Lemma GetNextFeedToFetch_tie_left_to_database :
  GetNextFeedToFetch_admits [feed_b; feed_d] (inr feed_b) /\
  GetNextFeedToFetch_admits [feed_b; feed_d] (inr feed_d) /\
  feed_last_fetched_at feed_b = feed_last_fetched_at feed_d /\
  feed_id feed_b <> feed_id feed_d.
Proof.
  split; [|split; [|split]].
  - exists [feed_b; feed_d]. split; [|reflexivity]. split; [apply Permutation_refl|].
    repeat constructor.
  - exists [feed_d; feed_b]. split; [|reflexivity]. split; [apply perm_swap|].
    repeat constructor.
  - reflexivity.
  - discriminate.
Qed.

(** C6, amended: on a non-empty feed set every answer of the query is
    exactly one feed, an earliest one; when a single feed has the earliest
    [last_fetched_at], every call on the same feed set returns it; among
    feeds tied for earliest the query has no tie-breaking key: each of the
    tied feeds is an answer that the query allows, on the same feed set, and
    which one comes is left to the database. *)
Theorem GetNextFeedToFetch_one_feed_ties_left_open (rows rows' : list Feed) :
  rows <> [] ->
  Permutation rows rows' ->
  (exists f, GetNextFeedToFetch rows = inr f /\
             GetNextFeedToFetch_admits rows (inr f)) /\
  (forall r, GetNextFeedToFetch_admits rows r ->
             exists f, r = inr f /\ earliest rows f) /\
  (forall g r r',
     sole_earliest rows g ->
     GetNextFeedToFetch_admits rows r -> GetNextFeedToFetch_admits rows' r' ->
     r = inr g /\ r' = inr g) /\
  (forall g, earliest rows g ->
             GetNextFeedToFetch_admits rows (inr g) /\
             GetNextFeedToFetch_admits rows' (inr g)).
Proof.
  intros Hne HP.
  assert (Hne' : rows' <> []).
  { intros ->. apply Permutation_sym, Permutation_nil in HP. contradiction. }
  split; [|split; [|split]].
  - destruct (GetNextFeedToFetch_some rows Hne) as (f & Hf & _).
    exists f. split; [exact Hf|]. rewrite <- Hf. apply GetNextFeedToFetch_admitted.
  - intros r Hr. now apply GetNextFeedToFetch_admits_earliest.
  - intros g r r' Hsole Hr Hr'.
    destruct (GetNextFeedToFetch_admits_earliest rows r Hne Hr) as (f & -> & He).
    destruct (GetNextFeedToFetch_admits_earliest rows' r' Hne' Hr') as (f' & -> & He').
    apply (earliest_perm rows rows' f' HP) in He'.
    now rewrite (earliest_sole rows f g He Hsole), (earliest_sole rows f' g He' Hsole).
  - intros g He. split; [now apply earliest_admitted|].
    apply earliest_admitted.
    apply (earliest_perm rows' rows g (Permutation_sym HP) He).
Qed.

Lemma GetNextFeedToFetch_one_feed_ties_left_open_witness :
  (exists f, GetNextFeedToFetch [feed_a; feed_b; feed_d] = inr f /\
             GetNextFeedToFetch_admits [feed_a; feed_b; feed_d] (inr f)) /\
  (forall r, GetNextFeedToFetch_admits [feed_a; feed_b; feed_d] r ->
             exists f, r = inr f /\ earliest [feed_a; feed_b; feed_d] f) /\
  (forall g r r',
     sole_earliest [feed_a; feed_b; feed_d] g ->
     GetNextFeedToFetch_admits [feed_a; feed_b; feed_d] r ->
     GetNextFeedToFetch_admits [feed_d; feed_b; feed_a] r' ->
     r = inr g /\ r' = inr g) /\
  (forall g, earliest [feed_a; feed_b; feed_d] g ->
             GetNextFeedToFetch_admits [feed_a; feed_b; feed_d] (inr g) /\
             GetNextFeedToFetch_admits [feed_d; feed_b; feed_a] (inr g)).
Proof.
  apply (GetNextFeedToFetch_one_feed_ties_left_open
           [feed_a; feed_b; feed_d] [feed_d; feed_b; feed_a]).
  - discriminate.
  - apply (Permutation_rev [feed_a; feed_b; feed_d]).
Defined.

End StoreFacts.

Module rssfeedFacts.
Import rssfeed.

Section FetchFeed.
Variable html_UnescapeString : string -> string.
Variable xml_Unmarshal : string -> error + RSSFeed.
Variable http_NewRequest : string -> option error.
Variable client_Do : string -> error + Response.

Local Abbreviation FetchFeed :=
  (FetchFeed html_UnescapeString xml_Unmarshal http_NewRequest client_Do).

Lemma when_run (c : bool) (body : IO unit) (db : Database) :
  when c body db = if c then body db else (tt, db, []).
Proof. destruct c; reflexivity. Qed.

Lemma warn_feed_run (feed : RSSFeed) (db : Database) :
  exists w, warn_feed feed db = (tt, db, w) /\ Forall is_Stdout w /\
            forall db', warn_feed feed db' = (tt, db', w).
Proof.
  unfold warn_feed, bind, when, fmt_Println, emit, ret.
  destruct (String.eqb _ _), (String.eqb _ _), (String.eqb _ _), (Nat.eqb _ _);
    eexists; (split; [reflexivity|split; [|reflexivity]]);
    repeat constructor.
Qed.

(** [FetchFeed] leaves the database alone; it sends at most one request,
    first of all, and after it only prints. *)
Lemma FetchFeed_run (feedURL : string) (db : Database) :
  exists r t,
    FetchFeed feedURL db = (r, db, t) /\
    (forall db', FetchFeed feedURL db' = (r, db', t)) /\
    (t = [] \/ exists w, t = HttpDo feedURL :: w /\ Forall is_Stdout w).
Proof.
  unfold FetchFeed.
  destruct (String.eqb feedURL ""); [do 2 eexists; repeat split; now left|].
  destruct (http_NewRequest feedURL); [do 2 eexists; repeat split; now left|].
  unfold bind, emit, ret.
  destruct (client_Do feedURL) as [e|res];
    [do 2 eexists; repeat split; right; eexists; split; [reflexivity|constructor]|].
  destruct (negb _);
    [do 2 eexists; repeat split; right; eexists; split; [reflexivity|constructor]|].
  destruct (StatusCode res >? 299);
    [do 2 eexists; repeat split; right; eexists; split; [reflexivity|constructor]|].
  destruct (Body res) as [e|data];
    [do 2 eexists; repeat split; right; eexists; split; [reflexivity|constructor]|].
  destruct (xml_Unmarshal data) as [e|feed];
    [do 2 eexists; repeat split; right; eexists; split; [reflexivity|constructor]|].
  destruct (warn_feed_run feed db) as (w & Hw & HS & Hall).
  rewrite Hw. do 2 eexists. split; [reflexivity|]. split.
  - intros db'. rewrite Hall. reflexivity.
  - right. exists (w ++ []). split; [reflexivity|]. now rewrite app_nil_r.
Qed.


(** A fetch that succeeds returns the parsed document with the texts
    unescaped as [unescape_feed] does: every text of the channel but its
    [Link], and every text of every item. *)
Lemma FetchFeed_unescapes (feedURL : string) (db : Database) (feed : RSSFeed) :
  result_of (FetchFeed feedURL db) = inr feed ->
  exists res data raw,
    client_Do feedURL = inr res /\ Body res = inr data /\
    xml_Unmarshal data = inr raw /\
    feed = unescape_feed html_UnescapeString raw /\
    Channel_Link (RSSFeed_Channel feed) = Channel_Link (RSSFeed_Channel raw) /\
    Channel_Title (RSSFeed_Channel feed)
      = html_UnescapeString (Channel_Title (RSSFeed_Channel raw)) /\
    Channel_Items (RSSFeed_Channel feed)
      = map (unescape_item html_UnescapeString) (Channel_Items (RSSFeed_Channel raw)).
Proof.
  unfold rssfeed.FetchFeed.
  destruct (String.eqb feedURL ""); [discriminate|].
  destruct (http_NewRequest feedURL); [discriminate|].
  unfold bind, emit, ret.
  destruct (client_Do feedURL) as [e|res]; [discriminate|].
  destruct (negb _); [discriminate|].
  destruct (StatusCode res >? 299); [discriminate|].
  destruct (Body res) as [e|data] eqn:Hbody; [discriminate|].
  destruct (xml_Unmarshal data) as [e|raw] eqn:Hxml; [discriminate|].
  destruct (warn_feed_run raw db) as (w & -> & _).
  unfold result_of. simpl. intros [= <-].
  exists res, data, raw. repeat split; assumption.
Qed.

End FetchFeed.

Section Sample.
Import Sample.

(** A server that answers 500 with an XML content type: the fetch fails
    on the status, after the one request. *)
Example FetchFeed_sample_500 :
  FetchError sample_Unmarshal (env_client_Do env_500) "https://b.example/rss"
             (ErrorfS "error fetching feed: %s" "500 Internal Server Error") /\
  FetchFeed unescape_amp sample_Unmarshal sample_NewRequest
            (env_client_Do env_500) "https://b.example/rss" sample_db
    = (inl (ErrorfS "error fetching feed: %s" "500 Internal Server Error"),
       sample_db, [HttpDo "https://b.example/rss"]).
Proof.
  split; [|reflexivity].
  apply (HTTPStatus sample_Unmarshal (env_client_Do env_500) _ response_500);
    [reflexivity|reflexivity|discriminate].
Qed.

(** C5 fails on the channel's link: the feed of [sample_body] comes back
    with every text unescaped (the channel's title, the items' titles and
    links) but with the channel's [Link] as it was parsed, entity
    included. *)
Theorem FetchFeed_channel_link_not_unescaped :
  exists feed,
    result_of (FetchFeed unescape_amp sample_Unmarshal sample_NewRequest
                         (env_client_Do env_ok) "https://b.example/rss" sample_db)
      = inr feed /\
    Channel_Link (RSSFeed_Channel feed) = "https://b.example/?a=1&amp;b=2" /\
    unescape_amp (Channel_Link (RSSFeed_Channel feed)) = "https://b.example/?a=1&b=2" /\
    Channel_Title (RSSFeed_Channel feed) = "Q&A" /\
    Channel_Description (RSSFeed_Channel feed) = "News & notes" /\
    map RSSItem_Link (Channel_Items (RSSFeed_Channel feed))
      = ["https://b.example/1?x=1&y=2"; "https://b.example/2"].
Proof.
  eexists. split; [reflexivity|]. repeat split; reflexivity.
Qed.

End Sample.

End rssfeedFacts.

Module handlersFacts.
Import rssfeed handlers.

Lemma Stdout_not_TickerWait (t : list Event) :
  Forall is_Stdout t -> Forall (fun ev => is_TickerWait ev = false) t.
Proof.
  induction 1 as [|ev t Hev _ IH]; constructor; [|assumption].
  destruct ev; simpl in Hev; try contradiction; reflexivity.
Qed.

Lemma for_range_Printf {A : Type} (line : A -> Event) (xs : list A) (db : Database) :
  for_range xs (fun x => emit (line x)) db = (tt, db, map line xs).
Proof.
  revert db. induction xs as [|x xs IH]; intros db; [reflexivity|].
  simpl. unfold bind, emit at 1. rewrite IH. reflexivity.
Qed.

Section Handlers.
Variable html_UnescapeString : string -> string.
Variable xml_Unmarshal : string -> error + RSSFeed.
Variable http_NewRequest : string -> option error.
Variable time_ParseDuration : string -> error + Z.

Local Abbreviation FetchFeed :=
  (FetchFeed html_UnescapeString xml_Unmarshal http_NewRequest).
Local Abbreviation scrapeFeeds :=
  (scrapeFeeds html_UnescapeString xml_Unmarshal http_NewRequest).
Local Abbreviation agg_round :=
  (agg_round html_UnescapeString xml_Unmarshal http_NewRequest).
Local Abbreviation HandlerAgg :=
  (HandlerAgg html_UnescapeString xml_Unmarshal http_NewRequest time_ParseDuration).

Lemma printed_feed_Stdout (feedName : string) (r : error + RSSFeed) :
  Forall is_Stdout (printed_feed feedName r).
Proof.
  destruct r as [err|feed]; [constructor|].
  constructor; [exact I|]. apply Forall_app. split.
  - apply Forall_forall. intros ev Hev. apply in_map_iff in Hev.
    destruct Hev as (item & <- & _). exact I.
  - repeat constructor.
Qed.

(** A cycle that selects [f] and marks it: what follows is the fetch of
    [f]'s URL on the marked database, and either the wrapped error of the
    fetch or the printed titles. *)
Lemma scrapeFeeds_selected (env : CycleEnv) (q : Queries) (db : Database) (f : Feed) :
  env_GetNextFeedToFetch_fails env = None ->
  Store.GetNextFeedToFetch (feeds db) = inr f ->
  env_MarkFeedFetched_fails env = None ->
  exists r t,
    FetchFeed (env_client_Do env) (feed_url f) (marked env (feed_id f) db)
      = (r, marked env (feed_id f) db, t) /\
    (t = [] \/ exists w, t = HttpDo (feed_url f) :: w /\ Forall is_Stdout w) /\
    scrapeFeeds env (Some q) db =
      (match r with
       | inl err => Some (ErrorfSW "error fetching the marked feed %s: %w"
                                   (feed_name f) err)
       | inr _ => None
       end,
       marked env (feed_id f) db,
       DbGetNextFeedToFetch :: DbMarkFeedFetched (feed_id f)
         :: Stdout ("Fetching feed: %s (%s)" ++ nl)
                   [AStr (feed_name f); AStr (feed_url f)]
         :: t ++ printed_feed (feed_name f) r).
Proof.
  intros Hsel Hf Hmark.
  destruct (rssfeedFacts.FetchFeed_run html_UnescapeString xml_Unmarshal
              http_NewRequest (env_client_Do env) (feed_url f)
              (marked env (feed_id f) db)) as (r & t & Hrun & _ & Hshape).
  exists r, t. split; [exact Hrun|]. split; [exact Hshape|].
  unfold handlers.scrapeFeeds, bind, Queries_GetNextFeedToFetch,
    Queries_MarkFeedFetched, fmt_Printf, fmt_Println.
  rewrite Hsel, Hf, Hmark. unfold emit at 1.
  rewrite Hrun. destruct r as [err|feed].
  - unfold ret. simpl. reflexivity.
  - unfold emit at 1. rewrite for_range_Printf. unfold emit, ret. reflexivity.
Qed.

(** Whatever the cycle meets, [scrapeFeeds] returns to its caller, and it
    never waits on the ticker. *)
Lemma scrapeFeeds_no_wait (env : CycleEnv) (queries : option Queries) (db : Database) :
  Forall (fun ev => is_TickerWait ev = false) (trace_of (scrapeFeeds env queries db)).
Proof.
  destruct queries as [q|]; [|constructor].
  destruct (env_GetNextFeedToFetch_fails env) as [e|] eqn:Hsel.
  - unfold handlers.scrapeFeeds, bind, Queries_GetNextFeedToFetch. rewrite Hsel.
    destruct (errors_Is_ErrNoRows e); repeat constructor.
  - destruct (Store.GetNextFeedToFetch (feeds db)) as [e|f] eqn:Hf.
    + unfold handlers.scrapeFeeds, bind, Queries_GetNextFeedToFetch. rewrite Hsel, Hf.
      destruct (errors_Is_ErrNoRows e); repeat constructor.
    + destruct (env_MarkFeedFetched_fails env) as [e|] eqn:Hmark.
      * unfold handlers.scrapeFeeds, bind, Queries_GetNextFeedToFetch,
          Queries_MarkFeedFetched.
        rewrite Hsel, Hf, Hmark. repeat constructor.
      * destruct (scrapeFeeds_selected env q db f Hsel Hf Hmark)
          as (r & t & _ & Hshape & ->).
        pose proof (printed_feed_Stdout (feed_name f) r) as Hout.
        unfold trace_of. simpl. repeat constructor.
        apply Forall_app. split; [|now apply Stdout_not_TickerWait].
        destruct Hshape as [->|(w & -> & Hw)]; [constructor|].
        constructor; [reflexivity|now apply Stdout_not_TickerWait].
Qed.

Lemma MarkFeedFetched_hit (now : Z) (id : UUID) (rows : list Feed) (g : Feed) :
  In g (Store.MarkFeedFetched now id rows) -> feed_id g = id ->
  feed_last_fetched_at g = Some now /\ feed_updated_at g = now.
Proof.
  unfold Store.MarkFeedFetched. intros Hg Hid. apply in_map_iff in Hg.
  destruct Hg as (f & <- & _). revert Hid.
  destruct (N.eqb_spec (feed_id f) id); simpl; [now split|congruence].
Qed.

Lemma MarkFeedFetched_miss (now : Z) (id : UUID) (rows : list Feed) (g : Feed) :
  In g rows -> feed_id g <> id -> In g (Store.MarkFeedFetched now id rows).
Proof.
  intros Hg Hid. unfold Store.MarkFeedFetched. apply in_map_iff. exists g.
  split; [|assumption]. destruct (N.eqb_spec (feed_id g) id); congruence.
Qed.

Lemma MarkFeedFetched_keeps_id (now : Z) (id : UUID) (rows : list Feed) (f : Feed) :
  In f rows ->
  exists g, In g (Store.MarkFeedFetched now id rows) /\ feed_id g = feed_id f.
Proof.
  intros Hf. unfold Store.MarkFeedFetched.
  eexists. split; [apply in_map; exact Hf|].
  destruct (N.eqb (feed_id f) id); reflexivity.
Qed.

(** C2: in a cycle that selects a feed, [MarkFeedFetched] is called on that
    feed right after the selection, and any HTTP request of the cycle comes
    after it and is for that feed's URL; once marked, every row with the
    feed's id has [last_fetched_at] and [updated_at] equal to the current
    time, also when the fetch or the parse then fails (the cycle returns the
    wrapped error and the database stays marked). *)
Theorem scrapeFeeds_marks_before_fetching
  (env : CycleEnv) (q : Queries) (db : Database) (f : Feed) :
  env_GetNextFeedToFetch_fails env = None ->
  Store.GetNextFeedToFetch (feeds db) = inr f ->
  (exists rest,
     trace_of (scrapeFeeds env (Some q) db)
       = DbGetNextFeedToFetch :: DbMarkFeedFetched (feed_id f) :: rest) /\
  (forall pre url post,
     trace_of (scrapeFeeds env (Some q) db) = pre ++ HttpDo url :: post ->
     In (DbMarkFeedFetched (feed_id f)) pre /\
     url = feed_url f /\
     env_MarkFeedFetched_fails env = None) /\
  (env_MarkFeedFetched_fails env = None ->
     database_of (scrapeFeeds env (Some q) db) = marked env (feed_id f) db /\
     (exists g, In g (feeds (database_of (scrapeFeeds env (Some q) db))) /\
                feed_id g = feed_id f) /\
     (forall g, In g (feeds (database_of (scrapeFeeds env (Some q) db))) ->
                feed_id g = feed_id f ->
                feed_last_fetched_at g = Some (env_now env) /\
                feed_updated_at g = env_now env) /\
     (forall err,
        result_of (FetchFeed (env_client_Do env) (feed_url f)
                             (marked env (feed_id f) db)) = inl err ->
        result_of (scrapeFeeds env (Some q) db)
          = Some (ErrorfSW "error fetching the marked feed %s: %w"
                           (feed_name f) err))).
Proof.
  intros Hsel Hf.
  assert (Hin : In f (feeds db)).
  { destruct (StoreFacts.GetNextFeedToFetch_first _ _ Hf) as (pre & post & -> & _).
    apply in_elt. }
  destruct (env_MarkFeedFetched_fails env) as [e|] eqn:Hmark.
  - assert (Hrun : scrapeFeeds env (Some q) db
                   = (Some (ErrorfW "error marking feed as fetched: %w" e), db,
                      [DbGetNextFeedToFetch; DbMarkFeedFetched (feed_id f)])).
    { unfold handlers.scrapeFeeds, bind, Queries_GetNextFeedToFetch,
        Queries_MarkFeedFetched.
      rewrite Hsel, Hf, Hmark. reflexivity. }
    rewrite Hrun. unfold trace_of. simpl. split; [now exists []|].
    split; [|discriminate].
    intros pre url post Heq. exfalso.
    destruct pre as [|a [|b [|c pre]]]; simpl in Heq; discriminate.
  - destruct (scrapeFeeds_selected env q db f Hsel Hf Hmark)
      as (r & t & Hfetch & Hshape & Hrun).
    pose proof (printed_feed_Stdout (feed_name f) r) as Hout.
    rewrite Hrun, Hfetch. unfold trace_of, database_of, result_of. simpl.
    split; [eexists; reflexivity|]. split.
    + intros pre url post Heq.
      destruct pre as [|a [|b [|c pre]]]; simpl in Heq; try discriminate.
      injection Heq as <- <- <- Heq. split; [right; now left|].
      split; [|reflexivity].
      assert (Hurl : In (HttpDo url) (t ++ printed_feed (feed_name f) r)).
      { rewrite Heq. apply in_elt. }
      apply in_app_or in Hurl. destruct Hurl as [Hurl|Hurl].
      * destruct Hshape as [->|(w & -> & Hw)]; [destruct Hurl|].
        destruct Hurl as [[= ->]|Hurl]; [reflexivity|].
        rewrite Forall_forall in Hw. destruct (Hw _ Hurl).
      * rewrite Forall_forall in Hout. destruct (Hout _ Hurl).
    + intros _. split; [reflexivity|]. split; [|split].
      * apply MarkFeedFetched_keeps_id. exact Hin.
      * intros g Hg Hid. now apply (MarkFeedFetched_hit _ (feed_id f) (feeds db)).
      * intros err ->. reflexivity.
Qed.

(** A round of the loop: the scrape, its error printed if it has one, then
    the wait; the loop goes on. *)
Lemma agg_round_run (env : CycleEnv) (queries : option Queries) (db : Database) :
  agg_round queries env db =
  (Continue,
   database_of (scrapeFeeds env queries db),
   trace_of (scrapeFeeds env queries db)
     ++ scrape_log (result_of (scrapeFeeds env queries db)) ++ [TickerWait]).
Proof.
  unfold handlers.agg_round, bind.
  destruct (scrapeFeeds env queries db) as [[err db'] t].
  unfold result_of, database_of, trace_of. simpl.
  destruct err; unfold fmt_Printf, emit, ret; simpl; reflexivity.
Qed.

Lemma waits_app (t u : list Event) : waits (t ++ u) = (waits t + waits u)%nat.
Proof. unfold waits. now rewrite filter_app, length_app. Qed.

Lemma waits_none (t : list Event) :
  Forall (fun ev => is_TickerWait ev = false) t -> waits t = 0%nat.
Proof.
  unfold waits. induction 1 as [|ev t Hev _ IH]; [reflexivity|].
  simpl. now rewrite Hev.
Qed.

Lemma scrape_log_no_wait (err : option error) :
  Forall (fun ev => is_TickerWait ev = false) (scrape_log err).
Proof. destruct err; repeat constructor. Qed.

Lemma agg_round_waits_once (env : CycleEnv) (queries : option Queries) (db : Database) :
  waits (trace_of (agg_round queries env db)) = 1%nat.
Proof.
  rewrite agg_round_run. unfold trace_of at 1. simpl.
  rewrite !waits_app, (waits_none _ (scrapeFeeds_no_wait env queries db)),
    (waits_none _ (scrape_log_no_wait _)).
  reflexivity.
Qed.

(** One more round: the round, then the rest of the loop on the database
    the round leaves. *)
Lemma for_ever_agg_step (queries : option Queries) (envs : nat -> CycleEnv)
      (k rounds : nat) (db : Database) :
  for_ever (fun k => agg_round queries (envs k)) k (S rounds) db =
  (result_of (for_ever (fun k => agg_round queries (envs k)) (S k) rounds
                (database_of (agg_round queries (envs k) db))),
   database_of (for_ever (fun k => agg_round queries (envs k)) (S k) rounds
                  (database_of (agg_round queries (envs k) db))),
   trace_of (agg_round queries (envs k) db)
     ++ trace_of (for_ever (fun k => agg_round queries (envs k)) (S k) rounds
                    (database_of (agg_round queries (envs k) db)))).
Proof.
  cbn [for_ever]. unfold bind at 1. rewrite agg_round_run.
  unfold database_of at 2 4, trace_of at 2. simpl.
  destruct (for_ever _ (S k) rounds _) as [[o db'] t]. reflexivity.
Qed.

(** The loop is never left: after any number of rounds it is still
    looping, and it has waited once per round. *)
Lemma for_ever_agg_Looping (queries : option Queries) (envs : nat -> CycleEnv)
      (rounds : nat) :
  forall k db,
    result_of (for_ever (fun k => agg_round queries (envs k)) k rounds db) = Looping /\
    waits (trace_of (for_ever (fun k => agg_round queries (envs k)) k rounds db)) = rounds.
Proof.
  induction rounds as [|rounds IH]; intros k db; [split; reflexivity|].
  rewrite for_ever_agg_step. unfold result_of at 1, trace_of at 1. simpl.
  destruct (IH (S k) (database_of (agg_round queries (envs k) db))) as [Hl Hw].
  split; [exact Hl|].
  rewrite waits_app, agg_round_waits_once, Hw. reflexivity.
Qed.

(** [HandlerAgg] with an interval that parses to a positive duration:
    the line about the interval, then the loop. *)
Lemma HandlerAgg_enters_loop (s : State) (cmd : Command) (timeInput : string)
      (rest : list string) (d : Z) (envs : nat -> CycleEnv) (rounds : nat)
      (db : Database) :
  Command_Args cmd = timeInput :: rest ->
  time_ParseDuration timeInput = inr d ->
  0 < d ->
  HandlerAgg (Some s) cmd envs rounds db =
  (result_of (for_ever (fun k => agg_round (State_DB s) (envs k)) 0 rounds db),
   database_of (for_ever (fun k => agg_round (State_DB s) (envs k)) 0 rounds db),
   Stdout ("Collecting feeds every %v" ++ nl) [ADuration d]
     :: trace_of (for_ever (fun k => agg_round (State_DB s) (envs k)) 0 rounds db)).
Proof.
  intros Hargs Hparse Hpos. unfold handlers.HandlerAgg.
  rewrite Hargs, Hparse. unfold GoTime.NewTicker.
  destruct (Z.leb_spec d 0); [lia|].
  unfold bind, fmt_Printf, emit.
  destruct (for_ever _ 0 rounds db) as [[o db'] t]. reflexivity.
Qed.


(** C8, amended: when the interval does not parse as a duration,
    [HandlerAgg] returns an error that wraps the parser's, before the loop:
    nothing is printed, no query is sent and the database is as it was;
    when the interval parses to a positive duration, the loop is entered:
    the interval is printed, the first scrape runs, and the handler is
    looping after any number of rounds. *)
Theorem HandlerAgg_interval_checked_before_loop
  (s : State) (cmd : Command) (timeInput : string) (rest : list string)
  (envs : nat -> CycleEnv) (rounds : nat) (db : Database) :
  Command_Args cmd = timeInput :: rest ->
  (forall err,
     time_ParseDuration timeInput = inl err ->
     HandlerAgg (Some s) cmd envs rounds db =
     (Returned (Some (ErrorfW "error: invalid duration format: %w" err)), db, [])) /\
  (forall d,
     time_ParseDuration timeInput = inr d ->
     0 < d ->
     result_of (HandlerAgg (Some s) cmd envs rounds db) = Looping /\
     exists later,
       trace_of (HandlerAgg (Some s) cmd envs (S rounds) db) =
       Stdout ("Collecting feeds every %v" ++ nl) [ADuration d]
         :: trace_of (scrapeFeeds (envs 0%nat) (State_DB s) db) ++ later).
Proof.
  intros Hargs. split.
  - intros err Hparse. unfold handlers.HandlerAgg. rewrite Hargs, Hparse. reflexivity.
  - intros d Hparse Hpos. split.
    + rewrite (HandlerAgg_enters_loop s cmd timeInput rest d envs rounds db
                 Hargs Hparse Hpos).
      apply (for_ever_agg_Looping (State_DB s) envs rounds 0%nat db).
    + rewrite (HandlerAgg_enters_loop s cmd timeInput rest d envs (S rounds) db
                 Hargs Hparse Hpos).
      unfold trace_of at 1. cbn [snd]. rewrite for_ever_agg_step.
      unfold trace_of at 1. cbn [snd]. rewrite agg_round_run.
      unfold trace_of at 1. cbn [snd].
      eexists. rewrite <- !app_assoc. reflexivity.
Qed.


End Handlers.

Section Witnesses.
Import Sample.

Local Abbreviation scrapeFeeds :=
  (scrapeFeeds unescape_amp sample_Unmarshal sample_NewRequest).
Local Abbreviation HandlerAgg :=
  (HandlerAgg unescape_amp sample_Unmarshal sample_NewRequest GoTime.ParseDuration).

Example scrapeFeeds_sample_ok :
  scrapeFeeds env_ok (Some database_New) sample_db =
  (None,
   marked env_ok 2%N sample_db,
   [DbGetNextFeedToFetch;
    DbMarkFeedFetched 2%N;
    Stdout ("Fetching feed: %s (%s)" ++ nl) [AStr "b"; AStr "https://b.example/rss"];
    HttpDo "https://b.example/rss";
    Stdout ("Feed: %s" ++ nl) [AStr "b"];
    Stdout (" - %s" ++ nl) [AStr "First & last"];
    Stdout (" - %s" ++ nl) [AStr "Second"];
    Stdout ("" ++ nl) []]).
Proof. reflexivity. Qed.

(** Two rounds against servers that answer 500: the never-fetched feed is
    polled first, then the feed fetched longest ago; each error is printed,
    each round ends in its wait, and no post is stored. *)
Example HandlerAgg_sample_two_rounds :
  HandlerAgg (Some sample_state) (agg "30s") envs_500 2 sample_db =
  (Looping,
   mkDatabase
     [feed_a;
      mkFeed 2%N 20 100 "b" "https://b.example/rss" 7%N (Some 100);
      mkFeed 3%N 30 160 "c" "https://c.example/rss" 7%N (Some 160)]
     [],
   [Stdout ("Collecting feeds every %v" ++ nl) [ADuration 30000000000];
    DbGetNextFeedToFetch;
    DbMarkFeedFetched 2%N;
    Stdout ("Fetching feed: %s (%s)" ++ nl) [AStr "b"; AStr "https://b.example/rss"];
    HttpDo "https://b.example/rss";
    Stdout ("error scraping the feeds: %s" ++ nl)
           [AErr (ErrorfSW "error fetching the marked feed %s: %w" "b"
                    (ErrorfS "error fetching feed: %s" "500 Internal Server Error"))];
    TickerWait;
    DbGetNextFeedToFetch;
    DbMarkFeedFetched 3%N;
    Stdout ("Fetching feed: %s (%s)" ++ nl) [AStr "c"; AStr "https://c.example/rss"];
    HttpDo "https://c.example/rss";
    Stdout ("error scraping the feeds: %s" ++ nl)
           [AErr (ErrorfSW "error fetching the marked feed %s: %w" "c"
                    (ErrorfS "error fetching feed: %s" "500 Internal Server Error"))];
    TickerWait]).
Proof. reflexivity. Qed.

Lemma scrapeFeeds_marks_before_fetching_witness :
  env_GetNextFeedToFetch_fails env_500 = None /\
  Store.GetNextFeedToFetch (feeds sample_db) = inr feed_b /\
  (forall pre url post,
     trace_of (scrapeFeeds env_500 (Some database_New) sample_db)
       = pre ++ HttpDo url :: post ->
     In (DbMarkFeedFetched (feed_id feed_b)) pre /\
     url = feed_url feed_b /\
     env_MarkFeedFetched_fails env_500 = None).
Proof.
  split; [reflexivity|]. split; [reflexivity|].
  apply (scrapeFeeds_marks_before_fetching unescape_amp sample_Unmarshal
           sample_NewRequest env_500 database_New sample_db feed_b);
    reflexivity.
Defined.


(** C8, as stated, fails: ["0s"] and ["-1s"] parse as durations, and
    [time.NewTicker] panics on them before the loop; no round runs. *)
Lemma HandlerAgg_panics_on_parsed_interval :
  GoTime.ParseDuration "0s" = inr 0 /\
  HandlerAgg (Some sample_state) (agg "0s") (fun _ => env_ok) 1 sample_db
    = (Panicked "non-positive interval for NewTicker", sample_db, []) /\
  GoTime.ParseDuration "-1s" = inr (-1000000000) /\
  HandlerAgg (Some sample_state) (agg "-1s") (fun _ => env_ok) 1 sample_db
    = (Panicked "non-positive interval for NewTicker", sample_db, []).
Proof. repeat split; reflexivity. Qed.

Lemma HandlerAgg_interval_checked_before_loop_witness :
  Command_Args (agg "5 minutes") = ["5 minutes"] /\
  GoTime.ParseDuration "5 minutes"
    = inl (LibError ("time: unknown unit " ++ GoTime.quote " minutes"
                     ++ " in duration " ++ GoTime.quote "5 minutes")) /\
  HandlerAgg (Some sample_state) (agg "5 minutes") (fun _ => env_ok) 2 sample_db
    = (Returned (Some (ErrorfW "error: invalid duration format: %w"
                         (LibError ("time: unknown unit " ++ GoTime.quote " minutes"
                                    ++ " in duration " ++ GoTime.quote "5 minutes")))),
       sample_db, []).
Proof.
  split; [reflexivity|]. split; [reflexivity|].
  apply (HandlerAgg_interval_checked_before_loop unescape_amp sample_Unmarshal
           sample_NewRequest GoTime.ParseDuration sample_state (agg "5 minutes")
           "5 minutes" [] (fun _ => env_ok) 2 sample_db);
    reflexivity.
Defined.


End Witnesses.

End handlersFacts.

Module configFacts.
Import config.

Section Config.
Variable filepath_Join : string -> string -> string.
Variable json_Decode : string -> Config * option error.
Variable json_MarshalIndent : Config -> error + string.

Local Abbreviation getConfigPath := (getConfigPath filepath_Join).
Local Abbreviation Read := (Read filepath_Join json_Decode).
Local Abbreviation write := (write filepath_Join json_MarshalIndent).
Local Abbreviation SetUser := (SetUser filepath_Join json_Decode json_MarshalIndent).

Lemma set_file_same (os : OS) (path : string) (st : FileState) :
  os_files (set_file os path st) path = st.
Proof. simpl. now rewrite String.eqb_refl. Qed.

Lemma set_file_other (os : OS) (path p : string) (st : FileState) :
  String.eqb p path = false -> os_files (set_file os path st) p = os_files os p.
Proof. simpl. now intros ->. Qed.

(** A write that succeeds puts the encoding of [cfg] at the path of the
    configuration file and touches nothing else. *)
Lemma write_ok (cfg : Config) (os os' : OS) :
  write cfg os = (None, os') ->
  exists path data,
    getConfigPath os = inr path /\ json_MarshalIndent cfg = inr data /\
    os' = set_file os path (FileBytes data).
Proof.
  unfold config.write.
  destruct (getConfigPath os) as [e|path]; [discriminate|].
  destruct (json_MarshalIndent cfg) as [e|data]; [discriminate|].
  destruct (os_WriteFile_fails os) as [[e residue]|]; [discriminate|].
  intros [= <-]. now exists path, data.
Qed.

(** C9: whatever the configuration before and whatever the user name, a
    [SetUser] that succeeds returns the configuration that [Read] found with
    only [Name] replaced by the user name: its [URL] is the [db_url] read
    from the file, and it is that configuration that is encoded and written
    to the configuration file, every other file staying as it was; and when
    the configuration cannot be read, nothing is written. *)
Theorem SetUser_replaces_only_the_name (userName : string) (os : OS) :
  (forall cfg' os',
     SetUser userName os = (cfg', None, os') ->
     exists cfg path data,
       Read os = (cfg, None) /\
       cfg' = {| Config_URL := Config_URL cfg; Config_Name := Some userName |} /\
       Config_Name cfg' = Some userName /\
       Config_URL cfg' = Config_URL cfg /\
       getConfigPath os = inr path /\
       json_MarshalIndent cfg' = inr data /\
       os_files os' path = FileBytes data /\
       (forall p, String.eqb p path = false -> os_files os' p = os_files os p) /\
       os_UserHomeDir os' = os_UserHomeDir os) /\
  (forall cfg err,
     Read os = (cfg, Some err) ->
     SetUser userName os =
     (Config_zero, Some (ErrorfW "error reading config file: %w" err), os)).
Proof.
  split.
  - intros cfg' os'. unfold config.SetUser.
    destruct (Read os) as [cfg [err|]] eqn:HRead; [discriminate|].
    destruct (write _ os) as [[err|] os1] eqn:Hwrite; [discriminate|].
    intros [= <- <-].
    destruct (write_ok _ os os1 Hwrite) as (path & data & Hpath & Hdata & ->).
    exists cfg, path, data. repeat split; try assumption; try reflexivity.
    + apply set_file_same.
    + intros p Hp. now apply set_file_other.
  - intros cfg err HRead. unfold config.SetUser. rewrite HRead. reflexivity.
Qed.

End Config.

Section Sample.
Import Sample.

Example SetUser_sample :
  fst (SetUser sample_Join sample_Decode sample_MarshalIndent "lane" sample_os)
    = (mkConfig (Some "postgres://localhost:5432/gator") (Some "lane"), None).
Proof. reflexivity. Qed.

Lemma SetUser_replaces_only_the_name_witness :
  exists cfg path data,
    Read sample_Join sample_Decode sample_os = (cfg, None) /\
    mkConfig (Some "postgres://localhost:5432/gator") (Some "lane")
      = {| Config_URL := Config_URL cfg; Config_Name := Some "lane" |} /\
    Config_Name (mkConfig (Some "postgres://localhost:5432/gator") (Some "lane"))
      = Some "lane" /\
    Config_URL (mkConfig (Some "postgres://localhost:5432/gator") (Some "lane"))
      = Config_URL cfg /\
    getConfigPath sample_Join sample_os = inr path /\
    sample_MarshalIndent (mkConfig (Some "postgres://localhost:5432/gator") (Some "lane"))
      = inr data /\
    os_files (snd (SetUser sample_Join sample_Decode sample_MarshalIndent "lane" sample_os))
             path = FileBytes data /\
    (forall p, String.eqb p path = false ->
       os_files (snd (SetUser sample_Join sample_Decode sample_MarshalIndent "lane"
                              sample_os)) p
       = os_files sample_os p) /\
    os_UserHomeDir (snd (SetUser sample_Join sample_Decode sample_MarshalIndent "lane"
                                 sample_os))
      = os_UserHomeDir sample_os.
Proof.
  apply (SetUser_replaces_only_the_name sample_Join sample_Decode sample_MarshalIndent
           "lane" sample_os).
  reflexivity.
Defined.

End Sample.

End configFacts.

Module IngestorFacts.
Import rssfeed Ingestor.

Lemma post_id_le_max (rows : list Post) (r : Post) :
  In r rows ->
  (post_id r <= fold_right (fun r m => N.max (post_id r) m) 0 rows)%N.
Proof.
  induction rows as [|x rows IH]; intros Hin; [destruct Hin|].
  simpl. destruct Hin as [->|Hin]; [lia|]. specialize (IH Hin). lia.
Qed.

(** The new identifier is the identifier of no row. *)
Lemma new_id_fresh (rows : list Post) (id : UUID) :
  id = new_id rows -> existsb (fun r => N.eqb (post_id r) id) rows = false.
Proof.
  intros ->. apply not_true_is_false. intros H. apply existsb_exists in H.
  destruct H as (r & Hin & Heq). apply N.eqb_eq in Heq.
  pose proof (post_id_le_max rows r Hin). unfold new_id in Heq. lia.
Qed.

Lemma has_url_app (url : string) (rows : list Post) (p : Post) :
  has_url url (rows ++ [p]) = has_url url rows || String.eqb (post_url p) url.
Proof. unfold has_url. rewrite existsb_app. simpl. now rewrite orb_false_r. Qed.

Section Ingest.
Variable date_formats : list (string -> option Z).

Local Abbreviation candidate := (candidate date_formats).
Local Abbreviation ingest_item := (ingest_item date_formats).
Local Abbreviation ingest_items := (ingest_items date_formats).
Local Abbreviation ingest := (ingest date_formats).

(** The ingestion of one item, case by case. *)
Lemma ingest_item_cases (now : Z) (feed : Feed) (item : RSSItem) (db : Database) :
  ingest_item now feed item db =
  if String.eqb (RSSItem_Title item) "" then (SkippedMissingTitle, db)
  else if String.eqb (RSSItem_Link item) "" then (SkippedMissingURL, db)
  else if has_url (RSSItem_Link item) (posts db) then (SkippedAlreadyPresent, db)
  else if negb (has_feed (feed_id feed) (feeds db)) then
    (SkippedInsertError (Store.ForeignKeyViolation "posts_feed_id_fkey"), db)
  else (Stored (candidate now feed item (posts db)),
        {| feeds := feeds db;
           posts := posts db ++ [candidate now feed item (posts db)] |}).
Proof.
  unfold Ingestor.ingest_item.
  destruct (String.eqb (RSSItem_Title item) ""); [reflexivity|].
  destruct (String.eqb (RSSItem_Link item) ""); [reflexivity|].
  unfold insert_post, Store.CreatePost.
  cbn [post_id post_url post_feed_id Ingestor.candidate].
  rewrite (new_id_fresh (posts db) _ eq_refl).
  change (existsb _ (posts db)) with (has_url (RSSItem_Link item) (posts db)).
  destruct (has_url (RSSItem_Link item) (posts db)); [reflexivity|].
  change (existsb _ (feeds db)) with (has_feed (feed_id feed) (feeds db)).
  destruct (has_feed (feed_id feed) (feeds db)); reflexivity.
Qed.

Lemma ingest_item_feeds (now : Z) (feed : Feed) (item : RSSItem) (db : Database) :
  feeds (snd (ingest_item now feed item db)) = feeds db.
Proof.
  rewrite ingest_item_cases.
  repeat match goal with |- context [if ?c then _ else _] => destruct c end;
    reflexivity.
Qed.

(** An ingestion adds at most the item's URL to the stored URLs. *)
Lemma ingest_item_has_url (now : Z) (feed : Feed) (item : RSSItem) (db : Database)
      (url : string) :
  has_url url (posts (snd (ingest_item now feed item db))) =
  has_url url (posts db)
  || (is_Stored (fst (ingest_item now feed item db))
      && String.eqb (RSSItem_Link item) url).
Proof.
  rewrite ingest_item_cases.
  repeat match goal with |- context [if ?c then _ else _] => destruct c end;
    simpl; rewrite ?orb_false_r; try reflexivity.
  apply has_url_app.
Qed.

Lemma ingest_item_settled (now : Z) (feed : Feed) (item : RSSItem) (db : Database) :
  settled feed db item = true ->
  snd (ingest_item now feed item db) = db /\
  is_Stored (fst (ingest_item now feed item db)) = false.
Proof.
  unfold settled. rewrite ingest_item_cases.
  destruct (String.eqb (RSSItem_Title item) ""); [now split|].
  destruct (String.eqb (RSSItem_Link item) ""); [now split|].
  destruct (has_url (RSSItem_Link item) (posts db)); [now split|].
  destruct (has_feed (feed_id feed) (feeds db)); [discriminate|now split].
Qed.

Lemma ingest_item_settles (now : Z) (feed : Feed) (item : RSSItem) (db : Database) :
  settled feed (snd (ingest_item now feed item db)) item = true.
Proof.
  unfold settled. rewrite ingest_item_has_url, ingest_item_feeds.
  rewrite ingest_item_cases.
  destruct (String.eqb (RSSItem_Title item) ""); [reflexivity|].
  destruct (String.eqb (RSSItem_Link item) ""); [reflexivity|].
  destruct (has_url (RSSItem_Link item) (posts db)); [reflexivity|].
  destruct (has_feed (feed_id feed) (feeds db)); [|reflexivity].
  simpl. now rewrite String.eqb_refl.
Qed.

Lemma ingest_item_keeps_settled (now : Z) (feed : Feed) (item other : RSSItem)
      (db : Database) :
  settled feed db other = true ->
  settled feed (snd (ingest_item now feed item db)) other = true.
Proof.
  unfold settled. rewrite ingest_item_has_url, ingest_item_feeds.
  destruct (String.eqb (RSSItem_Title other) ""); [reflexivity|].
  destruct (String.eqb (RSSItem_Link other) ""); [reflexivity|].
  destruct (has_url (RSSItem_Link other) (posts db)); [reflexivity|].
  simpl. intros ->. apply orb_true_r.
Qed.

Lemma ingest_items_step (now : Z) (feed : Feed) (item : RSSItem) (rest : list RSSItem)
      (db : Database) :
  ingest_items now feed (item :: rest) db =
  (fst (ingest_item now feed item db)
     :: fst (ingest_items now feed rest (snd (ingest_item now feed item db))),
   snd (ingest_items now feed rest (snd (ingest_item now feed item db)))).
Proof.
  cbn [Ingestor.ingest_items].
  destruct (ingest_item now feed item db) as [o db1]. cbn [fst snd].
  destruct (ingest_items now feed rest db1) as [os db2]. reflexivity.
Qed.

Lemma ingest_items_app (now : Z) (feed : Feed) (l1 l2 : list RSSItem) (db : Database) :
  ingest_items now feed (l1 ++ l2) db =
  (fst (ingest_items now feed l1 db)
     ++ fst (ingest_items now feed l2 (snd (ingest_items now feed l1 db))),
   snd (ingest_items now feed l2 (snd (ingest_items now feed l1 db)))).
Proof.
  revert db. induction l1 as [|item l1 IH]; intros db.
  - simpl. now destruct (ingest_items now feed l2 db).
  - rewrite <- app_comm_cons, !ingest_items_step, IH. reflexivity.
Qed.

(** Every item gets its outcome: no item stops the ingestion. *)
Lemma ingest_items_length (now : Z) (feed : Feed) (items : list RSSItem) (db : Database) :
  List.length (fst (ingest_items now feed items db)) = List.length items.
Proof.
  revert db. induction items as [|item items IH]; intros db; [reflexivity|].
  rewrite ingest_items_step. simpl. now rewrite IH.
Qed.

Lemma ingest_items_feeds (now : Z) (feed : Feed) (items : list RSSItem) (db : Database) :
  feeds (snd (ingest_items now feed items db)) = feeds db.
Proof.
  revert db. induction items as [|item items IH]; intros db; [reflexivity|].
  rewrite ingest_items_step. simpl. now rewrite IH, ingest_item_feeds.
Qed.

(** A stored URL stays stored, and a stored post stays as it is. *)
Lemma ingest_items_keeps_posts (now : Z) (feed : Feed) (items : list RSSItem)
      (db : Database) (p : Post) :
  In p (posts db) -> In p (posts (snd (ingest_items now feed items db))).
Proof.
  revert db. induction items as [|item items IH]; intros db Hin; [exact Hin|].
  rewrite ingest_items_step. simpl. apply IH.
  rewrite ingest_item_cases.
  repeat match goal with |- context [if ?c then _ else _] => destruct c end;
    simpl; try assumption.
  apply in_or_app. now left.
Qed.

Lemma ingest_items_keeps_settled (now : Z) (feed : Feed) (items : list RSSItem)
      (other : RSSItem) (db : Database) :
  settled feed db other = true ->
  settled feed (snd (ingest_items now feed items db)) other = true.
Proof.
  revert db. induction items as [|item items IH]; intros db Hs; [exact Hs|].
  rewrite ingest_items_step. simpl. apply IH. now apply ingest_item_keeps_settled.
Qed.

(** After an ingestion every item of the feed is settled. *)
Lemma ingest_items_settles (now : Z) (feed : Feed) (items : list RSSItem) (db : Database) :
  Forall (fun item => settled feed (snd (ingest_items now feed items db)) item = true)
         items.
Proof.
  revert db. induction items as [|item items IH]; intros db; [constructor|].
  rewrite ingest_items_step. simpl. constructor; [|apply IH].
  apply ingest_items_keeps_settled, ingest_item_settles.
Qed.

(** An ingestion of settled items stores nothing. *)
Lemma ingest_items_settled (now : Z) (feed : Feed) (items : list RSSItem) (db : Database) :
  Forall (fun item => settled feed db item = true) items ->
  snd (ingest_items now feed items db) = db /\
  filter is_Stored (fst (ingest_items now feed items db)) = [].
Proof.
  induction 1 as [|item items Hitem _ IH]; [now split|].
  rewrite ingest_items_step.
  destruct (ingest_item_settled now feed item db Hitem) as [Hdb Ho].
  simpl. rewrite Hdb, Ho. exact IH.
Qed.

Lemma filter_none_length {A : Type} (f : A -> bool) (l : list A) :
  filter f l = [] -> List.length (filter (fun x => negb (f x)) l) = List.length l.
Proof.
  induction l as [|x l IH]; [reflexivity|]. simpl.
  destruct (f x); [discriminate|]. intros H. simpl. now rewrite IH.
Qed.

Lemma ingest_run (now : Z) (feed : Feed) (parsed : RSSFeed) (db : Database) :
  ingest now feed parsed db =
  ({| report_inserted :=
        List.length (filter is_Stored
          (fst (ingest_items now feed (Channel_Items (RSSFeed_Channel parsed)) db)));
      report_skipped :=
        List.length (filter (fun o => negb (is_Stored o))
          (fst (ingest_items now feed (Channel_Items (RSSFeed_Channel parsed)) db)));
      report_outcomes :=
        fst (ingest_items now feed (Channel_Items (RSSFeed_Channel parsed)) db) |},
   snd (ingest_items now feed (Channel_Items (RSSFeed_Channel parsed)) db)).
Proof.
  unfold Ingestor.ingest.
  now destruct (ingest_items now feed (Channel_Items (RSSFeed_Channel parsed)) db).
Qed.

(** C4: for every feed and every parsed feed, a second ingestion of the
    same parsed feed stores no post: it inserts none, skips every item, and
    leaves the table of posts, and so its count, as the first ingestion left
    it; and an item whose URL is the URL of a stored post, of whatever feed,
    is skipped as already present, its uniqueness violation being no
    error. *)
Theorem ingest_twice_stores_nothing_new
  (now now' : Z) (feed : Feed) (parsed : RSSFeed) (db : Database) :
  let first := ingest now feed parsed db in
  let second := ingest now' feed parsed (snd first) in
  report_inserted (fst second) = 0%nat /\
  report_skipped (fst second) = List.length (Channel_Items (RSSFeed_Channel parsed)) /\
  snd second = snd first /\
  List.length (posts (snd second)) = List.length (posts (snd first)) /\
  (forall now0 feed0 item db0,
     has_url (RSSItem_Link item) (posts db0) = true ->
     snd (ingest_item now0 feed0 item db0) = db0 /\
     is_Stored (fst (ingest_item now0 feed0 item db0)) = false /\
     (RSSItem_Title item <> "" -> RSSItem_Link item <> "" ->
      fst (ingest_item now0 feed0 item db0) = SkippedAlreadyPresent)).
Proof.
  cbv zeta. rewrite !ingest_run. cbn [fst snd report_inserted report_skipped].
  set (items := Channel_Items (RSSFeed_Channel parsed)).
  set (db1 := snd (ingest_items now feed items db)).
  destruct (ingest_items_settled now' feed items db1
              (ingest_items_settles now feed items db)) as [Hdb Hnone].
  rewrite Hdb, Hnone, (filter_none_length _ _ Hnone), ingest_items_length.
  split; [reflexivity|]. split; [reflexivity|]. split; [reflexivity|].
  split; [reflexivity|].
  intros now0 feed0 item db0 Hurl.
  assert (Hs : settled feed0 db0 item = true).
  { unfold settled. rewrite Hurl. now rewrite orb_true_r. }
  split; [apply ingest_item_settled, Hs|].
  split; [apply ingest_item_settled, Hs|].
  intros Ht Hl. rewrite ingest_item_cases.
  apply String.eqb_neq in Ht, Hl. now rewrite Ht, Hl, Hurl.
Qed.

(** C7: an item whose publication date parses under none of the known
    formats, and that has its title and a URL not yet stored, is stored by
    the ingestor of a feed of the database as a post with [published_at]
    null; in a feed that holds it no item stops the ingestion: every item
    gets its outcome, every item with a title and a URL has its URL stored
    at the end, and the post of the item's URL has [published_at] null when
    no earlier item of the feed has that URL. *)
Theorem unparsable_date_is_stored_as_null
  (now : Z) (feed : Feed) (item : RSSItem) (db : Database) :
  parse_publication_date date_formats (RSSItem_PubDate item) = None ->
  RSSItem_Title item <> "" ->
  RSSItem_Link item <> "" ->
  has_url (RSSItem_Link item) (posts db) = false ->
  has_feed (feed_id feed) (feeds db) = true ->
  (exists p,
     ingest_item now feed item db
       = (Stored p, {| feeds := feeds db; posts := posts db ++ [p] |}) /\
     post_url p = RSSItem_Link item /\
     post_title p = RSSItem_Title item /\
     post_feed_id p = feed_id feed /\
     post_published_at p = None) /\
  (forall before after,
     List.length (fst (ingest_items now feed (before ++ item :: after) db))
       = List.length (before ++ item :: after) /\
     (forall it, In it (before ++ item :: after) ->
        RSSItem_Title it <> "" -> RSSItem_Link it <> "" ->
        has_url (RSSItem_Link it)
                (posts (snd (ingest_items now feed (before ++ item :: after) db)))
          = true) /\
     ((forall b, In b before -> RSSItem_Link b <> RSSItem_Link item) ->
      exists p,
        In p (posts (snd (ingest_items now feed (before ++ item :: after) db))) /\
        post_url p = RSSItem_Link item /\
        post_published_at p = None)).
Proof.
  intros Hdate Ht Hl Hfresh Hfeed.
  assert (Ht' := proj2 (String.eqb_neq _ _) Ht).
  assert (Hl' := proj2 (String.eqb_neq _ _) Hl).
  split.
  - eexists. split.
    + rewrite ingest_item_cases, Ht', Hl', Hfresh, Hfeed. reflexivity.
    + cbn. repeat split; try reflexivity. exact Hdate.
  - intros before after. split; [apply ingest_items_length|]. split.
    + intros it Hin Hit Hil.
      pose proof (ingest_items_settles now feed (before ++ item :: after) db) as Hall.
      rewrite Forall_forall in Hall. specialize (Hall it Hin).
      unfold settled in Hall. rewrite ingest_items_feeds, Hfeed in Hall.
      apply String.eqb_neq in Hit, Hil. rewrite Hit, Hil in Hall.
      simpl in Hall. now rewrite orb_false_r in Hall.
    + intros Hbefore.
      rewrite ingest_items_app. cbn [snd]. rewrite ingest_items_step. cbn [snd].
      set (db1 := snd (ingest_items now feed before db)).
      assert (Hfresh1 : has_url (RSSItem_Link item) (posts db1) = false).
      { subst db1. clear - Hfresh Hbefore. revert db Hfresh.
        induction before as [|b before IH]; intros db Hfresh; [exact Hfresh|].
        rewrite ingest_items_step. cbn [snd]. apply IH.
        - intros x Hx. apply Hbefore. now right.
        - rewrite ingest_item_has_url, Hfresh.
          assert (Hb : String.eqb (RSSItem_Link b) (RSSItem_Link item) = false).
          { apply String.eqb_neq, Hbefore. now left. }
          rewrite Hb. now rewrite andb_false_r. }
      assert (Hfeed1 : has_feed (feed_id feed) (feeds db1) = true).
      { subst db1. now rewrite ingest_items_feeds. }
      exists (candidate now feed item (posts db1)).
      split; [|split; [reflexivity|exact Hdate]].
      apply ingest_items_keeps_posts.
      rewrite ingest_item_cases, Ht', Hl', Hfresh1, Hfeed1. cbn.
      apply in_or_app. right. now left.
Qed.

End Ingest.

Section Sample.
Import Sample.

Example ingest_sample_twice :
  let first := ingest sample_date_formats 100 feed_b sample_parsed sample_db in
  let second := ingest sample_date_formats 200 feed_b sample_parsed (snd first) in
  report_inserted (fst first) = 2%nat /\
  map post_url (posts (snd first))
    = ["https://b.example/1?x=1&y=2"; "https://b.example/2"] /\
  map post_published_at (posts (snd first)) = [Some 1136239445000000; None] /\
  report_inserted (fst second) = 0%nat /\
  report_skipped (fst second) = 2%nat /\
  report_outcomes (fst second) = [SkippedAlreadyPresent; SkippedAlreadyPresent].
Proof. cbv zeta. repeat split; reflexivity. Qed.

Lemma unparsable_date_is_stored_as_null_witness :
  parse_publication_date sample_date_formats (RSSItem_PubDate sample_item_2) = None /\
  RSSItem_Title sample_item_2 <> "" /\
  RSSItem_Link sample_item_2 <> "" /\
  has_url (RSSItem_Link sample_item_2) (posts sample_db) = false /\
  has_feed (feed_id feed_b) (feeds sample_db) = true /\
  exists p,
    ingest_item sample_date_formats 100 feed_b sample_item_2 sample_db
      = (Stored p, {| feeds := feeds sample_db; posts := posts sample_db ++ [p] |}) /\
    post_url p = RSSItem_Link sample_item_2 /\
    post_title p = RSSItem_Title sample_item_2 /\
    post_feed_id p = feed_id feed_b /\
    post_published_at p = None.
Proof.
  split; [reflexivity|]. split; [discriminate|]. split; [discriminate|].
  split; [reflexivity|]. split; [reflexivity|].
  apply (unparsable_date_is_stored_as_null sample_date_formats 100 feed_b
           sample_item_2 sample_db);
    try reflexivity; discriminate.
Defined.

End Sample.

End IngestorFacts.

(* ================================================================== *)
(** * Part III: further properties of the code *)
(* ================================================================== *)

Module pollFacts.
Import rssfeed handlers.

Lemma database_of_triple {A : Type} (a : A) (db : Database) (t : list Event) :
  database_of (a, db, t) = db.
Proof. reflexivity. Qed.

Lemma trace_of_triple {A : Type} (a : A) (db : Database) (t : list Event) :
  trace_of (a, db, t) = t.
Proof. reflexivity. Qed.

Lemma result_of_triple {A : Type} (a : A) (db : Database) (t : list Event) :
  result_of (a, db, t) = a.
Proof. reflexivity. Qed.

Lemma marks_app (t u : list Event) : Trace.marks (t ++ u) = Trace.marks t ++ Trace.marks u.
Proof. apply flat_map_app. Qed.

Lemma requests_app (t u : list Event) :
  Trace.requests (t ++ u) = Trace.requests t ++ Trace.requests u.
Proof. apply flat_map_app. Qed.

Lemma selections_app (t u : list Event) :
  Trace.selections (t ++ u) = (Trace.selections t + Trace.selections u)%nat.
Proof. unfold Trace.selections. now rewrite filter_app, length_app. Qed.

(** Printing marks nothing, requests nothing, selects nothing. *)
Lemma Stdout_quiet (t : list Event) :
  Forall is_Stdout t ->
  Trace.marks t = [] /\ Trace.requests t = [] /\ Trace.selections t = 0%nat.
Proof.
  induction 1 as [|ev t Hev _ (IHm & IHr & IHs)]; [now repeat split|].
  destruct ev; simpl in Hev; try contradiction.
  repeat split; assumption.
Qed.

Section Handlers.
Variable html_UnescapeString : string -> string.
Variable xml_Unmarshal : string -> error + RSSFeed.
Variable http_NewRequest : string -> option error.
Variable time_ParseDuration : string -> error + Z.

Local Abbreviation FetchFeed :=
  (FetchFeed html_UnescapeString xml_Unmarshal http_NewRequest).
Local Abbreviation scrapeFeeds :=
  (scrapeFeeds html_UnescapeString xml_Unmarshal http_NewRequest).
Local Abbreviation agg_round :=
  (agg_round html_UnescapeString xml_Unmarshal http_NewRequest).
Local Abbreviation HandlerAgg :=
  (HandlerAgg html_UnescapeString xml_Unmarshal http_NewRequest time_ParseDuration).

(** The three ways a cycle ends without a mark. *)
Lemma scrapeFeeds_nil (env : CycleEnv) (db : Database) :
  scrapeFeeds env None db
  = (Some (Errorf0 "error: database queries is nil"), db, []).
Proof. reflexivity. Qed.

Lemma scrapeFeeds_select_fails (env : CycleEnv) (q : Queries) (db : Database) (e : error) :
  env_GetNextFeedToFetch_fails env = Some e ->
  scrapeFeeds env (Some q) db =
  if errors_Is_ErrNoRows e then
    (None, db,
     [DbGetNextFeedToFetch;
      Stdout ("No feeds found in database. Add some using the 'addfeed' command." ++ nl)
             []])
  else (Some (ErrorfW "error getting next feed to fetch: %w" e), db,
        [DbGetNextFeedToFetch]).
Proof.
  intros He.
  unfold handlers.scrapeFeeds, bind, Queries_GetNextFeedToFetch, fmt_Println.
  rewrite He. destruct (errors_Is_ErrNoRows e); reflexivity.
Qed.

Lemma scrapeFeeds_no_feeds (env : CycleEnv) (q : Queries) (db : Database) :
  env_GetNextFeedToFetch_fails env = None ->
  feeds db = [] ->
  scrapeFeeds env (Some q) db =
  (None, db,
   [DbGetNextFeedToFetch;
    Stdout ("No feeds found in database. Add some using the 'addfeed' command." ++ nl)
           []]).
Proof.
  intros Hsel Hempty.
  unfold handlers.scrapeFeeds, bind, Queries_GetNextFeedToFetch, fmt_Println.
  rewrite Hsel, Hempty. reflexivity.
Qed.

Lemma scrapeFeeds_not_marked (env : CycleEnv) (q : Queries) (db : Database)
      (f : Feed) (e : error) :
  env_GetNextFeedToFetch_fails env = None ->
  Store.GetNextFeedToFetch (feeds db) = inr f ->
  env_MarkFeedFetched_fails env = Some e ->
  scrapeFeeds env (Some q) db =
  (Some (ErrorfW "error marking feed as fetched: %w" e), db,
   [DbGetNextFeedToFetch; DbMarkFeedFetched (feed_id f)]).
Proof.
  intros Hsel Hf Hmark.
  unfold handlers.scrapeFeeds, bind, Queries_GetNextFeedToFetch, Queries_MarkFeedFetched.
  rewrite Hsel, Hf, Hmark. reflexivity.
Qed.

Lemma MarkFeedFetched_ids (now : Z) (id : UUID) (rows : list Feed) :
  map feed_id (Store.MarkFeedFetched now id rows) = map feed_id rows.
Proof.
  unfold Store.MarkFeedFetched. rewrite map_map. apply map_ext.
  intros f. now destruct (N.eqb (feed_id f) id).
Qed.

Lemma MarkFeedFetched_In (now : Z) (id : UUID) (rows : list Feed) (g : Feed) :
  In g (Store.MarkFeedFetched now id rows) ->
  (feed_id g = id /\ feed_last_fetched_at g = Some now) \/
  (feed_id g <> id /\ In g rows).
Proof.
  unfold Store.MarkFeedFetched. intros Hg. apply in_map_iff in Hg.
  destruct Hg as (f & <- & Hf).
  destruct (N.eqb_spec (feed_id f) id); [left|right]; simpl; auto.
Qed.

(** A cycle, whatever it meets: the posts are as they were and so are the
    ids of the feeds; it selects once when it has its queries; what it marks
    and what it requests belongs to the feed the query selects, one mark and
    one request at most. *)
Lemma scrapeFeeds_effects (env : CycleEnv) (queries : option Queries) (db : Database) :
  posts (database_of (scrapeFeeds env queries db)) = posts db /\
  map feed_id (feeds (database_of (scrapeFeeds env queries db))) = map feed_id (feeds db) /\
  Trace.selections (trace_of (scrapeFeeds env queries db))
    = match queries with Some _ => 1%nat | None => 0%nat end /\
  ((database_of (scrapeFeeds env queries db) = db /\
    Trace.requests (trace_of (scrapeFeeds env queries db)) = [] /\
    (Trace.marks (trace_of (scrapeFeeds env queries db)) = [] \/
     exists f e, Store.GetNextFeedToFetch (feeds db) = inr f /\
                 env_MarkFeedFetched_fails env = Some e /\
                 Trace.marks (trace_of (scrapeFeeds env queries db)) = [feed_id f]))
   \/
   (exists f,
      queries <> None /\
      env_GetNextFeedToFetch_fails env = None /\
      env_MarkFeedFetched_fails env = None /\
      Store.GetNextFeedToFetch (feeds db) = inr f /\
      database_of (scrapeFeeds env queries db) = marked env (feed_id f) db /\
      Trace.marks (trace_of (scrapeFeeds env queries db)) = [feed_id f] /\
      (Trace.requests (trace_of (scrapeFeeds env queries db)) = [] \/
       Trace.requests (trace_of (scrapeFeeds env queries db)) = [feed_url f]))).
Proof.
  destruct queries as [q|]; cycle 1.
  { rewrite scrapeFeeds_nil. unfold database_of, trace_of. simpl.
    repeat split; auto; left; repeat split; auto. }
  destruct (env_GetNextFeedToFetch_fails env) as [e|] eqn:Hsel.
  { rewrite (scrapeFeeds_select_fails env q db e Hsel).
    destruct (errors_Is_ErrNoRows e); unfold database_of, trace_of; simpl;
      (repeat split; auto; left; repeat split; auto). }
  destruct (Store.GetNextFeedToFetch (feeds db)) as [e|f] eqn:Hf.
  { assert (Hempty : feeds db = []).
    { destruct (feeds db) as [|x rows] eqn:Hrows; [reflexivity|].
      destruct (StoreFacts.GetNextFeedToFetch_some (x :: rows)) as (f & Hf' & _);
        [discriminate|congruence]. }
    rewrite (scrapeFeeds_no_feeds env q db Hsel Hempty).
    unfold database_of, trace_of. simpl.
    repeat split; auto; left; repeat split; auto. }
  destruct (env_MarkFeedFetched_fails env) as [e|] eqn:Hmark.
  { rewrite (scrapeFeeds_not_marked env q db f e Hsel Hf Hmark).
    unfold database_of, trace_of. simpl.
    repeat split; auto; left; repeat split; auto; right; now exists f, e. }
  destruct (handlersFacts.scrapeFeeds_selected html_UnescapeString xml_Unmarshal
              http_NewRequest env q db f Hsel Hf Hmark)
    as (r & t & _ & Hshape & Hrun).
  rewrite Hrun. unfold database_of, trace_of. cbn [fst snd].
  destruct (Stdout_quiet _ (handlersFacts.printed_feed_Stdout (feed_name f) r))
    as (Hpm & Hpr & Hps).
  assert (Ht : Trace.marks t = [] /\ Trace.selections t = 0%nat /\
               (Trace.requests t = [] \/ Trace.requests t = [feed_url f])).
  { destruct Hshape as [->|(w & -> & Hw)]; [repeat split; auto|].
    destruct (Stdout_quiet w Hw) as (Hwm & Hwr & Hws).
    repeat split; [exact Hwm|exact Hws|right; simpl; now rewrite Hwr]. }
  destruct Ht as (Htm & Hts & Htr).
  assert (Hmarks : Trace.marks
            (DbGetNextFeedToFetch :: DbMarkFeedFetched (feed_id f)
               :: Stdout ("Fetching feed: %s (%s)" ++ nl)
                         [AStr (feed_name f); AStr (feed_url f)]
               :: t ++ printed_feed (feed_name f) r) = [feed_id f]).
  { cbn [Trace.marks flat_map app].
    change (flat_map _ (t ++ printed_feed (feed_name f) r))
      with (Trace.marks (t ++ printed_feed (feed_name f) r)).
    now rewrite marks_app, Htm, Hpm. }
  assert (Hsels : Trace.selections
            (DbGetNextFeedToFetch :: DbMarkFeedFetched (feed_id f)
               :: Stdout ("Fetching feed: %s (%s)" ++ nl)
                         [AStr (feed_name f); AStr (feed_url f)]
               :: t ++ printed_feed (feed_name f) r) = 1%nat).
  { unfold Trace.selections. cbn [filter List.length].
    change (List.length (filter _ (t ++ printed_feed (feed_name f) r)))
      with (Trace.selections (t ++ printed_feed (feed_name f) r)).
    now rewrite selections_app, Hts, Hps. }
  assert (Hreqs : Trace.requests
            (DbGetNextFeedToFetch :: DbMarkFeedFetched (feed_id f)
               :: Stdout ("Fetching feed: %s (%s)" ++ nl)
                         [AStr (feed_name f); AStr (feed_url f)]
               :: t ++ printed_feed (feed_name f) r) = Trace.requests t).
  { cbn [Trace.requests flat_map app].
    change (flat_map _ (t ++ printed_feed (feed_name f) r))
      with (Trace.requests (t ++ printed_feed (feed_name f) r)).
    now rewrite requests_app, Hpr, app_nil_r. }
  rewrite Hmarks, Hsels, Hreqs.
  split; [reflexivity|]. split; [apply MarkFeedFetched_ids|]. split; [reflexivity|].
  right. exists f. repeat split; auto. discriminate.
Qed.

(** The bounds of a cycle: the posts and the ids of the feeds stay, and it
    marks and requests once at most. *)
Lemma scrapeFeeds_bounds (env : CycleEnv) (queries : option Queries) (db : Database) :
  posts (database_of (scrapeFeeds env queries db)) = posts db /\
  map feed_id (feeds (database_of (scrapeFeeds env queries db))) = map feed_id (feeds db) /\
  (List.length (Trace.marks (trace_of (scrapeFeeds env queries db))) <= 1)%nat /\
  (List.length (Trace.requests (trace_of (scrapeFeeds env queries db))) <= 1)%nat.
Proof.
  destruct (scrapeFeeds_effects env queries db) as (Hposts & Hids & _ & Hcases).
  split; [exact Hposts|]. split; [exact Hids|].
  destruct Hcases as [(_ & Hreq & Hmarks)|(f & _ & _ & _ & _ & _ & Hmarks & Hreq)].
  - rewrite Hreq. split; [|simpl; lia].
    destruct Hmarks as [->|(f & e & _ & _ & ->)]; simpl; lia.
  - rewrite Hmarks. split; [simpl; lia|].
    destruct Hreq as [->| ->]; simpl; lia.
Qed.

(** The events of a cycle that sends a request: the selection, the mark of
    the selected feed, and then events that mark nothing and hold the one
    request. *)
Lemma scrapeFeeds_requesting (env : CycleEnv) (queries : option Queries) (db : Database) :
  Trace.requests (trace_of (scrapeFeeds env queries db)) = [] \/
  exists f rest,
    Store.GetNextFeedToFetch (feeds db) = inr f /\
    trace_of (scrapeFeeds env queries db)
      = DbGetNextFeedToFetch :: DbMarkFeedFetched (feed_id f) :: rest /\
    Trace.marks rest = [] /\
    Trace.requests rest = [feed_url f] /\
    database_of (scrapeFeeds env queries db) = marked env (feed_id f) db.
Proof.
  destruct (scrapeFeeds_effects env queries db)
    as (_ & _ & _ & [(_ & Hreq & _)|(f & Hq & Hsel & Hmark & Hf & Hdb & Hmarks & Hreq)]);
    [now left|].
  destruct Hreq as [Hreq|Hreq]; [now left|]. right.
  destruct queries as [q|]; [|contradiction].
  destruct (handlersFacts.scrapeFeeds_selected html_UnescapeString xml_Unmarshal
              http_NewRequest env q db f Hsel Hf Hmark)
    as (r & t & _ & _ & Hrun).
  exists f. eexists. split; [exact Hf|].
  rewrite Hrun in Hmarks, Hreq |- *. rewrite trace_of_triple in Hmarks, Hreq |- *.
  split; [reflexivity|].
  cbn [Trace.marks Trace.requests flat_map app] in Hmarks, Hreq.
  injection Hmarks as Hmarks.
  split; [exact Hmarks|]. split; [exact Hreq|].
  rewrite Hrun in Hdb. exact Hdb.
Qed.

(** X1: a cycle touches one feed at most. Whatever the database and the
    network answer, [scrapeFeeds] leaves the posts and the ids of the feeds
    as they were, sends at most one query of selection, one mark and one
    HTTP request; a request is for the URL of the feed the query selects
    and is sent after that feed was marked: in the events of the cycle the
    one mark, of that feed, stands before the request and no mark comes
    after it, and the database is left marked for that feed; and every feed
    with another id keeps its row. *)
Theorem scrapeFeeds_touches_one_feed
  (env : CycleEnv) (queries : option Queries) (db : Database) :
  posts (database_of (scrapeFeeds env queries db)) = posts db /\
  map feed_id (feeds (database_of (scrapeFeeds env queries db))) = map feed_id (feeds db) /\
  (Trace.selections (trace_of (scrapeFeeds env queries db)) <= 1)%nat /\
  (List.length (Trace.marks (trace_of (scrapeFeeds env queries db))) <= 1)%nat /\
  (List.length (Trace.requests (trace_of (scrapeFeeds env queries db))) <= 1)%nat /\
  (forall pre url post,
     trace_of (scrapeFeeds env queries db) = pre ++ HttpDo url :: post ->
     exists f,
       Store.GetNextFeedToFetch (feeds db) = inr f /\ url = feed_url f /\
       In (DbMarkFeedFetched (feed_id f)) pre /\
       Trace.marks pre = [feed_id f] /\ Trace.marks post = [] /\
       database_of (scrapeFeeds env queries db) = marked env (feed_id f) db) /\
  (forall g,
     In g (feeds db) ->
     (forall f, Store.GetNextFeedToFetch (feeds db) = inr f -> feed_id g <> feed_id f) ->
     In g (feeds (database_of (scrapeFeeds env queries db)))).
Proof.
  destruct (scrapeFeeds_bounds env queries db) as (Hposts & Hids & Hm1 & Hr1).
  destruct (scrapeFeeds_effects env queries db) as (_ & _ & Hsel & Hcases).
  split; [exact Hposts|]. split; [exact Hids|].
  split; [rewrite Hsel; destruct queries; lia|].
  split; [exact Hm1|]. split; [exact Hr1|]. split.
  - intros pre url post Heq.
    destruct (scrapeFeeds_requesting env queries db)
      as [Hnone|(f & rest & Hf & Htrace & Hmarks & Hreqs & Hdb)].
    { rewrite Heq, requests_app in Hnone. simpl in Hnone.
      symmetry in Hnone. now apply app_cons_not_nil in Hnone. }
    exists f. rewrite Htrace in Heq.
    destruct pre as [|a [|b pre]]; simpl in Heq; try discriminate.
    injection Heq as <- <- Heq. subst rest.
    rewrite marks_app in Hmarks. apply app_eq_nil in Hmarks.
    destruct Hmarks as [Hpre Hpost]. simpl in Hpost.
    rewrite requests_app in Hreqs. simpl in Hreqs.
    assert (Hurl : url = feed_url f).
    { destruct (Trace.requests pre) as [|u us]; simpl in Hreqs.
      - now injection Hreqs.
      - injection Hreqs as _ Hrest. symmetry in Hrest.
        now apply app_cons_not_nil in Hrest. }
    split; [exact Hf|]. split; [exact Hurl|]. split; [right; now left|].
    split; [simpl; now rewrite Hpre|]. split; [exact Hpost|exact Hdb].
  - intros g Hg Hne.
    destruct Hcases as [(Hdb & _)|(f & _ & _ & _ & Hf & Hdb & _)]; rewrite Hdb.
    + exact Hg.
    + apply handlersFacts.MarkFeedFetched_miss; [exact Hg|]. now apply Hne.
Qed.

(** The loop, round after round: the posts and the ids of the feeds stay,
    the rounds bound the marks and the requests, and a loop that has its
    queries selects once per round. *)
Lemma for_ever_agg_effects (queries : option Queries) (envs : nat -> CycleEnv)
      (rounds : nat) :
  forall k db,
    posts (database_of (for_ever (fun k => agg_round queries (envs k)) k rounds db))
      = posts db /\
    map feed_id (feeds (database_of
                          (for_ever (fun k => agg_round queries (envs k)) k rounds db)))
      = map feed_id (feeds db) /\
    (List.length (Trace.marks
       (trace_of (for_ever (fun k => agg_round queries (envs k)) k rounds db)))
     <= rounds)%nat /\
    (List.length (Trace.requests
       (trace_of (for_ever (fun k => agg_round queries (envs k)) k rounds db)))
     <= rounds)%nat /\
    Trace.selections
      (trace_of (for_ever (fun k => agg_round queries (envs k)) k rounds db))
    = match queries with Some _ => rounds | None => 0%nat end.
Proof.
  induction rounds as [|rounds IH]; intros k db.
  { repeat split; simpl; auto. now destruct queries. }
  rewrite handlersFacts.for_ever_agg_step, !database_of_triple, !trace_of_triple.
  rewrite handlersFacts.agg_round_run, !database_of_triple, !trace_of_triple.
  destruct (IH (S k) (database_of (scrapeFeeds (envs k) queries db)))
    as (Hposts & Hids & Hmarks & Hreqs & Hsels).
  destruct (scrapeFeeds_bounds (envs k) queries db) as (Hp1 & Hi1 & Hm1 & Hr1).
  destruct (scrapeFeeds_effects (envs k) queries db) as (_ & _ & Hs1 & _).
  assert (Hlog : Forall is_Stdout
                   (scrape_log (result_of (scrapeFeeds (envs k) queries db)))).
  { destruct (result_of _); repeat constructor. }
  destruct (Stdout_quiet _ Hlog) as (Hlm & Hlr & Hls).
  rewrite !marks_app, !requests_app, !selections_app, Hlm, Hlr, Hls, !length_app.
  cbn [Trace.marks Trace.requests Trace.selections flat_map filter app List.length].
  rewrite Hposts, Hids, Hsels, Hs1.
  repeat split; auto; try lia. destruct queries; lia.
Qed.

(** X2: the poller's load is one feed per round. After any number of
    rounds of the loop of [HandlerAgg] the posts and the ids of the feeds
    are as they were, the loop has selected once per round (not at all
    without its queries), and it has marked at most one feed and sent at
    most one HTTP request per round. *)
Theorem HandlerAgg_one_feed_per_round
  (s : State) (cmd : Command) (timeInput : string) (rest : list string) (d : Z)
  (envs : nat -> CycleEnv) (rounds : nat) (db : Database) :
  Command_Args cmd = timeInput :: rest ->
  time_ParseDuration timeInput = inr d ->
  0 < d ->
  posts (database_of (HandlerAgg (Some s) cmd envs rounds db)) = posts db /\
  map feed_id (feeds (database_of (HandlerAgg (Some s) cmd envs rounds db)))
    = map feed_id (feeds db) /\
  Trace.selections (trace_of (HandlerAgg (Some s) cmd envs rounds db))
    = match State_DB s with Some _ => rounds | None => 0%nat end /\
  (List.length (Trace.marks (trace_of (HandlerAgg (Some s) cmd envs rounds db)))
   <= rounds)%nat /\
  (List.length (Trace.requests (trace_of (HandlerAgg (Some s) cmd envs rounds db)))
   <= rounds)%nat.
Proof.
  intros Hargs Hparse Hpos.
  rewrite (handlersFacts.HandlerAgg_enters_loop html_UnescapeString xml_Unmarshal
             http_NewRequest time_ParseDuration s cmd timeInput rest d envs rounds db
             Hargs Hparse Hpos).
  rewrite !database_of_triple, !trace_of_triple.
  destruct (for_ever_agg_effects (State_DB s) envs rounds 0%nat db)
    as (Hposts & Hids & Hmarks & Hreqs & Hsels).
  repeat split; assumption.
Qed.

(** X3: with no feed in the database the poller idles. Each round selects,
    finds no row, prints the hint about [addfeed] and waits; no error is
    printed, nothing is marked or requested, the database stays as it is,
    and the loop goes on. *)
Theorem HandlerAgg_idles_without_feeds
  (s : State) (q : Queries) (cmd : Command) (timeInput : string) (rest : list string)
  (d : Z) (envs : nat -> CycleEnv) (rounds : nat) (db : Database) :
  Command_Args cmd = timeInput :: rest ->
  time_ParseDuration timeInput = inr d ->
  0 < d ->
  State_DB s = Some q ->
  feeds db = [] ->
  (forall k, env_GetNextFeedToFetch_fails (envs k) = None) ->
  HandlerAgg (Some s) cmd envs rounds db =
  (Looping, db,
   Stdout ("Collecting feeds every %v" ++ nl) [ADuration d]
     :: List.concat (repeat
                  [DbGetNextFeedToFetch;
                   Stdout ("No feeds found in database. Add some using the 'addfeed' command."
                           ++ nl) [];
                   TickerWait]
                  rounds)).
Proof.
  intros Hargs Hparse Hpos Hq Hempty Hsel.
  rewrite (handlersFacts.HandlerAgg_enters_loop html_UnescapeString xml_Unmarshal
             http_NewRequest time_ParseDuration s cmd timeInput rest d envs rounds db
             Hargs Hparse Hpos).
  rewrite Hq.
  assert (Hloop : forall k,
    for_ever (fun k => agg_round (Some q) (envs k)) k rounds db =
    (Looping, db,
     List.concat (repeat
               [DbGetNextFeedToFetch;
                Stdout ("No feeds found in database. Add some using the 'addfeed' command."
                        ++ nl) [];
                TickerWait]
               rounds))).
  { induction rounds as [|rounds IH]; intros k; [reflexivity|].
    rewrite handlersFacts.for_ever_agg_step, handlersFacts.agg_round_run.
    rewrite (scrapeFeeds_no_feeds (envs k) q db (Hsel k) Hempty).
    rewrite !database_of_triple, !trace_of_triple, !result_of_triple.
    rewrite IH. reflexivity. }
  rewrite Hloop. reflexivity.
Qed.

Lemma scrapeFeeds_marks_selected (env : CycleEnv) (q : Queries) (db : Database) (f : Feed) :
  env_GetNextFeedToFetch_fails env = None ->
  env_MarkFeedFetched_fails env = None ->
  Store.GetNextFeedToFetch (feeds db) = inr f ->
  database_of (scrapeFeeds env (Some q) db) = marked env (feed_id f) db /\
  Trace.marks (trace_of (scrapeFeeds env (Some q) db)) = [feed_id f].
Proof.
  intros Hsel Hmark Hf.
  destruct (scrapeFeeds_effects env (Some q) db) as (_ & _ & _ & Hcases).
  destruct Hcases as [(_ & _ & Hmarks)|(f' & _ & _ & _ & Hf' & Hdb & Hmarks & _)].
  - exfalso. destruct Hmarks as [Hmarks|(f' & e & _ & He & _)]; [|congruence].
    destruct (handlersFacts.scrapeFeeds_selected html_UnescapeString xml_Unmarshal
                http_NewRequest env q db f Hsel Hf Hmark) as (r & t & _ & _ & Hrun).
    rewrite Hrun, trace_of_triple in Hmarks. discriminate.
  - assert (f' = f) by congruence. subst f'. now split.
Qed.

(** More ids than a list holds: one of them is outside the list. *)
Lemma id_outside (ids seen : list UUID) :
  NoDup ids -> (List.length seen < List.length ids)%nat ->
  exists id, In id ids /\ ~ In id seen.
Proof.
  intros Hnd Hlen.
  destruct (existsb (fun id => negb (existsb (N.eqb id) seen)) ids) eqn:E.
  - apply existsb_exists in E. destruct E as (id & Hin & Hout).
    exists id. split; [exact Hin|]. intros Hseen.
    apply negb_true_iff in Hout.
    assert (existsb (N.eqb id) seen = true); [|congruence].
    apply existsb_exists. exists id. split; [exact Hseen|apply N.eqb_refl].
  - exfalso.
    assert (Hincl : incl ids seen).
    { intros id Hin.
      destruct (existsb (N.eqb id) seen) eqn:Es.
      - apply existsb_exists in Es. destruct Es as (x & Hx & Heq).
        apply N.eqb_eq in Heq. now subst x.
      - assert (existsb (fun id => negb (existsb (N.eqb id) seen)) ids = true);
          [|congruence].
        apply existsb_exists. exists id. split; [exact Hin|]. now rewrite Es. }
    pose proof (NoDup_incl_length Hnd Hincl). lia.
Qed.

(** One selection in a window that began at [t0]: while a feed of the
    table is still stale, the feed selected is a stale one, not one served
    in the window; marking it serves it. *)
Lemma poll_serves_a_stale_feed (t0 now : Z) (seen : list UUID) (rows : list Feed) (f : Feed) :
  NoDup (map feed_id rows) ->
  (List.length seen < List.length rows)%nat ->
  (forall g, In g rows ->
     (In (feed_id g) seen -> exists t, feed_last_fetched_at g = Some t /\ t0 <= t) /\
     (~ In (feed_id g) seen -> stale t0 g)) ->
  Store.GetNextFeedToFetch rows = inr f ->
  t0 <= now ->
  ~ In (feed_id f) seen /\
  In (feed_id f) (map feed_id rows) /\
  (forall g, In g (Store.MarkFeedFetched now (feed_id f) rows) ->
     (In (feed_id g) (seen ++ [feed_id f]) ->
      exists t, feed_last_fetched_at g = Some t /\ t0 <= t) /\
     (~ In (feed_id g) (seen ++ [feed_id f]) -> stale t0 g)).
Proof.
  intros Hnd Hlen Hinv Hf Hnow.
  assert (He : Store.earliest rows f).
  { destruct (StoreFacts.GetNextFeedToFetch_some rows) as (f' & Hf' & He').
    - intros ->. discriminate.
    - congruence. }
  destruct He as [Hin Hmin].
  assert (Hout : ~ In (feed_id f) seen).
  { intros Hseen.
    destruct (id_outside (map feed_id rows) seen Hnd) as (id & Hid & Hnot).
    { now rewrite length_map. }
    apply in_map_iff in Hid. destruct Hid as (g & <- & Hg).
    destruct (proj1 (Hinv f Hin) Hseen) as (t & Ht & Hle).
    pose proof (proj2 (Hinv g Hg) Hnot) as Hstale.
    specialize (Hmin g Hg).
    unfold Store.by_last_fetched_at, Sql.asc_nulls_first, stale in *.
    rewrite Ht in Hmin.
    destruct (feed_last_fetched_at g) as [u|]; [|discriminate].
    apply Z.leb_le in Hmin. lia. }
  split; [exact Hout|]. split; [now apply in_map|].
  intros g Hg. apply MarkFeedFetched_In in Hg.
  destruct Hg as [[Hid Hlast]|[Hid Hg]].
  - split.
    + intros _. exists now. now split.
    + intros Hnot. exfalso. apply Hnot. apply in_or_app. right. now left.
  - destruct (Hinv g Hg) as [Hserved Hstale]. split.
    + intros Hs. apply in_app_or in Hs. destruct Hs as [Hs|[Hs|[]]].
      * now apply Hserved.
      * congruence.
    + intros Hnot. apply Hstale. intros Hs. apply Hnot. apply in_or_app. now left.
Qed.

(** The loop over a window: as long as feeds are left, no feed is marked
    twice. *)
Lemma for_ever_round_robin (q : Queries) (envs : nat -> CycleEnv) (t0 : Z) :
  (forall k, env_GetNextFeedToFetch_fails (envs k) = None) ->
  (forall k, env_MarkFeedFetched_fails (envs k) = None) ->
  (forall k, t0 <= env_now (envs k)) ->
  forall rounds k db seen,
    NoDup (map feed_id (feeds db)) ->
    NoDup seen ->
    (List.length seen + rounds <= List.length (feeds db))%nat ->
    (forall g, In g (feeds db) ->
       (In (feed_id g) seen -> exists t, feed_last_fetched_at g = Some t /\ t0 <= t) /\
       (~ In (feed_id g) seen -> stale t0 g)) ->
    NoDup (seen ++ Trace.marks
             (trace_of (for_ever (fun k => agg_round (Some q) (envs k)) k rounds db))) /\
    List.length (Trace.marks
       (trace_of (for_ever (fun k => agg_round (Some q) (envs k)) k rounds db))) = rounds /\
    incl (Trace.marks
            (trace_of (for_ever (fun k => agg_round (Some q) (envs k)) k rounds db)))
         (map feed_id (feeds db)).
Proof.
  intros Hsel Hmark Hclock.
  induction rounds as [|rounds IH]; intros k db seen Hnd Hseen Hlen Hinv.
  { simpl. rewrite app_nil_r. repeat split; auto. intros x []. }
  assert (Hrows : feeds db <> []).
  { intros Hempty. rewrite Hempty in Hlen. simpl in Hlen. lia. }
  destruct (StoreFacts.GetNextFeedToFetch_some (feeds db) Hrows) as (f & Hf & _).
  destruct (poll_serves_a_stale_feed t0 (env_now (envs k)) seen (feeds db) f)
    as (Hout & Hid & Hinv'); auto; [lia|].
  destruct (scrapeFeeds_marks_selected (envs k) q db f (Hsel k) (Hmark k) Hf)
    as (Hdb & Hmarks).
  rewrite handlersFacts.for_ever_agg_step, !trace_of_triple.
  rewrite handlersFacts.agg_round_run, !database_of_triple, !trace_of_triple.
  assert (Hlog : Forall is_Stdout
                   (scrape_log (result_of (scrapeFeeds (envs k) (Some q) db)))).
  { destruct (result_of _); repeat constructor. }
  destruct (Stdout_quiet _ Hlog) as (Hlm & _ & _).
  rewrite !marks_app, Hmarks, Hlm, Hdb.
  cbn [Trace.marks flat_map app].
  destruct (IH (S k) (marked (envs k) (feed_id f) db) (seen ++ [feed_id f]))
    as (Hnd' & Hlen' & Hincl').
  - cbn [marked feeds]. now rewrite MarkFeedFetched_ids.
  - apply NoDup_app; [exact Hseen|repeat constructor; intros []|].
    intros x Hx [<-|[]]. contradiction.
  - cbn [marked feeds]. unfold Store.MarkFeedFetched.
    rewrite length_map, length_app. simpl. lia.
  - exact Hinv'.
  - rewrite <- app_assoc in Hnd'. cbn [app] in Hnd'.
    split; [exact Hnd'|]. split; [simpl; now rewrite Hlen'|].
    intros x [<-|Hx]; [exact Hid|].
    specialize (Hincl' x Hx). cbn [marked feeds] in Hincl'.
    now rewrite MarkFeedFetched_ids in Hincl'.
Qed.

(** X4: round robin. Let the feeds have distinct ids and their
    [last_fetched_at] lie before the clock of the first round, let the clock
    never run behind that, and let the two queries succeed. Then over a
    window of at most as many rounds as there are feeds, [HandlerAgg] marks
    one feed per round and no feed twice, whatever the fetches give: no feed
    is polled again before every other feed has had its turn; and over as
    many rounds as there are feeds, every feed is polled exactly once. *)
Theorem HandlerAgg_round_robin
  (s : State) (q : Queries) (cmd : Command) (timeInput : string) (rest : list string)
  (d : Z) (envs : nat -> CycleEnv) (rounds : nat) (db : Database) :
  Command_Args cmd = timeInput :: rest ->
  time_ParseDuration timeInput = inr d ->
  0 < d ->
  State_DB s = Some q ->
  NoDup (map feed_id (feeds db)) ->
  (forall g, In g (feeds db) -> stale (env_now (envs 0%nat)) g) ->
  (forall k, env_now (envs 0%nat) <= env_now (envs k)) ->
  (forall k, env_GetNextFeedToFetch_fails (envs k) = None) ->
  (forall k, env_MarkFeedFetched_fails (envs k) = None) ->
  (rounds <= List.length (feeds db))%nat ->
  NoDup (Trace.marks (trace_of (HandlerAgg (Some s) cmd envs rounds db))) /\
  List.length (Trace.marks (trace_of (HandlerAgg (Some s) cmd envs rounds db))) = rounds /\
  incl (Trace.marks (trace_of (HandlerAgg (Some s) cmd envs rounds db)))
       (map feed_id (feeds db)) /\
  (rounds = List.length (feeds db) ->
   Permutation (Trace.marks (trace_of (HandlerAgg (Some s) cmd envs rounds db)))
               (map feed_id (feeds db))).
Proof.
  intros Hargs Hparse Hpos Hq Hnd Hstale Hclock Hsel Hmark Hrounds.
  rewrite (handlersFacts.HandlerAgg_enters_loop html_UnescapeString xml_Unmarshal
             http_NewRequest time_ParseDuration s cmd timeInput rest d envs rounds db
             Hargs Hparse Hpos).
  rewrite trace_of_triple, Hq. cbn [Trace.marks flat_map app].
  change (flat_map _ ?t) with (Trace.marks t).
  destruct (for_ever_round_robin q envs (env_now (envs 0%nat)) Hsel Hmark Hclock
              rounds 0%nat db [] Hnd (NoDup_nil _)) as (Hnd' & Hlen & Hincl).
  - simpl. exact Hrounds.
  - intros g Hg. split; [intros []|]. intros _. now apply Hstale.
  - simpl in Hnd'. repeat split; try assumption.
    intros Hall. apply NoDup_Permutation_bis; try assumption.
    rewrite length_map, Hlen. lia.
Qed.

End Handlers.

Section Sample.
Import Sample.

Local Abbreviation HandlerAgg :=
  (HandlerAgg unescape_amp sample_Unmarshal sample_NewRequest GoTime.ParseDuration).

Lemma HandlerAgg_one_feed_per_round_witness :
  Command_Args (agg "30s") = ["30s"] /\
  GoTime.ParseDuration "30s" = inr 30000000000 /\
  0 < 30000000000 /\
  posts (database_of (HandlerAgg (Some sample_state) (agg "30s") envs_500 5 sample_db))
    = posts sample_db /\
  map feed_id (feeds (database_of
                        (HandlerAgg (Some sample_state) (agg "30s") envs_500 5 sample_db)))
    = map feed_id (feeds sample_db) /\
  Trace.selections
    (trace_of (HandlerAgg (Some sample_state) (agg "30s") envs_500 5 sample_db))
    = match State_DB sample_state with Some _ => 5%nat | None => 0%nat end /\
  (List.length (Trace.marks
     (trace_of (HandlerAgg (Some sample_state) (agg "30s") envs_500 5 sample_db)))
   <= 5)%nat /\
  (List.length (Trace.requests
     (trace_of (HandlerAgg (Some sample_state) (agg "30s") envs_500 5 sample_db)))
   <= 5)%nat.
Proof.
  split; [reflexivity|]. split; [reflexivity|]. split; [reflexivity|].
  apply (HandlerAgg_one_feed_per_round unescape_amp sample_Unmarshal sample_NewRequest
           GoTime.ParseDuration sample_state (agg "30s") "30s" [] 30000000000
           envs_500 5 sample_db);
    reflexivity.
Defined.

Lemma HandlerAgg_idles_without_feeds_witness :
  feeds (mkDatabase [] []) = [] /\
  HandlerAgg (Some sample_state) (agg "30s") envs_500 2 (mkDatabase [] []) =
  (Looping, mkDatabase [] [],
   Stdout ("Collecting feeds every %v" ++ nl) [ADuration 30000000000]
     :: List.concat (repeat
                  [DbGetNextFeedToFetch;
                   Stdout ("No feeds found in database. Add some using the 'addfeed' command."
                           ++ nl) [];
                   TickerWait]
                  2)).
Proof.
  split; [reflexivity|].
  apply (HandlerAgg_idles_without_feeds unescape_amp sample_Unmarshal sample_NewRequest
           GoTime.ParseDuration sample_state database_New (agg "30s") "30s" []
           30000000000 envs_500 2 (mkDatabase [] []));
    reflexivity.
Defined.

Example HandlerAgg_sample_three_rounds :
  Trace.marks (trace_of (HandlerAgg (Some sample_state) (agg "30s") envs_500 3 sample_db))
    = [2%N; 3%N; 1%N] /\
  Trace.marks (trace_of (HandlerAgg (Some sample_state) (agg "30s") envs_500 6 sample_db))
    = [2%N; 3%N; 1%N; 2%N; 3%N; 1%N].
Proof. split; reflexivity. Qed.

Lemma HandlerAgg_round_robin_witness :
  NoDup (map feed_id (feeds sample_db)) /\
  (forall g, In g (feeds sample_db) -> stale (env_now (envs_500 0%nat)) g) /\
  (forall k, env_now (envs_500 0%nat) <= env_now (envs_500 k)) /\
  (3 <= List.length (feeds sample_db))%nat /\
  Permutation
    (Trace.marks (trace_of (HandlerAgg (Some sample_state) (agg "30s") envs_500 3
                                       sample_db)))
    (map feed_id (feeds sample_db)).
Proof.
  assert (Hnd : NoDup (map feed_id (feeds sample_db))).
  { repeat constructor; simpl; intuition discriminate. }
  assert (Hstale : forall g, In g (feeds sample_db) ->
                             stale (env_now (envs_500 0%nat)) g).
  { intros g [<-|[<-|[<-|[]]]]; vm_compute; auto. }
  assert (Hclock : forall k, env_now (envs_500 0%nat) <= env_now (envs_500 k)).
  { intros k. unfold envs_500. cbn [env_now]. lia. }
  split; [exact Hnd|]. split; [exact Hstale|]. split; [exact Hclock|].
  split; [simpl; lia|].
  apply (HandlerAgg_round_robin unescape_amp sample_Unmarshal sample_NewRequest
           GoTime.ParseDuration sample_state database_New (agg "30s") "30s" []
           30000000000 envs_500 3 sample_db);
    try reflexivity; assumption.
Defined.

End Sample.

End pollFacts.

Module fetchFacts.
Import rssfeed.

Section FetchFeed.
Variable html_UnescapeString : string -> string.
Variable xml_Unmarshal : string -> error + RSSFeed.
Variable http_NewRequest : string -> option error.
Variable client_Do : string -> error + Response.

Local Abbreviation FetchFeed :=
  (FetchFeed html_UnescapeString xml_Unmarshal http_NewRequest client_Do).


(** X6: what [FetchFeed] does to the world. It leaves the database as it
    is and sends no query; it sends no HTTP request for an empty URL or one
    the request builder refuses, and exactly one request, for the URL it was
    given, otherwise. *)
Theorem FetchFeed_sends_one_request (feedURL : string) (db : Database) :
  database_of (FetchFeed feedURL db) = db /\
  Trace.marks (trace_of (FetchFeed feedURL db)) = [] /\
  Trace.selections (trace_of (FetchFeed feedURL db)) = 0%nat /\
  Trace.requests (trace_of (FetchFeed feedURL db)) =
    if String.eqb feedURL "" then []
    else match http_NewRequest feedURL with
         | Some _ => []
         | None => [feedURL]
         end.
Proof.
  destruct (rssfeedFacts.FetchFeed_run html_UnescapeString xml_Unmarshal
              http_NewRequest client_Do feedURL db) as (r & t & Hrun & _ & Hshape).
  assert (Hreq : Trace.requests (trace_of (FetchFeed feedURL db)) =
                 if String.eqb feedURL "" then []
                 else match http_NewRequest feedURL with
                      | Some _ => []
                      | None => [feedURL]
                      end).
  { unfold rssfeed.FetchFeed.
    destruct (String.eqb feedURL ""); [reflexivity|].
    destruct (http_NewRequest feedURL); [reflexivity|].
    fold FetchFeed. unfold bind, emit, ret.
    destruct (client_Do feedURL) as [e|res]; [reflexivity|].
    destruct (negb _); [reflexivity|].
    destruct (StatusCode res >? 299); [reflexivity|].
    destruct (Body res) as [e|data]; [reflexivity|].
    destruct (xml_Unmarshal data) as [e|raw]; [reflexivity|].
    destruct (rssfeedFacts.warn_feed_run raw db) as (w & -> & Hw & _).
    unfold trace_of. simpl. rewrite app_nil_r.
    now destruct (pollFacts.Stdout_quiet w Hw) as (_ & -> & _). }
  rewrite Hreq. rewrite Hrun. unfold database_of, trace_of. simpl.
  split; [reflexivity|].
  destruct Hshape as [->|(w & -> & Hw)]; [now repeat split|].
  destruct (pollFacts.Stdout_quiet w Hw) as (Hm & _ & Hs).
  repeat split; assumption.
Qed.

End FetchFeed.

End fetchFacts.

Module configMore.
Import config.

Section Config.
Variable filepath_Join : string -> string -> string.
Variable json_Decode : string -> Config * option error.
Variable json_MarshalIndent : Config -> error + string.

Local Abbreviation getConfigPath := (getConfigPath filepath_Join).
Local Abbreviation Read := (Read filepath_Join json_Decode).
Local Abbreviation write := (write filepath_Join json_MarshalIndent).
Local Abbreviation SetUser := (SetUser filepath_Join json_Decode json_MarshalIndent).

Lemma getConfigPath_set_file (os : OS) (path : string) (st : FileState) :
  getConfigPath (set_file os path st) = getConfigPath os.
Proof. reflexivity. Qed.

(** X7: what is written can be read. After a [write] of a configuration
    that succeeds, and provided the decoder reads back what the encoder
    wrote for that configuration, [Read] returns the configuration written,
    with no error. *)
Theorem write_then_Read (cfg : Config) (os os' : OS) (data : string) :
  write cfg os = (None, os') ->
  json_MarshalIndent cfg = inr data ->
  json_Decode data = (cfg, None) ->
  Read os' = (cfg, None).
Proof.
  intros Hwrite Hdata Hdecode.
  destruct (configFacts.write_ok filepath_Join json_MarshalIndent cfg os os' Hwrite)
    as (path & data' & Hpath & Hdata' & ->).
  assert (data' = data) by congruence. subst data'.
  unfold config.Read. rewrite getConfigPath_set_file, Hpath.
  rewrite configFacts.set_file_same, Hdecode. reflexivity.
Qed.

(** X8: a first login. On a machine whose home directory is known and has
    no configuration file, [SetUser] succeeds when the encoding and the
    write do: it creates the file with a null [db_url] and the user name,
    returns that configuration, and touches no other file. *)
Theorem SetUser_creates_the_file (userName home data : string) (os : OS) :
  os_UserHomeDir os = inr home ->
  os_files os (filepath_Join home configFileName) = NoSuchFile ->
  os_WriteFile_fails os = None ->
  json_MarshalIndent (mkConfig None (Some userName)) = inr data ->
  SetUser userName os =
  (mkConfig None (Some userName), None,
   set_file os (filepath_Join home configFileName) (FileBytes data)).
Proof.
  intros Hhome Hfile Hwrite Hdata.
  unfold config.SetUser, config.Read, config.write, config.getConfigPath.
  rewrite Hhome, Hfile. cbn [Config_URL Config_zero]. rewrite Hdata, Hwrite.
  reflexivity.
Qed.

(** X9: two logins in a row. When [SetUser] succeeds for one user and then
    for another, and the decoder reads back what the encoder wrote the
    first time, the second call returns the second name with the [db_url]
    of the first call, which is the one that was in the file at the start:
    the last login wins and the database URL survives both. *)
Theorem SetUser_twice (user1 user2 : string) (os os1 os2 : OS) (cfg1 cfg2 : Config)
        (data1 : string) :
  SetUser user1 os = (cfg1, None, os1) ->
  json_MarshalIndent cfg1 = inr data1 ->
  json_Decode data1 = (cfg1, None) ->
  SetUser user2 os1 = (cfg2, None, os2) ->
  Config_Name cfg2 = Some user2 /\
  Config_URL cfg2 = Config_URL cfg1 /\
  Config_URL cfg2 = Config_URL (fst (Read os)) /\
  Read os1 = (cfg1, None).
Proof.
  intros Hfirst Hdata Hdecode Hsecond.
  assert (Hread1 : Read os1 = (cfg1, None)).
  { revert Hfirst. unfold config.SetUser.
    destruct (Read os) as [cfg [err|]]; [discriminate|].
    destruct (write _ os) as [[err|] os'] eqn:Hwrite; [discriminate|].
    intros [= <- <-].
    destruct (configFacts.write_ok filepath_Join json_MarshalIndent _ os os' Hwrite)
      as (path & data' & Hpath & Hdata' & ->).
    assert (data' = data1) by congruence. subst data'.
    unfold config.Read. rewrite getConfigPath_set_file, Hpath.
    rewrite configFacts.set_file_same, Hdecode. reflexivity. }
  assert (Hurl1 : Config_URL cfg1 = Config_URL (fst (Read os))).
  { revert Hfirst. unfold config.SetUser.
    destruct (Read os) as [cfg [err|]]; [discriminate|].
    destruct (write _ os) as [[err|] os']; [discriminate|].
    now intros [= <- <-]. }
  revert Hsecond. unfold config.SetUser. rewrite Hread1.
  destruct (write _ os1) as [[err|] os']; [discriminate|].
  intros [= <- <-]. cbn [Config_Name Config_URL]. repeat split; assumption.
Qed.

End Config.

Lemma write_then_Read_witness :
  Read Sample.sample_Join SampleCli.table_Decode
       (snd (write Sample.sample_Join Sample.sample_MarshalIndent
                   SampleCli.lane_config Sample.sample_os))
  = (SampleCli.lane_config, None).
Proof.
  apply (write_then_Read Sample.sample_Join SampleCli.table_Decode
           Sample.sample_MarshalIndent SampleCli.lane_config Sample.sample_os _
           (SampleCli.encoded SampleCli.lane_config)); reflexivity.
Defined.

Lemma SetUser_creates_the_file_witness :
  SetUser Sample.sample_Join SampleCli.table_Decode Sample.sample_MarshalIndent
          "lane" SampleCli.fresh_os
  = (SampleCli.first_config, None,
     set_file SampleCli.fresh_os (Sample.sample_Join "/home/lane" configFileName)
              (FileBytes (SampleCli.encoded SampleCli.first_config))).
Proof.
  apply (SetUser_creates_the_file Sample.sample_Join SampleCli.table_Decode
           Sample.sample_MarshalIndent "lane" "/home/lane"
           (SampleCli.encoded SampleCli.first_config) SampleCli.fresh_os);
    reflexivity.
Defined.

Lemma SetUser_twice_witness :
  Config_Name SampleCli.boots_config = Some "boots" /\
  Config_URL SampleCli.boots_config = Config_URL SampleCli.lane_config /\
  Config_URL SampleCli.boots_config
  = Config_URL (fst (Read Sample.sample_Join SampleCli.table_Decode Sample.sample_os)) /\
  Read Sample.sample_Join SampleCli.table_Decode SampleCli.os_after_lane
  = (SampleCli.lane_config, None).
Proof.
  apply (SetUser_twice Sample.sample_Join SampleCli.table_Decode
           Sample.sample_MarshalIndent "lane" "boots"
           Sample.sample_os SampleCli.os_after_lane SampleCli.os_after_boots
           SampleCli.lane_config SampleCli.boots_config
           (SampleCli.encoded SampleCli.lane_config)); reflexivity.
Defined.

End configMore.

Module appFacts.
Import app CmdMonad.

(** X10: a registered command is the one that runs. After [Register name f]
    on commands whose map is not nil, [Run] of a command named [name] is
    the call of [f] on the state and the command, whatever had been
    registered under that name before; a command of another name runs as
    it did before the registration. *)
Theorem Register_then_Run
  (cs : Commands) (m : string -> option HandlerFunc) (name : string) (f : HandlerFunc) :
  Handler cs = Some m ->
  exists cs',
    Register (Some cs) name f = (None, Some cs') /\
    (forall s cmd, Command_Name cmd = name ->
       Run (Some cs') (Some s) cmd = f (Some s) cmd) /\
    (forall s cmd, Command_Name cmd <> name ->
       Run (Some cs') s cmd = Run (Some cs) s cmd).
Proof.
  intros Hm. exists {| Handler := Some (map_set m name f) |}.
  unfold Register. rewrite Hm. split; [reflexivity|]. split.
  - intros s cmd Hname. unfold Run, map_set. cbn [Handler].
    now rewrite Hname, String.eqb_refl.
  - intros s cmd Hname. unfold Run, map_set. cbn [Handler]. rewrite Hm.
    apply String.eqb_neq in Hname. now rewrite Hname.
Qed.

Lemma Register_then_Run_witness :
  exists cs',
    Register (Some SampleCli.no_commands) "following" SampleCli.idle = (None, Some cs') /\
    (forall s cmd, Command_Name cmd = "following" ->
       Run (Some cs') (Some s) cmd = SampleCli.idle (Some s) cmd) /\
    (forall s cmd, Command_Name cmd <> "following" ->
       Run (Some cs') s cmd = Run (Some SampleCli.no_commands) s cmd).
Proof.
  apply (Register_then_Run SampleCli.no_commands (fun _ => None) "following"
           SampleCli.idle).
  reflexivity.
Defined.

(** X11: [Run] guards its handlers and adds nothing to them. With
    commands, a state, a map and a handler registered under the command's
    name, [Run] is exactly the call of that handler on the state and the
    command. Without commands, without a state, with a nil map or with a
    name that is not registered, [Run] returns an error and does nothing
    else: the tables are as they were and nothing is printed. So whenever
    [Run] returns no error, ends the process, changes a table or prints, a
    registered handler did so. *)
Theorem Run_guards (c : option Commands) (s : option State) (cmd : Command) (t : Tables) :
  (forall cs st m handler,
     c = Some cs -> s = Some st -> Handler cs = Some m ->
     m (Command_Name cmd) = Some handler ->
     Run c s cmd t = handler (Some st) cmd t) /\
  ((c = None \/ s = None \/
    exists cs, c = Some cs /\
      (Handler cs = None \/
       exists m, Handler cs = Some m /\ m (Command_Name cmd) = None)) ->
   exists err, Run c s cmd t = (inr (Some err), t, [])) /\
  (forall r t' ev,
     Run c s cmd t = (r, t', ev) ->
     (forall err, r <> inr (Some err)) \/ t' <> t \/ ev <> [] ->
     exists cs m st handler,
       c = Some cs /\ s = Some st /\ Handler cs = Some m /\
       m (Command_Name cmd) = Some handler /\
       handler (Some st) cmd t = (r, t', ev)).
Proof.
  split; [|split].
  - intros cs st m handler -> -> Hm Hh. unfold Run. now rewrite Hm, Hh.
  - intros [->|[->|(cs & -> & [Hm|(m & Hm & Hh)])]]; unfold Run.
    + eexists; reflexivity.
    + destruct c; eexists; reflexivity.
    + destruct s; [rewrite Hm|]; eexists; reflexivity.
    + destruct s; [rewrite Hm, Hh|]; eexists; reflexivity.
  - intros r t' ev Hrun Heffect.
    assert (Hquiet : forall err, Run c s cmd t = (inr (Some err), t, []) -> False).
    { intros err Herr. rewrite Herr in Hrun. injection Hrun as <- <- <-.
      destruct Heffect as [Hr|[Ht|Hev]]; [now apply (Hr err)|now apply Ht|now apply Hev]. }
    unfold Run in Hrun, Hquiet.
    destruct c as [cs|]; [|exfalso; eapply Hquiet; reflexivity].
    destruct s as [st|]; [|exfalso; eapply Hquiet; reflexivity].
    destruct (Handler cs) as [m|] eqn:Hm; [|exfalso; eapply Hquiet; reflexivity].
    destruct (m (Command_Name cmd)) as [handler|] eqn:Hh;
      [|exfalso; eapply Hquiet; reflexivity].
    now exists cs, m, st, handler.
Qed.

(** [Register] on nothing: the error, and the commands unchanged. *)
Lemma Register_nil (c : option Commands) (name : string) (f : HandlerFunc) :
  (c = None \/ exists cs, c = Some cs /\ Handler cs = None) ->
  exists err, Register c name f = (Some err, c).
Proof.
  intros [->|(cs & -> & Hm)]; unfold Register; [|rewrite Hm]; eexists; reflexivity.
Qed.

End appFacts.

Module middlewareFacts.
Import handlers_cli CmdMonad.

Section Middleware.
Variable Queries_GetUser : CallEnv -> Queries -> string -> Cmd (error + User).

Local Abbreviation MiddlewareLoggedIn := (MiddlewareLoggedIn Queries_GetUser).

(** What the middleware does once the guards have passed, from the answer
    of [GetUser]. *)
Lemma MiddlewareLoggedIn_run
  (env : CallEnv) (handler : UserHandlerFunc) (st : State) (cfg : config.Config)
  (name : string) (q : Queries) (cmd : Command) (t : Tables) :
  State_Config st = Some cfg -> config.Config_Name cfg = Some name -> name <> "" ->
  State_DB st = Some q ->
  MiddlewareLoggedIn env handler (Some st) cmd t =
  match Queries_GetUser env q name t with
  | (inl stop, t1, ev1) => (inl stop, t1, ev1)
  | (inr (inl err), t1, ev1) =>
      (inr (Some (ErrorfW "error getting user from db: %w" err)), t1, ev1 ++ [])
  | (inr (inr user), t1, ev1) =>
      (result_part (handler (Some st) cmd user t1),
       tables_part (handler (Some st) cmd user t1),
       ev1 ++ output_part (handler (Some st) cmd user t1))
  end.
Proof.
  intros Hcfg Hname Hne Hq. unfold handlers_cli.MiddlewareLoggedIn.
  rewrite Hcfg, Hname. destruct (String.eqb_spec name ""); [contradiction|].
  unfold bind, deref. rewrite Hq. cbn.
  destruct (Queries_GetUser env q name t) as [[[stop|[err|user]] t1] ev1];
    try reflexivity.
  unfold result_part, tables_part, output_part.
  now destruct (handler (Some st) cmd user t1) as [[r t2] ev2].
Qed.

(** X12: the middleware lets a handler run only for a user the database
    returned. When the state and its configuration are not nil, the
    configuration names a user that is not empty, the database handle is not
    nil and [GetUser] finds the user, the wrapped handler runs on that user,
    after the query, and its result is the middleware's. With a nil state,
    a nil configuration, no name or an empty name the middleware returns an
    error and does nothing else; with a nil database handle it panics; when
    [GetUser] fails it returns that error wrapped, with what the query did.
    So the middleware returns no error only when the handler ran on a user
    that was found and returned none. *)
Theorem MiddlewareLoggedIn_guards
  (env : CallEnv) (handler : UserHandlerFunc) (s : option State) (cmd : Command)
  (t : Tables) :
  (forall st cfg name q user t1 ev1,
     s = Some st -> State_Config st = Some cfg ->
     config.Config_Name cfg = Some name -> name <> "" ->
     State_DB st = Some q ->
     Queries_GetUser env q name t = (inr (inr user), t1, ev1) ->
     MiddlewareLoggedIn env handler s cmd t =
       (result_part (handler s cmd user t1), tables_part (handler s cmd user t1),
        ev1 ++ output_part (handler s cmd user t1))) /\
  ((s = None \/
    exists st, s = Some st /\
      (State_Config st = None \/
       exists cfg, State_Config st = Some cfg /\
         (config.Config_Name cfg = None \/ config.Config_Name cfg = Some ""))) ->
   exists err, MiddlewareLoggedIn env handler s cmd t = (inr (Some err), t, [])) /\
  (forall st cfg name,
     s = Some st -> State_Config st = Some cfg ->
     config.Config_Name cfg = Some name -> name <> "" ->
     State_DB st = None ->
     MiddlewareLoggedIn env handler s cmd t = (inl NilPointerDereference, t, [])) /\
  (forall st cfg name q err t1 ev1,
     s = Some st -> State_Config st = Some cfg ->
     config.Config_Name cfg = Some name -> name <> "" ->
     State_DB st = Some q ->
     Queries_GetUser env q name t = (inr (inl err), t1, ev1) ->
     MiddlewareLoggedIn env handler s cmd t =
       (inr (Some (ErrorfW "error getting user from db: %w" err)), t1, ev1)) /\
  (forall t' ev,
     MiddlewareLoggedIn env handler s cmd t = (inr None, t', ev) ->
     exists st cfg name q user t1 ev1,
       s = Some st /\ State_Config st = Some cfg /\
       config.Config_Name cfg = Some name /\ name <> "" /\
       State_DB st = Some q /\
       Queries_GetUser env q name t = (inr (inr user), t1, ev1) /\
       handler s cmd user t1 = (inr None, t', output_part (handler s cmd user t1)) /\
       ev = ev1 ++ output_part (handler s cmd user t1)).
Proof.
  split; [|split; [|split; [|split]]].
  - intros st cfg name q user t1 ev1 -> Hcfg Hname Hne Hq Hget.
    rewrite (MiddlewareLoggedIn_run env handler st cfg name q cmd t Hcfg Hname Hne Hq).
    now rewrite Hget.
  - unfold handlers_cli.MiddlewareLoggedIn.
    intros [->|(st & -> & [Hcfg|(cfg & Hcfg & [Hname|Hname])])].
    + eexists; reflexivity.
    + rewrite Hcfg. eexists; reflexivity.
    + rewrite Hcfg, Hname. eexists; reflexivity.
    + rewrite Hcfg, Hname. eexists; reflexivity.
  - intros st cfg name -> Hcfg Hname Hne Hq.
    unfold handlers_cli.MiddlewareLoggedIn. rewrite Hcfg, Hname.
    destruct (String.eqb_spec name ""); [contradiction|].
    unfold bind, deref. now rewrite Hq.
  - intros st cfg name q err t1 ev1 -> Hcfg Hname Hne Hq Hget.
    rewrite (MiddlewareLoggedIn_run env handler st cfg name q cmd t Hcfg Hname Hne Hq).
    now rewrite Hget, app_nil_r.
  - intros t' ev.
    destruct s as [st|]; [|discriminate].
    destruct (State_Config st) as [cfg|] eqn:Hcfg;
      [|unfold handlers_cli.MiddlewareLoggedIn; rewrite Hcfg; discriminate].
    destruct (config.Config_Name cfg) as [name|] eqn:Hname;
      [|unfold handlers_cli.MiddlewareLoggedIn; rewrite Hcfg, Hname; discriminate].
    destruct (String.eqb_spec name "") as [->|Hne];
      [unfold handlers_cli.MiddlewareLoggedIn; rewrite Hcfg, Hname; discriminate|].
    destruct (State_DB st) as [q|] eqn:Hq; cycle 1.
    { unfold handlers_cli.MiddlewareLoggedIn. rewrite Hcfg, Hname.
      destruct (String.eqb_spec name ""); [contradiction|].
      unfold bind, deref. rewrite Hq. discriminate. }
    rewrite (MiddlewareLoggedIn_run env handler st cfg name q cmd t Hcfg Hname Hne Hq).
    destruct (Queries_GetUser env q name t) as [[[stop|[err|user]] t1] ev1] eqn:Hget;
      try discriminate.
    intros [= Hr Ht Hev].
    exists st, cfg, name, q, user, t1, ev1. repeat split; auto.
    destruct (handler (Some st) cmd user t1) as [[r t2] ev2].
    unfold result_part, tables_part, output_part in *. simpl in *. now subst.
Qed.

End Middleware.

End middlewareFacts.

Module followFacts.
Import handlers_cli CmdMonad Follows.

Lemma with_follows_same (t : Tables) : with_follows t (feed_follows t) = t.
Proof. now destruct t. Qed.

Lemma unique_constraint_text (constraint : string) :
  GoStrings.Contains (GoFmt.Error (pq_unique constraint)) "unique constraint" = true.
Proof.
  unfold pq_unique, GoFmt.Error.
  change (GoStrings.Contains
            ("pq: duplicate key value violates " ++ "unique constraint "
               ++ named constraint) "unique constraint" = true).
  generalize (named constraint). intros rest.
  reflexivity.
Qed.

(** [GetFeedByURL] returns the first feed with the URL. *)
Lemma GetFeedByURL_found (url : string) (t : Tables) (feed : FeedByURL) :
  GetFeedByURL url t = inr feed ->
  exists f, In f (feeds (tables_db t)) /\ feed_url f = url /\
            found_id feed = feed_id f /\ found_name feed = feed_name f /\
            found_url feed = url.
Proof.
  unfold GetFeedByURL.
  destruct (filter _ (feeds (tables_db t))) as [|f rest] eqn:Hfilter; [discriminate|].
  simpl. intros [= <-].
  assert (Hin : In f (filter (fun f => String.eqb (feed_url f) url)
                             (feeds (tables_db t)))).
  { rewrite Hfilter. now left. }
  apply filter_In in Hin. destruct Hin as [Hin Hurl].
  apply String.eqb_eq in Hurl. exists f. now repeat split.
Qed.

Lemma GetFeedByURL_with_follows (url : string) (t : Tables) (rows : list FeedFollow) :
  GetFeedByURL url (with_follows t rows) = GetFeedByURL url t.
Proof. reflexivity. Qed.

(** What a follow that succeeded went through. *)
Lemma HandlerFollow_succeeded
  (env : CallEnv) (st : State) (cmd : Command) (user : User) (t t1 : Tables)
  (ev : list Event) :
  HandlerFollow env (Some st) cmd user t = (inr None, t1, ev) ->
  exists url rest cfg name q feed row,
    Command_Args cmd = url :: rest /\
    State_Config st = Some cfg /\ config.Config_Name cfg = Some name /\
    State_DB st = Some q /\
    GetFeedByURL url t = inr feed /\
    existsb (fun r => N.eqb (follow_id r) (call_uuid env)) (feed_follows t) = false /\
    existsb (same_pair (new_follow env user feed)) (feed_follows t) = false /\
    t1 = with_follows t (feed_follows t ++ [new_follow env user feed]) /\
    ev = [Stdout ("%s is now following: %s" ++ nl)
                 [AStr (row_userName row); AStr (row_feedName row)]].
Proof.
  unfold HandlerFollow.
  destruct (Command_Args cmd) as [|url rest]; [discriminate|].
  unfold bind, deref, ret.
  destruct (State_Config st) as [cfg|] eqn:Hcfg; [|discriminate].
  destruct (config.Config_Name cfg) as [name|] eqn:Hname; [|discriminate].
  destruct (State_DB st) as [q|] eqn:Hq; [|discriminate].
  unfold QueriesCli.GetFeedByURL.
  destruct (call_fails env "GetFeedByURL"); [discriminate|].
  destruct (GetFeedByURL url t) as [err|feed] eqn:Hfeed; [discriminate|].
  unfold QueriesCli.CreateFeedFollows.
  destruct (call_fails env "CreateFeedFollows"); [cbn; intros H; revert H|].
  { match goal with |- context [GoStrings.Contains ?a ?b] =>
      destruct (GoStrings.Contains a b) end; discriminate. }
  fold (new_follow env user feed).
  unfold CreateFeedFollows. cbn [follow_id new_follow].
  destruct (existsb (fun r => N.eqb (follow_id r) (call_uuid env)) (feed_follows t))
    eqn:Hpk;
    [cbv beta iota zeta; rewrite unique_constraint_text; discriminate|].
  fold (new_follow env user feed).
  destruct (existsb (same_pair (new_follow env user feed)) (feed_follows t))
    eqn:Hpair;
    [cbv beta iota zeta; rewrite unique_constraint_text; discriminate|].
  destruct (negb (existsb _ (users t))); [cbn; discriminate|].
  destruct (negb (existsb _ (feeds (tables_db t)))); [cbn; discriminate|].
  destruct (joined t (new_follow env user feed)) as [|row rows]; [cbn; discriminate|].
  cbn. intros [= <- <-].
  exists url, rest, cfg, name, q, feed, row. repeat split; auto.
Qed.

Lemma flat_map_nil {A B : Type} (g : A -> list B) (l : list A) :
  (forall y, In y l -> g y = []) -> flat_map g l = [].
Proof.
  induction l as [|a l IH]; intros H; [reflexivity|]. simpl.
  rewrite (H a); [|now left]. apply IH. intros y Hy. apply H. now right.
Qed.

(** Under distinct keys, a [flat_map] that is empty off one key is what it
    gives at that key. *)
Lemma flat_map_single {A B K : Type} (key : A -> K) (g : A -> list B) (l : list A) (x : A) :
  NoDup (map key l) -> In x l ->
  (forall y, In y l -> key y <> key x -> g y = []) ->
  flat_map g l = g x.
Proof.
  induction l as [|a l IH]; intros Hnd Hin Hoff; [destruct Hin|].
  simpl in Hnd. inversion Hnd as [|? ? Hnotin Hnd']; subst.
  simpl. destruct Hin as [->|Hin].
  - assert (Hrest : flat_map g l = []).
    { apply flat_map_nil. intros y Hy. apply Hoff; [now right|].
      intros Heq. apply Hnotin. rewrite <- Heq. now apply in_map. }
    now rewrite Hrest, app_nil_r.
  - rewrite (Hoff a); [|now left|].
    + simpl. apply IH; auto. intros y Hy. apply Hoff. now right.
    + intros Heq. apply Hnotin. rewrite Heq. now apply in_map.
Qed.

Lemma NoDup_map_inj {A K : Type} (key : A -> K) (l : list A) (x y : A) :
  NoDup (map key l) -> In x l -> In y l -> key x = key y -> x = y.
Proof.
  induction l as [|a l IH]; intros Hnd Hx Hy Heq; [destruct Hx|].
  simpl in Hnd. inversion Hnd as [|? ? Hnotin Hnd']; subst.
  destruct Hx as [->|Hx], Hy as [->|Hy]; auto.
  - exfalso. apply Hnotin. rewrite Heq. now apply in_map.
  - exfalso. apply Hnotin. rewrite <- Heq. now apply in_map.
Qed.

(** With distinct ids, the join of a follow whose user and feed are rows
    is the one row with their names. *)
Lemma joined_one (t : Tables) (ff : FeedFollow) (u : User) (f : Feed) :
  NoDup (map user_id (users t)) ->
  NoDup (map feed_id (feeds (tables_db t))) ->
  In u (users t) -> In f (feeds (tables_db t)) ->
  user_id u = follow_user_id ff -> feed_id f = follow_feed_id ff ->
  joined t ff = [mkFollowRow ff (user_name u) (feed_name f)].
Proof.
  intros Hndu Hndf Hu Hf Huid Hfid. unfold joined.
  rewrite (flat_map_single user_id _ (users t) u Hndu Hu).
  - rewrite (flat_map_single feed_id _ (feeds (tables_db t)) f Hndf Hf).
    + now rewrite Huid, Hfid, !N.eqb_refl.
    + intros g Hg Hne. rewrite Huid, N.eqb_refl. simpl.
      destruct (N.eqb_spec (feed_id g) (follow_feed_id ff)); [congruence|reflexivity].
  - intros v Hv Hne.
    assert (Hoff : N.eqb (user_id v) (follow_user_id ff) = false).
    { apply N.eqb_neq. congruence. }
    rewrite Hoff. simpl. clear. induction (feeds (tables_db t)); auto.
Qed.

Lemma joined_with_follows (t : Tables) (rows : list FeedFollow) (ff : FeedFollow) :
  joined (with_follows t rows) ff = joined t ff.
Proof. reflexivity. Qed.

Lemma existsb_false_In {A : Type} (p : A -> bool) (l : list A) (x : A) :
  existsb p l = false -> In x l -> p x = false.
Proof.
  intros He Hin. destruct (p x) eqn:Hp; [|reflexivity].
  assert (existsb p l = true); [|congruence].
  apply existsb_exists. now exists x.
Qed.

(** X13: a follow cannot be repeated. After [HandlerFollow] has succeeded
    for a user and a URL, a second call for the same user and URL, whatever
    its new id and its time, returns the error that the user is already
    following the feed, prints nothing and leaves the tables as they are. *)
Theorem HandlerFollow_twice
  (env1 env2 : CallEnv) (st : State) (cmd : Command) (user : User) (t t1 : Tables)
  (ev : list Event) :
  HandlerFollow env1 (Some st) cmd user t = (inr None, t1, ev) ->
  call_fails env2 "GetFeedByURL" = None ->
  call_fails env2 "CreateFeedFollows" = None ->
  HandlerFollow env2 (Some st) cmd user t1 =
  (inr (Some (Errorf0 "error: you are already following this feed")), t1, []).
Proof.
  intros Hfirst Hf1 Hf2.
  destruct (HandlerFollow_succeeded env1 st cmd user t t1 ev Hfirst)
    as (url & rest & cfg & name & q & feed & row & Hargs & Hcfg & Hname & Hq & Hfeed
        & _ & _ & -> & _).
  unfold HandlerFollow. rewrite Hargs. unfold bind, deref, ret.
  rewrite Hcfg, Hname, Hq.
  unfold QueriesCli.GetFeedByURL, QueriesCli.CreateFeedFollows.
  rewrite Hf1, Hf2, GetFeedByURL_with_follows, Hfeed.
  fold (new_follow env2 user feed). unfold CreateFeedFollows.
  destruct (existsb _ (feed_follows (with_follows t _)));
    [cbv beta iota zeta; rewrite unique_constraint_text; reflexivity|].
  assert (Hpair : existsb (same_pair (new_follow env2 user feed))
                    (feed_follows
                       (with_follows t (feed_follows t ++ [new_follow env1 user feed])))
                  = true).
  { cbn [with_follows feed_follows]. rewrite existsb_app. apply orb_true_iff. right.
    simpl. unfold same_pair. cbn [new_follow follow_user_id follow_feed_id].
    now rewrite !N.eqb_refl. }
  rewrite Hpair. cbv beta iota zeta. rewrite unique_constraint_text. reflexivity.
Qed.

(** X14: what a follow does. With a state whose configuration names a
    user, distinct ids for the users and for the feeds, the user a row of
    [users], a feed with the URL, a new id and no follow yet of the user
    for that feed, [HandlerFollow] returns no error, adds to [feed_follows]
    the one row that links the user to the first feed with the URL, changes
    nothing else, and prints the name of the user and of the feed. *)
Theorem HandlerFollow_adds_the_follow
  (env : CallEnv) (st : State) (cfg : config.Config) (name : string) (q : Queries)
  (cmd : Command) (url : string) (rest : list string) (user : User) (t : Tables)
  (feed : FeedByURL) :
  State_Config st = Some cfg -> config.Config_Name cfg = Some name ->
  State_DB st = Some q ->
  Command_Args cmd = url :: rest ->
  call_fails env "GetFeedByURL" = None ->
  call_fails env "CreateFeedFollows" = None ->
  NoDup (map user_id (users t)) ->
  NoDup (map feed_id (feeds (tables_db t))) ->
  In user (users t) ->
  GetFeedByURL url t = inr feed ->
  existsb (fun r => N.eqb (follow_id r) (call_uuid env)) (feed_follows t) = false ->
  existsb (same_pair (new_follow env user feed)) (feed_follows t) = false ->
  HandlerFollow env (Some st) cmd user t =
  (inr None,
   with_follows t (feed_follows t ++ [new_follow env user feed]),
   [Stdout ("%s is now following: %s" ++ nl)
           [AStr (user_name user); AStr (found_name feed)]]).
Proof.
  intros Hcfg Hname Hq Hargs Hf1 Hf2 Hndu Hndf Huser Hfeed Hpk Hpair.
  destruct (GetFeedByURL_found url t feed Hfeed) as (f & Hf & _ & Hid & Hfname & _).
  unfold HandlerFollow. rewrite Hargs. unfold bind, deref, ret.
  rewrite Hcfg, Hname, Hq.
  unfold QueriesCli.GetFeedByURL, QueriesCli.CreateFeedFollows.
  rewrite Hf1, Hf2, Hfeed.
  fold (new_follow env user feed). unfold CreateFeedFollows.
  cbn [follow_id new_follow]. rewrite Hpk.
  fold (new_follow env user feed). rewrite Hpair.
  assert (Hu : existsb (fun u => N.eqb (user_id u)
                                       (follow_user_id (new_follow env user feed)))
                       (users t) = true).
  { apply existsb_exists. exists user. split; [exact Huser|apply N.eqb_refl]. }
  assert (Hfk : existsb (fun g => N.eqb (feed_id g)
                                        (follow_feed_id (new_follow env user feed)))
                        (feeds (tables_db t)) = true).
  { apply existsb_exists. exists f. split; [exact Hf|].
    cbn [new_follow follow_feed_id]. rewrite Hid. apply N.eqb_refl. }
  rewrite Hu, Hfk. cbn [negb].
  rewrite (joined_one t (new_follow env user feed) user f Hndu Hndf Huser Hf);
    [|reflexivity|now rewrite <- Hid].
  cbv beta iota zeta. cbn [row_userName row_feedName]. now rewrite Hfname.
Qed.

Lemma follows_url_with_follows (url : string) (uid : UUID) (t : Tables)
  (rows : list FeedFollow) (ff : FeedFollow) :
  follows_url url uid (with_follows t rows) ff = follows_url url uid t ff.
Proof. reflexivity. Qed.

Lemma filter_none {A : Type} (p : A -> bool) (l : list A) :
  (forall x, In x l -> p x = false) -> filter p l = [].
Proof.
  induction l as [|a l IH]; intros H; [reflexivity|]. simpl.
  rewrite (H a); [|now left]. apply IH. intros x Hx. apply H. now right.
Qed.

Lemma filter_all {A : Type} (p : A -> bool) (l : list A) :
  (forall x, In x l -> p x = true) -> filter p l = l.
Proof.
  induction l as [|a l IH]; intros H; [reflexivity|]. simpl.
  rewrite (H a); [|now left]. f_equal. apply IH. intros x Hx. apply H. now right.
Qed.

(** What [HandlerUnfollow] does for a logged-in user and a URL, from the
    rows that the delete matches. *)
Lemma HandlerUnfollow_run
  (env : CallEnv) (st : State) (cfg : config.Config) (name : string) (q : Queries)
  (cmd : Command) (url : string) (rest : list string) (user : User) (t : Tables) :
  State_Config st = Some cfg -> config.Config_Name cfg = Some name ->
  State_DB st = Some q ->
  Command_Args cmd = url :: rest ->
  call_fails env "DeleteFeedFollowByUserAndFeed" = None ->
  HandlerUnfollow env (Some st) cmd user t =
  match filter (follows_url url (user_id user) t) (feed_follows t) with
  | [] => (inl (Exit 0), t,
           [Stdout ("%s is not following this feed!" ++ nl) [AStr (user_name user)]])
  | _ :: _ =>
      (inl (Exit 0),
       with_follows t (filter (fun ff => negb (follows_url url (user_id user) t ff))
                              (feed_follows t)),
       [Stdout ("Feed successfully unfollowed!" ++ nl) []])
  end.
Proof.
  intros Hcfg Hname Hq Hargs Hfault.
  unfold HandlerUnfollow, bind, deref, ret.
  rewrite Hcfg, Hname, Hargs, Hq.
  unfold QueriesCli.DeleteFeedFollowByUserAndFeed. rewrite Hfault.
  unfold DeleteFeedFollowByUserAndFeed.
  destruct (filter (follows_url url (user_id user) t) (feed_follows t)); reflexivity.
Qed.

(** X15: unfollow undoes follow. With distinct feed URLs, after
    [HandlerFollow] has succeeded for a user and a URL, [HandlerUnfollow]
    for the same user and URL prints that the feed is unfollowed, exits
    with code 0 and leaves the tables exactly as they were before the
    follow. *)
Theorem HandlerFollow_then_HandlerUnfollow
  (env1 env2 : CallEnv) (st : State) (cmd : Command) (user : User) (t t1 : Tables)
  (ev : list Event) :
  HandlerFollow env1 (Some st) cmd user t = (inr None, t1, ev) ->
  NoDup (map feed_url (feeds (tables_db t))) ->
  call_fails env2 "DeleteFeedFollowByUserAndFeed" = None ->
  HandlerUnfollow env2 (Some st) cmd user t1 =
  (inl (Exit 0), t, [Stdout ("Feed successfully unfollowed!" ++ nl) []]).
Proof.
  intros Hfirst Hnd Hfault.
  destruct (HandlerFollow_succeeded env1 st cmd user t t1 ev Hfirst)
    as (url & rest & cfg & name & q & feed & row & Hargs & Hcfg & Hname & Hq & Hfeed
        & _ & Hpair & -> & _).
  destruct (GetFeedByURL_found url t feed Hfeed) as (f & Hf & Hurl & Hid & _).
  set (ff1 := new_follow env1 user feed).
  assert (Hnew : follows_url url (user_id user) t ff1 = true).
  { unfold follows_url, ff1. cbn [new_follow follow_user_id follow_feed_id].
    rewrite N.eqb_refl. simpl. apply existsb_exists. exists f. split; [exact Hf|].
    rewrite Hurl, String.eqb_refl, Hid. simpl. apply N.eqb_refl. }
  assert (Hold : forall r, In r (feed_follows t) ->
                           follows_url url (user_id user) t r = false).
  { intros r Hr. destruct (follows_url url (user_id user) t r) eqn:Hfu; [|reflexivity].
    exfalso. unfold follows_url in Hfu. apply andb_true_iff in Hfu.
    destruct Hfu as [Hu Hex]. apply existsb_exists in Hex.
    destruct Hex as (g & Hg & Hboth). apply andb_true_iff in Hboth.
    destruct Hboth as [Hgurl Hgid].
    apply String.eqb_eq in Hgurl. apply N.eqb_eq in Hgid. apply N.eqb_eq in Hu.
    assert (Hgf : g = f).
    { apply (NoDup_map_inj feed_url (feeds (tables_db t))); auto. congruence. }
    subst g.
    pose proof (existsb_false_In _ _ r Hpair Hr) as Hsp.
    unfold same_pair in Hsp. cbn [new_follow follow_user_id follow_feed_id] in Hsp.
    rewrite Hid, Hgid, Hu in Hsp. rewrite !N.eqb_refl in Hsp. discriminate. }
  rewrite (HandlerUnfollow_run env2 st cfg name q cmd url rest user _
             Hcfg Hname Hq Hargs Hfault).
  cbn [with_follows feed_follows].
  rewrite !filter_app. cbn [filter].
  change (follows_url url (user_id user)
            (with_follows t (feed_follows t ++ [ff1])) ff1)
    with (follows_url url (user_id user) t ff1).
  rewrite Hnew. cbn [negb].
  rewrite (filter_none _ (feed_follows t)); [|exact Hold].
  cbn [app].
  rewrite (filter_all _ (feed_follows t)).
  - rewrite app_nil_r. now destruct t.
  - intros r Hr.
    change (negb (follows_url url (user_id user) t r) = true).
    now rewrite (Hold r Hr).
Qed.

(** X16: an unfollow only removes follows of the user for feeds with the
    given URL. Whatever the state, the arguments and the faults of the
    database, [HandlerUnfollow] leaves the users, the feeds and the posts
    as they are, adds no follow, and keeps every follow of another user
    and every follow of the user for a feed that has another URL. *)
Theorem HandlerUnfollow_frame
  (env : CallEnv) (s : option State) (cmd : Command) (user : User) (t : Tables) :
  let t' := tables_part (HandlerUnfollow env s cmd user t) in
  tables_db t' = tables_db t /\ users t' = users t /\
  (forall r, In r (feed_follows t') -> In r (feed_follows t)) /\
  (forall r, In r (feed_follows t) ->
             follow_user_id r <> user_id user \/
             (forall f, In f (feeds (tables_db t)) ->
                        feed_id f = follow_feed_id r ->
                        Some (feed_url f) <> hd_error (Command_Args cmd)) ->
             In r (feed_follows t')).
Proof.
  unfold HandlerUnfollow, bind, deref, ret, tables_part.
  destruct s as [st|]; [|cbn; auto 6].
  destruct (State_Config st) as [cfg|]; [|cbn; auto 6].
  destruct (config.Config_Name cfg) as [name|]; [|cbn; auto 6].
  destruct (Command_Args cmd) as [|url rest]; [cbn; auto 6|].
  destruct (State_DB st) as [q|]; [|cbn; auto 6].
  unfold QueriesCli.DeleteFeedFollowByUserAndFeed.
  destruct (call_fails env "DeleteFeedFollowByUserAndFeed") as [err|].
  { destruct (errors_Is_ErrNoRows err); cbn; auto 6. }
  unfold DeleteFeedFollowByUserAndFeed.
  destruct (filter (follows_url url (user_id user) t) (feed_follows t)) as [|ff l];
    [cbn; auto 6|].
  cbn. repeat split.
  - intros r Hr. apply filter_In in Hr. tauto.
  - intros r Hr Hkeep. apply filter_In. split; [exact Hr|].
    apply negb_true_iff. destruct (follows_url url (user_id user) t r) eqn:Hfu;
      [|reflexivity].
    exfalso. unfold follows_url in Hfu. apply andb_true_iff in Hfu.
    destruct Hfu as [Hu Hex]. apply existsb_exists in Hex.
    destruct Hex as (g & Hg & Hboth). apply andb_true_iff in Hboth.
    destruct Hboth as [Hgurl Hgid].
    apply String.eqb_eq in Hgurl. apply N.eqb_eq in Hgid. apply N.eqb_eq in Hu.
    destruct Hkeep as [Hne|Hother]; [now apply Hne|].
    apply (Hother g Hg); [now symmetry|]. now rewrite Hgurl.
Qed.

(** X17: unfollowing what is not followed. When no follow of the user is
    for a feed with the URL (and the state, the arguments and the database
    are in order), [HandlerUnfollow] prints that the user is not following
    the feed, exits with code 0 and changes no table. *)
Theorem HandlerUnfollow_not_following
  (env : CallEnv) (st : State) (cfg : config.Config) (name : string) (q : Queries)
  (cmd : Command) (url : string) (rest : list string) (user : User) (t : Tables) :
  State_Config st = Some cfg -> config.Config_Name cfg = Some name ->
  State_DB st = Some q ->
  Command_Args cmd = url :: rest ->
  call_fails env "DeleteFeedFollowByUserAndFeed" = None ->
  (forall r, In r (feed_follows t) -> follows_url url (user_id user) t r = false) ->
  HandlerUnfollow env (Some st) cmd user t =
  (inl (Exit 0), t,
   [Stdout ("%s is not following this feed!" ++ nl) [AStr (user_name user)]]).
Proof.
  intros Hcfg Hname Hq Hargs Hfault Hnone.
  rewrite (HandlerUnfollow_run env st cfg name q cmd url rest user t
             Hcfg Hname Hq Hargs Hfault).
  now rewrite (filter_none _ _ Hnone).
Qed.

Lemma newest_first_total (a b : FollowRow) :
  newest_first a b = true \/ newest_first b a = true.
Proof.
  unfold newest_first.
  destruct (Z.leb_spec (follow_created_at (row_follow b))
                       (follow_created_at (row_follow a))); [now left|right].
  apply Z.leb_le. lia.
Qed.

Lemma In_joined (t : Tables) (ff : FeedFollow) (row : FollowRow) :
  In row (joined t ff) <->
  exists u f, In u (users t) /\ In f (feeds (tables_db t)) /\
              user_id u = follow_user_id ff /\ feed_id f = follow_feed_id ff /\
              row = mkFollowRow ff (user_name u) (feed_name f).
Proof.
  unfold joined. rewrite in_flat_map. split.
  - intros (u & Hu & Hin). apply in_flat_map in Hin. destruct Hin as (f & Hf & Hin).
    destruct (N.eqb_spec (user_id u) (follow_user_id ff)); [|destruct Hin].
    destruct (N.eqb_spec (feed_id f) (follow_feed_id ff)); [|destruct Hin].
    destruct Hin as [<-|[]]. now exists u, f.
  - intros (u & f & Hu & Hf & Huid & Hfid & ->). exists u. split; [exact Hu|].
    apply in_flat_map. exists f. split; [exact Hf|].
    rewrite Huid, Hfid, !N.eqb_refl. now left.
Qed.

(** X18: what [GetFeedFollowsForUser] selects. Its rows are exactly the
    follows of the user, each joined with a user and a feed that have the
    ids of the follow and give the two names, and they come newest first:
    no row is created before the row that follows it. *)
Theorem GetFeedFollowsForUser_rows (userID : UUID) (t : Tables) :
  (forall row,
      In row (GetFeedFollowsForUser userID t) <->
      In (row_follow row) (feed_follows t) /\
      follow_user_id (row_follow row) = userID /\
      exists u f, In u (users t) /\ In f (feeds (tables_db t)) /\
                  user_id u = userID /\ feed_id f = follow_feed_id (row_follow row) /\
                  row_userName row = user_name u /\ row_feedName row = feed_name f) /\
  Sorted (fun a b => follow_created_at (row_follow b)
                     <= follow_created_at (row_follow a))
         (GetFeedFollowsForUser userID t).
Proof.
  unfold GetFeedFollowsForUser. split.
  - intros row.
    set (sel := flat_map (joined t)
                  (filter (fun ff => N.eqb (follow_user_id ff) userID) (feed_follows t))).
    assert (Hperm : In row (Sql.order_by newest_first sel) <-> In row sel).
    { split; apply Permutation_in;
        [symmetry|]; apply SqlFacts.order_by_perm. }
    rewrite Hperm. unfold sel. rewrite in_flat_map. split.
    + intros (ff & Hff & Hrow). apply filter_In in Hff. destruct Hff as [Hff Hu].
      apply N.eqb_eq in Hu. apply In_joined in Hrow.
      destruct Hrow as (u & f & Hin_u & Hin_f & Huid & Hfid & ->). simpl.
      repeat split; auto. exists u, f. repeat split; auto. congruence.
    + intros (Hff & Hu & u & f & Hin_u & Hin_f & Huid & Hfid & Hun & Hfn).
      exists (row_follow row). split.
      * apply filter_In. split; [exact Hff|]. now apply N.eqb_eq.
      * apply In_joined. exists u, f. repeat split; auto; [congruence|].
        destruct row as [ff un fn]. simpl in *. congruence.
  - pose proof (SqlFacts.order_by_sorted newest_first newest_first_total
                  (flat_map (joined t)
                     (filter (fun ff => N.eqb (follow_user_id ff) userID)
                             (feed_follows t)))) as Hs.
    induction Hs as [|a l Hl IH Hhd]; constructor; auto.
    destruct Hhd as [|b l Hab]; constructor.
    unfold newest_first in Hab. now apply Z.leb_le in Hab.
Qed.

(** The lines that [HandlerFollowing] prints for the rows of a user. *)
Lemma for_range_feed_names (rows : list FollowRow) (t : Tables) :
  for_range rows
    (fun feedFollow =>
       bind (Printf ("Feed name: %s" ++ nl) [AStr (row_feedName feedFollow)])
            (fun _ => Println ""))
    t =
  (inr tt, t,
   flat_map (fun row => [Stdout ("Feed name: %s" ++ nl) [AStr (row_feedName row)];
                         Stdout ("" ++ nl) []]) rows).
Proof.
  induction rows as [|row rows IH]; [reflexivity|].
  cbn [for_range flat_map]. unfold bind at 1. unfold bind at 1.
  unfold Printf at 1, Println at 1. now rewrite IH.
Qed.

Lemma HandlerFollowing_run
  (env : CallEnv) (st : State) (cfg : config.Config) (name : string) (q : Queries)
  (cmd : Command) (user : User) (t : Tables) :
  State_Config st = Some cfg -> config.Config_Name cfg = Some name ->
  State_DB st = Some q ->
  call_fails env "GetFeedFollowsForUser" = None ->
  HandlerFollowing env (Some st) cmd user t =
  (inl (Exit 0), t,
   match GetFeedFollowsForUser (user_id user) t with
   | [] => [Stdout ("No feed follows in database!" ++ nl) []]
   | rows =>
       [Stdout ("Feeds followed by %s:" ++ nl) [AStr (user_name user)];
        Stdout ("" ++ nl) []]
       ++ flat_map (fun row => [Stdout ("Feed name: %s" ++ nl) [AStr (row_feedName row)];
                                Stdout ("" ++ nl) []]) rows
   end).
Proof.
  intros Hcfg Hname Hq Hfault.
  unfold HandlerFollowing. unfold bind at 1, deref at 1. rewrite Hcfg, Hname.
  unfold bind at 1, deref at 1. rewrite Hq.
  unfold bind at 1, QueriesCli.GetFeedFollowsForUser. rewrite Hfault.
  destruct (GetFeedFollowsForUser (user_id user) t) as [|row rows]; [reflexivity|].
  unfold bind at 1, Printf at 1. unfold bind at 1, Println at 1.
  unfold bind at 1. rewrite for_range_feed_names.
  unfold os_Exit. cbn [app]. now rewrite !app_nil_r.
Qed.

(** X19: a followed feed is listed. After [HandlerFollow] has succeeded and
    printed that the user is following a feed, [HandlerFollowing] for that
    user exits with code 0, changes no table, and prints among its lines
    the line of that feed's name. *)
Theorem HandlerFollowing_after_HandlerFollow
  (env1 env2 : CallEnv) (st : State) (cmd cmd' : Command) (user : User) (t t1 : Tables)
  (userName feedName : string) :
  HandlerFollow env1 (Some st) cmd user t =
    (inr None, t1,
     [Stdout ("%s is now following: %s" ++ nl) [AStr userName; AStr feedName]]) ->
  call_fails env2 "GetFeedFollowsForUser" = None ->
  exists out,
    HandlerFollowing env2 (Some st) cmd' user t1 = (inl (Exit 0), t1, out) /\
    In (Stdout ("Feed name: %s" ++ nl) [AStr feedName]) out.
Proof.
  intros Hfirst Hfault.
  pose proof Hfirst as Hrun. revert Hrun.
  unfold HandlerFollow.
  destruct (Command_Args cmd) as [|url rest]; [discriminate|].
  unfold bind, deref, ret.
  destruct (State_Config st) as [cfg|] eqn:Hcfg; [|discriminate].
  destruct (config.Config_Name cfg) as [name|] eqn:Hname; [|discriminate].
  destruct (State_DB st) as [q|] eqn:Hq; [|discriminate].
  unfold QueriesCli.GetFeedByURL.
  destruct (call_fails env1 "GetFeedByURL"); [discriminate|].
  destruct (GetFeedByURL url t) as [err|feed] eqn:Hfeed; [discriminate|].
  unfold QueriesCli.CreateFeedFollows.
  destruct (call_fails env1 "CreateFeedFollows"); [cbn; intros H; revert H|].
  { match goal with |- context [GoStrings.Contains ?a ?b] =>
      destruct (GoStrings.Contains a b) end; discriminate. }
  fold (new_follow env1 user feed).
  unfold CreateFeedFollows. cbn [follow_id new_follow].
  destruct (existsb (fun r => N.eqb (follow_id r) (call_uuid env1)) (feed_follows t));
    [cbv beta iota zeta; rewrite unique_constraint_text; discriminate|].
  fold (new_follow env1 user feed).
  destruct (existsb (same_pair (new_follow env1 user feed)) (feed_follows t));
    [cbv beta iota zeta; rewrite unique_constraint_text; discriminate|].
  destruct (negb (existsb _ (users t))); [cbn; discriminate|].
  destruct (negb (existsb _ (feeds (tables_db t)))); [cbn; discriminate|].
  destruct (joined t (new_follow env1 user feed)) as [|row rows] eqn:Hjoin;
    [cbn; discriminate|].
  cbn. intros [= <- _ Hfn].
  eexists. split;
    [exact (HandlerFollowing_run env2 st cfg name q cmd' user _ Hcfg Hname Hq Hfault)|].
  set (t1 := {| tables_db := tables_db t; users := users t;
                feed_follows := feed_follows t ++ [new_follow env1 user feed] |}).
  assert (Hrow : In row (GetFeedFollowsForUser (user_id user) t1)).
  { unfold GetFeedFollowsForUser.
    eapply Permutation_in; [apply SqlFacts.order_by_perm|].
    apply in_flat_map. exists (new_follow env1 user feed). split.
    - apply filter_In. split.
      + unfold t1. cbn [feed_follows]. apply in_or_app. right. now left.
      + cbn [new_follow follow_user_id]. apply N.eqb_refl.
    - change (joined t1 (new_follow env1 user feed))
        with (joined t (new_follow env1 user feed)).
      rewrite Hjoin. now left. }
  destruct (GetFeedFollowsForUser (user_id user) t1) as [|r0 rs]; [destruct Hrow|].
  apply in_or_app. right. apply in_flat_map. exists row. split; [exact Hrow|].
  left. now rewrite Hfn.
Qed.

(** X20: [HandlerFollowing] only reads. Whatever the state, the user and
    the faults of the database, it leaves every table as it is, and when it
    returns instead of ending the process it returns an error. *)
Theorem HandlerFollowing_reads_only
  (env : CallEnv) (s : option State) (cmd : Command) (user : User) (t : Tables) :
  tables_part (HandlerFollowing env s cmd user t) = t /\
  result_part (HandlerFollowing env s cmd user t) <> inr None.
Proof.
  destruct s as [st|]; [|split; [reflexivity|discriminate]].
  destruct (State_Config st) as [cfg|] eqn:Hcfg; cycle 1.
  { unfold HandlerFollowing, bind, deref. rewrite Hcfg.
    split; [reflexivity|discriminate]. }
  destruct (config.Config_Name cfg) as [name|] eqn:Hname; cycle 1.
  { unfold HandlerFollowing, bind, deref. rewrite Hcfg, Hname.
    split; [reflexivity|discriminate]. }
  destruct (State_DB st) as [q|] eqn:Hq; cycle 1.
  { unfold HandlerFollowing, bind, deref. rewrite Hcfg, Hname, Hq.
    split; [reflexivity|discriminate]. }
  destruct (call_fails env "GetFeedFollowsForUser") as [err|] eqn:Hfault.
  { unfold HandlerFollowing, bind, deref, QueriesCli.GetFeedFollowsForUser.
    rewrite Hcfg, Hname, Hq, Hfault. split; [reflexivity|discriminate]. }
  rewrite (HandlerFollowing_run env st cfg name q cmd user t Hcfg Hname Hq Hfault).
  split; [reflexivity|discriminate].
Qed.

Lemma HandlerFollow_twice_witness :
  HandlerFollow SampleCli.call_2 (Some Sample.sample_state) SampleCli.follow_b
                SampleCli.lane SampleCli.tables_followed
  = (inr (Some (Errorf0 "error: you are already following this feed")),
     SampleCli.tables_followed, []).
Proof.
  apply (HandlerFollow_twice SampleCli.call_1 SampleCli.call_2 Sample.sample_state
           SampleCli.follow_b SampleCli.lane SampleCli.sample_tables
           SampleCli.tables_followed
           [Stdout ("%s is now following: %s" ++ nl) [AStr "lane"; AStr "b"]]);
    reflexivity.
Defined.

Lemma HandlerFollow_adds_the_follow_witness :
  HandlerFollow SampleCli.call_1 (Some Sample.sample_state) SampleCli.follow_b
                SampleCli.lane SampleCli.sample_tables
  = (inr None, SampleCli.tables_followed,
     [Stdout ("%s is now following: %s" ++ nl) [AStr "lane"; AStr "b"]]).
Proof.
  apply (HandlerFollow_adds_the_follow SampleCli.call_1 Sample.sample_state
           SampleCli.lane_config "lane" database_New SampleCli.follow_b
           "https://b.example/rss" [] SampleCli.lane SampleCli.sample_tables
           SampleCli.found_b); try reflexivity.
  - repeat constructor; simpl; intuition discriminate.
  - repeat constructor; simpl; intuition discriminate.
  - simpl. auto.
Defined.

Lemma HandlerFollow_then_HandlerUnfollow_witness :
  HandlerUnfollow SampleCli.call_2 (Some Sample.sample_state) SampleCli.follow_b
                  SampleCli.lane SampleCli.tables_followed
  = (inl (Exit 0), SampleCli.sample_tables,
     [Stdout ("Feed successfully unfollowed!" ++ nl) []]).
Proof.
  apply (HandlerFollow_then_HandlerUnfollow SampleCli.call_1 SampleCli.call_2
           Sample.sample_state SampleCli.follow_b SampleCli.lane
           SampleCli.sample_tables SampleCli.tables_followed
           [Stdout ("%s is now following: %s" ++ nl) [AStr "lane"; AStr "b"]]);
    try reflexivity.
  repeat constructor; simpl; intuition discriminate.
Defined.

Lemma HandlerUnfollow_not_following_witness :
  HandlerUnfollow SampleCli.call_1 (Some Sample.sample_state) SampleCli.follow_b
                  SampleCli.lane SampleCli.sample_tables
  = (inl (Exit 0), SampleCli.sample_tables,
     [Stdout ("%s is not following this feed!" ++ nl) [AStr "lane"]]).
Proof.
  apply (HandlerUnfollow_not_following SampleCli.call_1 Sample.sample_state
           SampleCli.lane_config "lane" database_New SampleCli.follow_b
           "https://b.example/rss" [] SampleCli.lane SampleCli.sample_tables);
    try reflexivity.
  intros r [<-|[]]. reflexivity.
Defined.

Lemma HandlerFollowing_after_HandlerFollow_witness :
  exists out,
    HandlerFollowing SampleCli.call_2 (Some Sample.sample_state) SampleCli.following
                     SampleCli.lane SampleCli.tables_followed
    = (inl (Exit 0), SampleCli.tables_followed, out) /\
    In (Stdout ("Feed name: %s" ++ nl) [AStr "b"]) out.
Proof.
  apply (HandlerFollowing_after_HandlerFollow SampleCli.call_1 SampleCli.call_2
           Sample.sample_state SampleCli.follow_b SampleCli.following SampleCli.lane
           SampleCli.sample_tables SampleCli.tables_followed "lane" "b");
    reflexivity.
Defined.

End followFacts.


Module schemaFacts.
Import Follows Schema.

Lemma NoDup_map_snoc {A K : Type} (key : A -> K) (l : list A) (x : A) :
  NoDup (map key l) -> ~ In (key x) (map key l) -> NoDup (map key (l ++ [x])).
Proof.
  intros Hnd Hnotin. rewrite map_app.
  apply (Permutation_NoDup (l := key x :: map key l)).
  - apply Permutation_cons_append.
  - now constructor.
Qed.

Lemma existsb_false_not_In {A K : Type} (key : A -> K) (eqb : K -> K -> bool)
      (l : list A) (k : K) :
  (forall a b, a = b -> eqb a b = true) ->
  existsb (fun r => eqb (key r) k) l = false -> ~ In k (map key l).
Proof.
  intros Heqb Hex Hin. apply in_map_iff in Hin. destruct Hin as (x & Hx & Hin).
  assert (existsb (fun r => eqb (key r) k) l = true); [|congruence].
  apply existsb_exists. exists x. split; [exact Hin|]. now apply Heqb.
Qed.

(** X21: an insert keeps the constraints of [posts]. On a database that
    satisfies the primary key, the unique URL and the foreign key of
    [005_posts.sql], a [CreatePost] that succeeds leaves a database that
    satisfies them, with the same feeds and the new post after the old
    ones. *)
Theorem CreatePost_keeps_constraints (p : Post) (db db' : Database) :
  posts_ok db ->
  Store.CreatePost p db = inr db' ->
  posts_ok db' /\ feeds db' = feeds db /\ posts db' = posts db ++ [p].
Proof.
  intros (Hid & Hurl & Hfk). unfold Store.CreatePost.
  destruct (existsb _ (posts db)) eqn:Hpk; [discriminate|].
  destruct (existsb (fun r => String.eqb (post_url r) (post_url p)) (posts db))
    eqn:Hun; [discriminate|].
  destruct (existsb _ (feeds db)) eqn:Hfeed; [|discriminate].
  cbn [negb]. intros [= <-]. cbn [feeds posts]. repeat split.
  - apply NoDup_map_snoc; [exact Hid|].
    apply (existsb_false_not_In post_id N.eqb); [|exact Hpk].
    intros a b ->. apply N.eqb_refl.
  - apply NoDup_map_snoc; [exact Hurl|].
    apply (existsb_false_not_In post_url String.eqb); [|exact Hun].
    intros a b ->. apply String.eqb_refl.
  - intros r Hr. apply in_app_or in Hr. destruct Hr as [Hr|[<-|[]]].
    + now apply Hfk.
    + apply existsb_exists in Hfeed. destruct Hfeed as (f & Hf & Heq).
      exists f. split; [exact Hf|]. now apply N.eqb_eq.
Qed.

(** X22: an insert keeps the constraints of [feed_follows]. On tables that
    satisfy the primary key, the unique pair and the two foreign keys of
    [003_feed_follows.sql], [CreateFeedFollows] leaves tables that satisfy
    them, with the same users, feeds and posts, whether it succeeds or not;
    and it never answers that there are no rows: the row it inserted always
    joins with its user and its feed. *)
Theorem CreateFeedFollows_keeps_constraints (ff : FeedFollow) (t : Tables) :
  follows_ok t ->
  follows_ok (snd (CreateFeedFollows ff t)) /\
  tables_db (snd (CreateFeedFollows ff t)) = tables_db t /\
  users (snd (CreateFeedFollows ff t)) = users t /\
  fst (CreateFeedFollows ff t) <> inl sql_ErrNoRows.
Proof.
  intros Hok. unfold CreateFeedFollows.
  assert (refused : forall e : error + FollowRow, e <> inl sql_ErrNoRows ->
            follows_ok (snd (e, t)) /\ tables_db (snd (e, t)) = tables_db t /\
            users (snd (e, t)) = users t /\ fst (e, t) <> inl sql_ErrNoRows).
  { intros e He. repeat split; auto; apply Hok. }
  destruct (existsb _ (feed_follows t)) eqn:Hpk;
    [apply refused; discriminate|].
  destruct (existsb (same_pair ff) (feed_follows t)) eqn:Hpair;
    [apply refused; discriminate|].
  destruct (existsb _ (users t)) eqn:Hu; cbn [negb];
    [|apply refused; discriminate].
  destruct (existsb _ (feeds (tables_db t))) eqn:Hf; cbn [negb];
    [|apply refused; discriminate].
  apply existsb_exists in Hu. destruct Hu as (u & Hin_u & Huid).
  apply existsb_exists in Hf. destruct Hf as (f & Hin_f & Hfid).
  apply N.eqb_eq in Huid. apply N.eqb_eq in Hfid.
  cbn [snd fst tables_db users]. repeat split.
  - destruct Hok as (Hid & _). cbn [feed_follows].
    apply NoDup_map_snoc; [exact Hid|].
    apply (existsb_false_not_In follow_id N.eqb); [|exact Hpk].
    intros a b ->. apply N.eqb_refl.
  - destruct Hok as (_ & Hun & _). cbn [feed_follows].
    apply NoDup_map_snoc; [exact Hun|].
    intros Hin. apply in_map_iff in Hin. destruct Hin as (r & Heq & Hr).
    assert (Hsp : same_pair ff r = true).
    { unfold follow_pair in Heq. injection Heq as Hu' Hf'.
      unfold same_pair. now rewrite Hu', Hf', !N.eqb_refl. }
    assert (existsb (same_pair ff) (feed_follows t) = true); [|congruence].
    apply existsb_exists. now exists r.
  - destruct Hok as (_ & _ & Hfku & _). cbn [feed_follows users].
    intros r Hr. apply in_app_or in Hr. destruct Hr as [Hr|[<-|[]]]; [now apply Hfku|].
    now exists u.
  - destruct Hok as (_ & _ & _ & Hfkf). cbn [feed_follows tables_db].
    intros r Hr. apply in_app_or in Hr. destruct Hr as [Hr|[<-|[]]]; [now apply Hfkf|].
    now exists f.
  - assert (Hrow : In (mkFollowRow ff (user_name u) (feed_name f)) (joined t ff)).
    { unfold joined. apply in_flat_map. exists u. split; [exact Hin_u|].
      apply in_flat_map. exists f. split; [exact Hin_f|].
      rewrite Huid, Hfid, !N.eqb_refl. now left. }
    destruct (joined t ff); [destruct Hrow|discriminate].
Qed.

Lemma newest_post_first_total (a b : Post) :
  newest_post_first a b = true \/ newest_post_first b a = true.
Proof.
  unfold newest_post_first.
  destruct (post_published_at a) as [x|], (post_published_at b) as [y|]; auto.
  - destruct (Z.eqb_spec x y) as [->|Hne].
    + rewrite Z.eqb_refl.
      destruct (Z.leb_spec (post_created_at b) (post_created_at a)); [now left|right].
      apply Z.leb_le. lia.
    + destruct (Z.eqb_spec y x); [congruence|].
      destruct (Z.ltb_spec y x); [now left|right]. apply Z.ltb_lt. lia.
  - destruct (Z.leb_spec (post_created_at b) (post_created_at a)); [now left|right].
    apply Z.leb_le. lia.
Qed.

Lemma newest_post_first_published_before (a b : Post) :
  newest_post_first a b = true -> published_before a b.
Proof.
  unfold newest_post_first, published_before.
  destruct (post_published_at a) as [x|], (post_published_at b) as [y|]; auto.
  - destruct (Z.eqb_spec x y) as [->|Hne]; intros H.
    + right. split; [reflexivity|]. now apply Z.leb_le.
    + left. now apply Z.ltb_lt.
  - discriminate.
  - intros H. now apply Z.leb_le.
Qed.

Lemma Sorted_firstn {A : Type} (R : A -> A -> Prop) (n : nat) (l : list A) :
  Sorted R l -> Sorted R (firstn n l).
Proof.
  revert l. induction n as [|n IH]; intros l Hs; [constructor|].
  destruct l as [|a l]; [constructor|]. simpl.
  inversion Hs as [|? ? Hl Hhd]; subst. constructor; [now apply IH|].
  destruct n; [constructor|]. destruct l as [|b l]; [constructor|].
  simpl. inversion Hhd; subst. now constructor.
Qed.

Lemma Sorted_impl {A : Type} (R S : A -> A -> Prop) (l : list A) :
  (forall a b, R a b -> S a b) -> Sorted R l -> Sorted S l.
Proof.
  intros HRS. induction 1 as [|a l Hl IH Hhd]; constructor; auto.
  destruct Hhd; constructor; auto.
Qed.

(** The posts that [GetPostsForUser] joins with the follows of a user. *)
Lemma In_posts_of_follows (userID : UUID) (t : Tables) (p : Post) :
  In p (flat_map (fun p =>
          flat_map (fun ff =>
            if N.eqb (post_feed_id p) (follow_feed_id ff)
               && N.eqb (follow_user_id ff) userID
            then [p] else [])
            (feed_follows t))
          (posts (tables_db t))) <->
  In p (posts (tables_db t)) /\
  exists ff, In ff (feed_follows t) /\ follow_user_id ff = userID /\
             follow_feed_id ff = post_feed_id p.
Proof.
  rewrite in_flat_map. split.
  - intros (p' & Hp' & Hin). apply in_flat_map in Hin. destruct Hin as (ff & Hff & Hin).
    destruct (N.eqb_spec (post_feed_id p') (follow_feed_id ff)); [|destruct Hin].
    destruct (N.eqb_spec (follow_user_id ff) userID); [|destruct Hin].
    destruct Hin as [<-|[]]. split; [exact Hp'|]. now exists ff.
  - intros (Hp & ff & Hff & Hu & Hf). exists p. split; [exact Hp|].
    apply in_flat_map. exists ff. split; [exact Hff|].
    rewrite Hu, Hf, !N.eqb_refl. now left.
Qed.

(** X23: what [GetPostsForUser] selects. A negative limit is an error.
    Otherwise the posts returned are at most [limit], each is a post of a
    feed that the user follows, a post of a followed feed is missing only
    when the limit is reached, and they are ordered by publication date,
    newest first and the undated last, then by creation time, newest
    first. *)
Theorem GetPostsForUser_rows (userID : UUID) (limit : Z) (t : Tables) :
  match GetPostsForUser userID limit t with
  | inl _ => limit < 0
  | inr ps =>
      0 <= limit /\
      (List.length ps <= Z.to_nat limit)%nat /\
      (forall p, In p ps ->
                 In p (posts (tables_db t)) /\
                 exists ff, In ff (feed_follows t) /\ follow_user_id ff = userID /\
                            follow_feed_id ff = post_feed_id p) /\
      (forall p ff, In p (posts (tables_db t)) -> In ff (feed_follows t) ->
                    follow_user_id ff = userID ->
                    follow_feed_id ff = post_feed_id p ->
                    In p ps \/ List.length ps = Z.to_nat limit) /\
      Sorted published_before ps
  end.
Proof.
  unfold GetPostsForUser.
  destruct (Z.ltb_spec limit 0) as [Hneg|Hpos]; [exact Hneg|].
  set (sel := flat_map _ (posts (tables_db t))).
  unfold Sql.limit. split; [exact Hpos|]. split; [apply firstn_le_length|]. split; [|split].
  - intros p Hp. apply (In_posts_of_follows userID t p). fold sel.
    eapply Permutation_in;
      [symmetry; apply (SqlFacts.order_by_perm newest_post_first sel)|].
    rewrite <- (firstn_skipn (Z.to_nat limit)). apply in_or_app. left. exact Hp.
  - intros p ff Hp Hff Hu Hf.
    assert (Hsel : In p (Sql.order_by newest_post_first sel)).
    { eapply Permutation_in; [apply SqlFacts.order_by_perm|].
      apply (In_posts_of_follows userID t p). split; [exact Hp|]. now exists ff. }
    destruct (Nat.le_gt_cases (List.length (Sql.order_by newest_post_first sel))
                              (Z.to_nat limit)) as [Hall|Hcut].
    + left. now rewrite firstn_all2.
    + right. apply firstn_length_le. lia.
  - apply Sorted_firstn.
    apply (Sorted_impl (fun a b => newest_post_first a b = true));
      [apply newest_post_first_published_before|].
    apply SqlFacts.order_by_sorted. apply newest_post_first_total.
Qed.

(** Under the unique pair, a post joins with at most one follow of a
    user. *)
Lemma joins_at_most_once (userID : UUID) (p : Post) (fs : list FeedFollow) :
  NoDup (map follow_pair fs) ->
  flat_map (fun ff =>
    if N.eqb (post_feed_id p) (follow_feed_id ff) && N.eqb (follow_user_id ff) userID
    then [p] else []) fs =
  if existsb (fun ff => N.eqb (post_feed_id p) (follow_feed_id ff)
                        && N.eqb (follow_user_id ff) userID) fs
  then [p] else [].
Proof.
  induction fs as [|a fs IH]; intros Hnd; [reflexivity|].
  simpl in Hnd. inversion Hnd as [|? ? Hnotin Hnd']; subst.
  cbn [flat_map existsb].
  destruct (N.eqb (post_feed_id p) (follow_feed_id a) && N.eqb (follow_user_id a) userID)
    eqn:Ha.
  - cbn [orb]. rewrite followFacts.flat_map_nil; [reflexivity|].
    intros ff Hff.
    destruct (N.eqb (post_feed_id p) (follow_feed_id ff)
              && N.eqb (follow_user_id ff) userID) eqn:Hb; [|reflexivity].
    exfalso. apply Hnotin. apply in_map_iff. exists ff. split; [|exact Hff].
    apply andb_true_iff in Ha. apply andb_true_iff in Hb.
    destruct Ha as [Ha1 Ha2], Hb as [Hb1 Hb2].
    apply N.eqb_eq in Ha1, Ha2, Hb1, Hb2. unfold follow_pair. congruence.
  - cbn [orb app]. now apply IH.
Qed.

Lemma flat_map_if_filter {A : Type} (c : A -> bool) (l : list A) :
  flat_map (fun x => if c x then [x] else []) l = filter c l.
Proof.
  induction l as [|a l IH]; [reflexivity|]. simpl. rewrite IH. now destruct (c a).
Qed.

Lemma NoDup_map_filter {A K : Type} (key : A -> K) (c : A -> bool) (l : list A) :
  NoDup (map key l) -> NoDup (map key (filter c l)).
Proof.
  induction l as [|a l IH]; intros Hnd; [constructor|].
  simpl in Hnd. inversion Hnd as [|? ? Hnotin Hnd']; subst. simpl.
  destruct (c a); [|now apply IH]. simpl. constructor; [|now apply IH].
  intros Hin. apply Hnotin. apply in_map_iff in Hin. destruct Hin as (x & Hx & Hin).
  apply filter_In in Hin. apply in_map_iff. exists x. tauto.
Qed.

(** X24: no post comes twice. When the ids of the posts are distinct and
    the pairs of user and feed of the follows are distinct, as the schema
    demands, the posts that [GetPostsForUser] returns have distinct ids:
    the join with the follows repeats no post. *)
Theorem GetPostsForUser_no_duplicates
  (userID : UUID) (limit : Z) (t : Tables) (ps : list Post) :
  NoDup (map post_id (posts (tables_db t))) ->
  NoDup (map follow_pair (feed_follows t)) ->
  GetPostsForUser userID limit t = inr ps ->
  NoDup (map post_id ps).
Proof.
  intros Hposts Hpairs. unfold GetPostsForUser.
  destruct (limit <? 0); [discriminate|]. intros [= <-].
  set (c := fun p : Post =>
              existsb (fun ff => N.eqb (post_feed_id p) (follow_feed_id ff)
                                 && N.eqb (follow_user_id ff) userID) (feed_follows t)).
  assert (Hsel : flat_map (fun p =>
                   flat_map (fun ff =>
                     if N.eqb (post_feed_id p) (follow_feed_id ff)
                        && N.eqb (follow_user_id ff) userID
                     then [p] else []) (feed_follows t)) (posts (tables_db t))
                 = filter c (posts (tables_db t))).
  { rewrite <- flat_map_if_filter. apply flat_map_ext. intros p.
    now rewrite (joins_at_most_once userID p (feed_follows t) Hpairs). }
  rewrite Hsel. unfold Sql.limit.
  assert (Hsorted : NoDup (map post_id
                             (Sql.order_by newest_post_first
                                (filter c (posts (tables_db t)))))).
  { apply (Permutation_NoDup (l := map post_id (filter c (posts (tables_db t))))).
    - apply Permutation_map. apply SqlFacts.order_by_perm.
    - now apply NoDup_map_filter. }
  rewrite <- (firstn_skipn (Z.to_nat limit)
                (Sql.order_by newest_post_first (filter c (posts (tables_db t)))))
    in Hsorted.
  rewrite map_app in Hsorted. now apply NoDup_app_remove_r in Hsorted.
Qed.

Lemma posts_db_ok : posts_ok SampleCli.posts_db.
Proof.
  repeat split.
  - repeat constructor; simpl; intuition discriminate.
  - repeat constructor; simpl; intuition discriminate.
  - intros p [<-|[<-|[]]]; exists Sample.feed_b; simpl; auto.
Qed.

Lemma sample_tables_ok : follows_ok SampleCli.sample_tables.
Proof.
  repeat split.
  - repeat constructor; simpl; intuition discriminate.
  - repeat constructor; simpl; intuition discriminate.
  - intros ff [<-|[]]. exists SampleCli.kahya. simpl. auto.
  - intros ff [<-|[]]. exists Sample.feed_b. simpl. auto.
Qed.

Lemma CreatePost_keeps_constraints_witness :
  posts_ok (mkDatabase (feeds SampleCli.posts_db)
                       (posts SampleCli.posts_db ++ [SampleCli.post_3])) /\
  feeds (mkDatabase (feeds SampleCli.posts_db)
                    (posts SampleCli.posts_db ++ [SampleCli.post_3]))
  = feeds SampleCli.posts_db /\
  posts (mkDatabase (feeds SampleCli.posts_db)
                    (posts SampleCli.posts_db ++ [SampleCli.post_3]))
  = posts SampleCli.posts_db ++ [SampleCli.post_3].
Proof.
  apply (CreatePost_keeps_constraints SampleCli.post_3 SampleCli.posts_db).
  - exact posts_db_ok.
  - reflexivity.
Defined.

Lemma CreateFeedFollows_keeps_constraints_witness :
  follows_ok (snd (CreateFeedFollows
                     (handlers_cli.new_follow SampleCli.call_1 SampleCli.lane
                                              SampleCli.found_b)
                     SampleCli.sample_tables)) /\
  tables_db (snd (CreateFeedFollows
                    (handlers_cli.new_follow SampleCli.call_1 SampleCli.lane
                                             SampleCli.found_b)
                    SampleCli.sample_tables))
  = tables_db SampleCli.sample_tables /\
  users (snd (CreateFeedFollows
                (handlers_cli.new_follow SampleCli.call_1 SampleCli.lane
                                         SampleCli.found_b)
                SampleCli.sample_tables))
  = users SampleCli.sample_tables /\
  fst (CreateFeedFollows
         (handlers_cli.new_follow SampleCli.call_1 SampleCli.lane SampleCli.found_b)
         SampleCli.sample_tables)
  <> inl sql_ErrNoRows.
Proof.
  apply (CreateFeedFollows_keeps_constraints
           (handlers_cli.new_follow SampleCli.call_1 SampleCli.lane SampleCli.found_b)
           SampleCli.sample_tables).
  exact sample_tables_ok.
Defined.

Lemma GetPostsForUser_no_duplicates_witness :
  NoDup (map post_id [SampleCli.post_1; SampleCli.post_2]).
Proof.
  apply (GetPostsForUser_no_duplicates 8%N 5 SampleCli.posts_tables
           [SampleCli.post_1; SampleCli.post_2]).
  - repeat constructor; simpl; intuition discriminate.
  - repeat constructor; simpl; intuition discriminate.
  - reflexivity.
Defined.

End schemaFacts.
